(** * InsetIndex: index-entry codec and print-index tree builder

    A shallow embedding of [src/insets/InsetIndex.cpp] (LyX): the parser of
    the index micro-syntax ([parseItem], [extractSubentries]), the DocBook
    output of an index inset ([InsetIndex::docbook]), the parameter
    serialisation ([InsetIndexParams::write] / [read]) and the XHTML output
    of the print-index inset ([InsetPrintIndex::xhtml]).

    Conventions.
    - A [docstring] is a Rocq [string]; [size_t] values are integers in
      [0, 2^64) with wrap-around written out ([wrap]); [npos] is [2^64 - 1].
    - [std::basic_string] members that throw [std::out_of_range]
      ([substr], [erase]) return [option]; code that calls them lives in
      the option monad.
    - An [XMLStream] is modelled by the list of items written to it. *)

From Stdlib Require Import ZArith Lia List Bool Ascii String.
From Stdlib Require Import Numbers.DecimalString.
From Stdlib Require Numbers.DecimalZ.
From stdpp Require Import gmap strings.

Import ListNotations.
Local Open Scope string_scope.
Local Open Scope list_scope.
Local Open Scope Z_scope.

(** ** Option monad for code that may throw *)

Definition bind {A B : Type} (m : option A) (k : A -> option B) : option B :=
  match m with
  | Some a => k a
  | None => None
  end.

Notation "'let?' x := m 'in' k" := (bind m (fun x => k))
  (at level 10, x pattern, m at level 100, k at level 200).

(** ** [size_t] and [std::basic_string] *)

Definition docstring := string.

Definition size_max : Z := 2 ^ 64.
Definition npos : Z := size_max - 1.
Definition wrap (z : Z) : Z := z mod size_max.

Fixpoint sdrop (n : nat) (s : string) : string :=
  match n, s with
  | O, _ => s
  | S n', String _ s' => sdrop n' s'
  | S _, EmptyString => EmptyString
  end.

Fixpoint stake (n : nat) (s : string) : string :=
  match n, s with
  | S n', String c s' => String c (stake n' s')
  | _, _ => EmptyString
  end.

Definition size (s : string) : Z := Z.of_nat (String.length s).

Definition empty (s : string) : bool :=
  match s with
  | EmptyString => true
  | String _ _ => false
  end.

(** [s] begins with [pat]. *)
Fixpoint is_prefix (pat s : string) : bool :=
  match pat, s with
  | EmptyString, _ => true
  | String _ _, EmptyString => false
  | String a pat', String b s' => Ascii.eqb a b && is_prefix pat' s'
  end.

(** Index of the first occurrence of [pat] in [s]. *)
Fixpoint find_nat (pat s : string) : option nat :=
  if is_prefix pat s then Some O
  else match s with
       | EmptyString => None
       | String _ s' => option_map S (find_nat pat s')
       end.

(** [s.find(pat, pos)]: the first occurrence at or after [pos], or [npos]. *)
Definition find (s pat : string) (pos : Z) : Z :=
  if size s <? pos then npos
  else match find_nat pat (sdrop (Z.to_nat pos) s) with
       | Some i => pos + Z.of_nat i
       | None => npos
       end.

(** [s.substr(pos, n)]: throws when [pos > size()]; [n] is clipped to the
    characters that remain. *)
Definition substr (s : string) (pos n : Z) : option string :=
  if size s <? pos then None
  else Some (stake (Z.to_nat (Z.min n (size s - pos)))
                   (sdrop (Z.to_nat pos) s)).

(** [s.erase(pos, n)]: same range rule as [substr]. *)
Definition erase (s : string) (pos n : Z) : option string :=
  if size s <? pos then None
  else let k := Z.min n (size s - pos) in
       Some (stake (Z.to_nat pos) s +:+ sdrop (Z.to_nat (pos + k)) s).

(** [s[0]]: for an empty string the terminating null character. *)
Definition front0 (s : string) : ascii :=
  match s with
  | EmptyString => Ascii.zero
  | String c _ => c
  end.

(** ** Helpers of [support/lstrings] *)

Definition is_space (c : ascii) : bool := Ascii.eqb c " "%char.

(** Modelled from the spec: [ltrim], [rtrim] and [trim] of
    [support/lstrings], which is not among the sources; they strip the
    blanks at the left end, the right end and both ends of a string. *)
Fixpoint ltrim (s : string) : string :=
  match s with
  | String c s' => if is_space c then ltrim s' else s
  | EmptyString => EmptyString
  end.

Fixpoint rtrim (s : string) : string :=
  match s with
  | EmptyString => EmptyString
  | String c s' =>
      let r := rtrim s' in
      if is_space c && empty r then EmptyString else String c r
  end.

Definition trim (s : string) : string := rtrim (ltrim s).

(** ** The entry parser (anonymous namespace of the source) *)

(** [parseItem(s, for_output)]: drop the sort key (or keep only it), then
    drop everything from the first vertical bar. *)
Definition parseItem (s : docstring) (for_output : bool) : option docstring :=
  let loc := find s "@" 0 in
  let? s1 :=
        (if negb (loc =? npos)
         then if for_output then erase s 0 (wrap (loc + 1))
              else erase s loc npos
         else Some s) in
  let loc' := find s1 "|" 0 in
  if negb (loc' =? npos) then erase s1 loc' npos else Some s1.

(** [extractSubentries(entry, main, sub1, sub2)]: the three references are
    the triple passed in and returned. *)
Definition extractSubentries (entry : docstring)
    (out : docstring * docstring * docstring)
  : option (docstring * docstring * docstring) :=
  let '(main, sub1, sub2) := out in
  if empty entry then Some (main, sub1, sub2)
  else
    let loc := find entry " ! " 0 in
    if loc =? npos then Some (entry, sub1, sub2)
    else
      let? m := substr entry 0 loc in
      let locend := wrap (loc + 3) in
      let loc2 := find entry " ! " locend in
      if loc2 =? npos then
        let? s1 := substr entry locend npos in
        Some (trim m, trim s1, sub2)
      else
        let? s1 := substr entry locend (wrap (loc2 - locend)) in
        let? s2 := substr entry (wrap (loc2 + 3)) npos in
        Some (trim m, trim s1, trim s2).

(** The sequence [extractSubentries; parseItem; parseItem; parseItem] on
    three fresh strings, as in the [IndexEntry] constructor
    ([for_output = false]) and in the loop of [InsetPrintIndex::xhtml]
    ([for_output = true]). *)
Definition parseEntry (s : docstring) (for_output : bool)
  : option (docstring * docstring * docstring) :=
  let? (main, sub, subsub) := extractSubentries s ("", "", "") in
  let? main' := parseItem main for_output in
  let? sub' := parseItem sub for_output in
  let? subsub' := parseItem subsub for_output in
  Some (main', sub', subsub').


(** Modelled from the spec: [getVectorFromString(str, delim, keepempty)] of
    [support/lstrings], which is not among the sources; it splits [str] on
    [delim] into trimmed pieces and drops an empty piece, unless it is the
    last one or [keepempty] is set.  Each piece consumes at least the
    delimiter, so [S (length str)] rounds are enough. *)
Fixpoint getVector_loop (fuel : nat) (delim : docstring) (keepempty : bool)
    (keys : docstring) : list docstring :=
  match fuel with
  | O => []
  | S fuel' =>
      match find_nat delim keys with
      | None => [ltrim keys]
      | Some idx =>
          let key := trim (stake idx keys) in
          let rest := sdrop (idx + String.length delim) keys in
          (if negb (empty key) || keepempty then [key] else [])
            ++ getVector_loop fuel' delim keepempty rest
      end
  end.

Definition getVectorFromString (str delim : docstring) (keepempty : bool)
  : list docstring :=
  if empty str then []
  else getVector_loop (S (String.length str)) delim keepempty (rtrim str).

(** [std::to_string(int)]. *)
Definition to_string (n : Z) : string := NilEmpty.string_of_int (Z.to_int n).

(** ** The XML stream *)

(** What is written to an [XMLStream], in order: tags, [xml::CR()], text
    (escaped by the stream), text written after [XMLStream::ESCAPE_NONE],
    and integers. *)
Inductive XMLItem : Type :=
| StartTag (tag attr : string)
| EndTag (tag : string)
| CompTag (tag attr : string)
| CR
| Text (s : docstring)
| Raw (s : docstring)
| Num (n : Z).

Definition dq : string := String (ascii_of_nat 34) EmptyString.
Definition LF : string := String (ascii_of_nat 10) EmptyString.
Definition BS : string := String (ascii_of_nat 92) EmptyString.

(** The inline comment of every diagnostic of [InsetIndex::docbook]
    (the copy sent to the log by [LYXERR0] is not modelled). *)
Definition output_error (error : docstring) : XMLItem :=
  Raw ("<!-- Output Error: " +:+ error +:+ " -->" +:+ LF).

Definition is_output_error (x : XMLItem) : bool :=
  match x with
  | Raw s => is_prefix "<!-- Output Error: " s
  | _ => false
  end.

(** ** [InsetIndex::docbook] *)

(** The loops [index = 0; while ((index = command.find(pat, index)) != npos)
    command.erase(index, 1);].  Every round erases one character, so
    [S (length command)] rounds are enough; [None] is an exception or a
    loop that has not finished. *)
Fixpoint erase_each (fuel : nat) (pat command : docstring) (index : Z)
  : option docstring :=
  match fuel with
  | O => None
  | S fuel' =>
      let index' := find command pat index in
      if index' =? npos then Some command
      else let? command' := erase command index' 1 in
           erase_each fuel' pat command' index'
  end.

Definition erase_all (pat command : docstring) : option docstring :=
  erase_each (S (String.length command)) pat command 0.

(** Lines 252-264: the range markers are taken out of [command]. *)
Definition strip_ranges (hasStartRange hasEndRange : bool)
    (command : docstring) : option docstring :=
  if hasStartRange || hasEndRange then
    let? c1 := erase_all "|(" command in
    let? c2 := erase_all "|)" c1 in
    if Ascii.eqb (front0 c2) "("%char || Ascii.eqb (front0 c2) ")"%char
    then erase c2 0 1
    else Some c2
  else Some command.

Definition several_see_error (latexString : docstring) : docstring :=
  "Several index terms found as " +:+ dq +:+ "see" +:+ dq
    +:+ "! Only one is acceptable. Complete entry: " +:+ dq
    +:+ latexString +:+ dq.

(** Lines 266-300: [see] and [seealso].  Returns [see], [seeAlsoes], the
    diagnostics written and what is left of [command]. *)
Definition handle_see (latexString command : docstring)
  : option (docstring * list docstring * list XMLItem * docstring) :=
  let? head3 := substr command 0 3 in
  if String.eqb head3 "see" then
    let? c1 := erase_all (BS +:+ "{") command in
    let? c2 := erase_all (BS +:+ "}") c1 in
    let positionOpeningBracket := find c2 "{" 0 in
    let positionClosingBracket := find c2 "}" 0 in
    let? list :=
      substr c2 (wrap (positionOpeningBracket + 1))
        (wrap (positionClosingBracket - positionOpeningBracket - 1)) in
    let? head7 := substr c2 0 7 in
    let '(see, seeAlsoes, xs) :=
      if String.eqb head7 "seealso"
      then ("", getVectorFromString list "," false, [])
      else (list, [],
            if negb (find list "," 0 =? npos)
            then [output_error (several_see_error latexString)]
            else []) in
    let? rest := substr c2 (wrap (positionClosingBracket + 1)) npos in
    Some (see, seeAlsoes, xs, rest)
  else Some ("", [], [], command).

(** The thread-local data of the range identifiers. *)
Record RangeState : Type := mkRangeState {
  knownTermLists : gset docstring;
  ID : Z
}.

Definition initialRangeState : RangeState := mkRangeState ∅ 0.

Section Docbook.

(** [xml::cleanID] is not among the sources; by the comment at its call
    it returns the same legal identifier for the same argument. *)
Variable cleanID : docstring -> docstring.

(** Lines 327-365: the attributes of the [indexterm] element. *)
Definition range_attrs (indexType indexTerms : docstring)
    (hasStartRange hasEndRange : bool) (st : RangeState)
  : docstring * RangeState :=
  if negb hasStartRange && negb hasEndRange then (indexType, st)
  else
    let known := bool_decide (indexTerms ∈ knownTermLists st) in
    let newIndexTerms :=
      if known then indexTerms +:+ "-" +:+ to_string (ID st) else indexTerms in
    let ID1 := if known && hasEndRange then ID st + 1 else ID st in
    let knownTermLists1 :=
      if negb known && hasEndRange
      then {[ indexTerms ]} ∪ knownTermLists st
      else knownTermLists st in
    let id := cleanID newIndexTerms in
    let attrs :=
      if hasStartRange
      then indexType +:+ " class=" +:+ dq +:+ "startofrange" +:+ dq
             +:+ " xml:id=" +:+ dq +:+ id +:+ dq
      else " class=" +:+ dq +:+ "endofrange" +:+ dq
             +:+ " startref=" +:+ dq +:+ id +:+ dq in
    (attrs, mkRangeState knownTermLists1 ID1).

(** Lines 367-410: the element itself. *)
Definition write_indexterm (attrs sortAs : docstring) (terms : list docstring)
    (hasEndRange : bool) (see : docstring) (seeAlsoes : list docstring)
  : list XMLItem :=
  if hasEndRange then [CompTag "indexterm" attrs]
  else
    [StartTag "indexterm" attrs]
    ++ (if negb (Nat.eqb (List.length terms) 0) then
          let attr := if negb (empty sortAs)
                      then "sortas='" +:+ sortAs +:+ "'" else "" in
          [StartTag "primary" attr; Text (nth 0 terms ""); EndTag "primary"]
        else [])
    ++ (if Nat.ltb 1 (List.length terms) then
          [StartTag "secondary" ""; Text (nth 1 terms ""); EndTag "secondary"]
        else [])
    ++ (if Nat.ltb 2 (List.length terms) then
          [StartTag "tertiary" ""; Text (nth 2 terms ""); EndTag "tertiary"]
        else [])
    ++ (if negb (empty see) then
          [StartTag "see" ""; Text see; EndTag "see"]
        else [])
    ++ flat_map (fun entry =>
                   [StartTag "seealso" ""; Text entry; EndTag "seealso"])
         seeAlsoes
    ++ [EndTag "indexterm"].

(** [InsetIndex::docbook]: [latex] is what [InsetText::latex] wrote for
    the inset; [use_indices] and [index] come from the buffer parameters
    and from [params_]. *)
Definition docbook (use_indices : bool) (index : docstring)
    (st : RangeState) (latex : docstring)
  : option (list XMLItem * RangeState) :=
  let latexString := trim latex in
  let xs0 :=
    if negb (find latexString ("@" +:+ BS) 0 =? npos) then
      [output_error ("Unsupported feature: an index entry contains an @"
                       +:+ BS +:+ ". Complete entry: " +:+ dq
                       +:+ latexString +:+ dq)]
    else [] in
  let indexType :=
    if use_indices then " type=" +:+ dq +:+ index +:+ dq else "" in
  let positionVerticalBar := find latexString "|" 0 in
  let? indexTerms0 := substr latexString 0 positionVerticalBar in
  let? command0 :=
    (if negb (positionVerticalBar =? npos)
     then substr latexString (wrap (positionVerticalBar + 1)) npos
     else Some "") in
  let sortingElements := getVectorFromString indexTerms0 "@" false in
  let '(sortAs, indexTerms) :=
    match sortingElements with
    | [a; b] => (a, b)
    | _ => ("", indexTerms0)
    end in
  let terms := getVectorFromString indexTerms "!" false in
  let hasStartRange := negb (find latexString "|(" 0 =? npos) in
  let hasEndRange := negb (find latexString "|)" 0 =? npos) in
  let? command1 := strip_ranges hasStartRange hasEndRange command0 in
  let? (see, seeAlsoes, xs1, command) := handle_see latexString command1 in
  let xs2 :=
    if negb (empty command) then
      [output_error
         ("Unsupported feature: an index entry contains a | with an "
            +:+ "unsupported command, " +:+ command +:+ ". "
            +:+ "Complete entry: " +:+ dq +:+ latexString +:+ dq)]
    else [] in
  if Nat.eqb (List.length terms) 0 && negb hasEndRange then
    Some (xs0 ++ xs1 ++ xs2
            ++ [output_error ("No index term found! Complete entry: " +:+ dq
                                +:+ latexString +:+ dq)],
          st)
  else
    let '(attrs, st') :=
      range_attrs indexType indexTerms hasStartRange hasEndRange st in
    Some (xs0 ++ xs1 ++ xs2
            ++ write_indexterm attrs sortAs terms hasEndRange see seeAlsoes,
          st').

End Docbook.


(** ** Reading and writing the parameters *)

(** Modelled from the spec: the [Lexer] ([Lexer.cpp] is not among the
    sources), as far as the single-line parameter block needs it.  A lexer
    is the rest of its stream, the buffer of the last read and whether
    that read gave data.  [next] skips blanks and commas, reads the
    characters of a token and consumes the character that ends it;
    [eatLine] takes the rest of the line without its line feed, dropping
    carriage returns, and fails only at the end of the stream. *)
Module Lexer.

Record t : Type := mk { stream : string; buff : string; status : bool }.

Definition setStream (data : string) : t := mk data "" false.

Definition is_token_char (c : ascii) : bool :=
  (32 <? nat_of_ascii c)%nat && negb (Ascii.eqb c ","%char).

Fixpoint read_token (s : string) : string * string :=
  match s with
  | EmptyString => ("", "")
  | String c s' =>
      if is_token_char c
      then let (tok, rest) := read_token s' in (String c tok, rest)
      else ("", s')
  end.

Fixpoint skip_blanks (s : string) : string :=
  match s with
  | EmptyString => EmptyString
  | String c s' => if is_token_char c then s else skip_blanks s'
  end.

Definition next (lex : t) : bool * t :=
  let s := skip_blanks (stream lex) in
  if empty s then (false, mk "" "" false)
  else let (tok, rest) := read_token s in (true, mk rest tok true).

(** [lex >> required]: reads a token; a token that differs is reported to
    the log only. *)
Definition checkFor (required : string) (lex : t) : t := snd (next lex).

Fixpoint read_line (s : string) : string * bool * string :=
  match s with
  | EmptyString => ("", false, "")
  | String c s' =>
      if Ascii.eqb c (ascii_of_nat 10) then ("", true, s')
      else let '(line, found, rest) := read_line s' in
           (if Ascii.eqb c (ascii_of_nat 13) then line else String c line,
            found, rest)
  end.

Definition eatLine (lex : t) : bool * t :=
  let '(line, found, rest) := read_line (stream lex) in
  if found || negb (empty line) then (true, mk rest line true)
  else (false, mk rest "" (status lex)).

Definition getDocString (lex : t) : docstring :=
  if status lex then buff lex else "".

End Lexer.

Module InsetIndexParams.

Record t : Type := mk { index : docstring }.

(** [InsetIndexParams()]: the index name is empty. *)
Definition default : t := mk "".

(** [write(os)]: the characters appended to [os]. *)
Definition write (params : t) (os : string) : string :=
  os +:+ " "
     +:+ (if negb (empty (index params)) then index params else "idx")
     +:+ LF.

Definition read (lex : Lexer.t) : t * Lexer.t :=
  let (ok, lex') := Lexer.eatLine lex in
  if ok then (mk (Lexer.getDocString lex'), lex')
  else (mk "idx", lex').

End InsetIndexParams.

(** [InsetIndex::params2string]. *)
Definition params2string (params : InsetIndexParams.t) : string :=
  InsetIndexParams.write params "index".

(** [InsetIndex::string2params]. *)
Definition string2params (input : string) : InsetIndexParams.t :=
  if empty input then InsetIndexParams.default
  else
    let lex := Lexer.setStream input in
    let lex1 := Lexer.checkFor "index" lex in
    fst (InsetIndexParams.read lex1).

(** ** [InsetPrintIndex::xhtml] *)

(** Modelled from the spec: [compare_no_case] of [support/lstrings], which
    is not among the sources: the case-insensitive lexicographic
    comparison, negative, zero or positive. *)
Definition lowercase (c : ascii) : ascii :=
  let n := nat_of_ascii c in
  if ((65 <=? n) && (n <=? 90))%nat then ascii_of_nat (n + 32) else c.

Fixpoint compare_no_case (s s2 : docstring) : Z :=
  match s, s2 with
  | EmptyString, EmptyString => 0
  | EmptyString, String _ _ => -1
  | String _ _, EmptyString => 1
  | String c r, String c2 r2 =>
      let lc1 := nat_of_ascii (lowercase c) in
      let lc2 := nat_of_ascii (lowercase c2) in
      if (lc1 =? lc2)%nat then compare_no_case r r2
      else if (lc1 <? lc2)%nat then -1 else 1
  end.

(** The paragraph a [DocIterator] of the table of contents points into:
    its [magicLabel()] and what [simpleLyXHTMLOnePar] writes for it when
    [for_toc] is set. *)
Record Paragraph : Type := mkParagraph {
  magicLabel : string;
  simpleLyXHTMLOnePar : docstring
}.

Record TocItem : Type := mkTocItem {
  str : docstring;
  isOutput : bool;
  toc_dit : Paragraph
}.

Record IndexEntry : Type := mkIndexEntry {
  main : docstring;
  sub : docstring;
  subsub : docstring;
  dit : Paragraph
}.

(** [IndexEntry()]. *)
Definition IndexEntry_default : IndexEntry :=
  mkIndexEntry "" "" "" (mkParagraph "" "").

(** [IndexEntry(s, d)]. *)
Definition IndexEntry_make (s : docstring) (d : Paragraph)
  : option IndexEntry :=
  let? (m, s1, s2) := parseEntry s false in
  Some (mkIndexEntry m s1 s2 d).

Definition equal (lhs rhs : IndexEntry) : bool :=
  String.eqb (main lhs) (main rhs) && String.eqb (sub lhs) (sub rhs)
  && String.eqb (subsub lhs) (subsub rhs).

Definition same_sub (lhs rhs : IndexEntry) : bool :=
  String.eqb (main lhs) (main rhs) && String.eqb (sub lhs) (sub rhs).

Definition same_main (lhs rhs : IndexEntry) : bool :=
  String.eqb (main lhs) (main rhs).

(** [operator<] on entries. *)
Definition IndexEntry_lt (lhs rhs : IndexEntry) : bool :=
  let comp := compare_no_case (main lhs) (main rhs) in
  let comp := if comp =? 0 then compare_no_case (sub lhs) (sub rhs)
              else comp in
  let comp := if comp =? 0 then compare_no_case (subsub lhs) (subsub rhs)
              else comp in
  comp <? 0.

(** [std::stable_sort]: the sorted arrangement in which entries that do
    not compare less than one another keep their order. *)
Fixpoint stable_insert (x : IndexEntry) (l : list IndexEntry)
  : list IndexEntry :=
  match l with
  | [] => [x]
  | y :: l' => if IndexEntry_lt y x then y :: stable_insert x l'
               else x :: y :: l'
  end.

Fixpoint stable_sort (l : list IndexEntry) : list IndexEntry :=
  match l with
  | [] => []
  | x :: l' => stable_insert x (stable_sort l')
  end.

(** What [xhtml] reads from the buffer and the layout. *)
Record PrintIndexEnv : Type := mkPrintIndexEnv {
  use_indices : bool;
  type_param : docstring;      (* getParam("type") *)
  htmltag : string;            (* lay.htmltag() *)
  htmlattr : string;           (* lay.htmlattr() *)
  defaultCSSClass : string;    (* lay.defaultCSSClass() *)
  index_title : docstring      (* translateIfPossible("Index", lang) *)
}.

(** The variables of the loop over the entries. *)
Record LoopState : Type := mkLoopState {
  xs : list XMLItem;
  level : Z;
  last : IndexEntry;
  entry_number : Z
}.

(** Lines 997-1028: closing the last entry or entries. *)
Definition close_last (level : Z) (eit last : IndexEntry)
  : list XMLItem * Z :=
  let '(xs3, level) :=
    if level =? 3 then
      if negb (same_sub eit last)
      then ([EndTag "li"; CR; EndTag "ul"; CR], 2)
      else ([EndTag "li"; CR], level)
    else ([], level) in
  let '(xs2, level) :=
    if (level =? 2) && negb (same_sub eit last) then
      if negb (same_main eit last)
      then ([EndTag "li"; CR; EndTag "ul"; CR], 1)
      else ([EndTag "li"; CR], level)
    else ([], level) in
  let xs1 :=
    if (level =? 1) && negb (same_main eit last)
    then [EndTag "li"; CR] else [] in
  (xs3 ++ xs2 ++ xs1, level).

(** Lines 1053-1108: starting the new entry. *)
Definition open_new (level : Z) (eit last : IndexEntry)
    (main' sub' subsub' : docstring) : list XMLItem * Z :=
  if level =? 3 then
    ([StartTag "li" "class='subsubentry'"; Raw subsub'], level)
  else if level =? 2 then
    let xsa := if negb (String.eqb (sub eit) (sub last))
               then [StartTag "li" "class='subentry'"; Raw sub'] else [] in
    if negb (empty subsub')
    then (xsa ++ [CR; StartTag "ul" "class='subsubentry'";
                  StartTag "li" "class='subsubentry'"; Raw subsub'], 3)
    else (xsa, level)
  else
    let xsa := if negb (String.eqb (main eit) (main last))
               then [StartTag "li" "class='main'"; Text main'] else [] in
    if negb (empty sub') then
      let xsb := [CR; StartTag "ul" "class='subentry'";
                  StartTag "li" "class='subentry'"; Raw sub'] in
      if negb (empty subsub')
      then (xsa ++ xsb ++ [CR; StartTag "ul" "class='subsubentry'";
                           StartTag "li" "class='subsubentry'"; Raw subsub'],
            3)
      else (xsa ++ xsb, 2)
    else (xsa, level).

(** One round of the loop, lines 991-1116. *)
Definition xhtml_step (st : LoopState) (eit : IndexEntry)
  : option LoopState :=
  let par := dit eit in
  let? (xs1, level1, entry_number1) :=
    (if (entry_number st =? -1) || negb (equal eit (last st)) then
       let '(xsc, lvl) :=
         if negb (entry_number st =? -1)
         then close_last (level st) eit (last st)
         else ([], level st) in
       let? (main', sub', subsub') :=
         parseEntry (simpleLyXHTMLOnePar par) true in
       let '(xso, lvl') := open_new lvl eit (last st) main' sub' subsub' in
       Some (xs st ++ xsc ++ xso, lvl', 0)
     else Some (xs st, level st, entry_number st)) in
  let parattr := "href='#" +:+ magicLabel par +:+ "'" in
  let entry_number2 := entry_number1 + 1 in
  Some (mkLoopState
          (xs1 ++ [Text (if entry_number1 =? 0 then ":" else ",");
                   Text " "; StartTag "a" parattr; Num entry_number2;
                   EndTag "a"])
          level1 eit entry_number2).

Fixpoint xhtml_loop (st : LoopState) (entries : list IndexEntry)
  : option LoopState :=
  match entries with
  | [] => Some st
  | eit :: rest => let? st' := xhtml_step st eit in xhtml_loop st' rest
  end.

(** [while (level > 0) ...], lines 1118-1121, for [n] rounds. *)
Fixpoint close_levels (n : nat) : list XMLItem :=
  match n with
  | O => []
  | S n' => [EndTag "li"; EndTag "ul"; CR] ++ close_levels n'
  end.

(** Lines 964-1123, from the sorted entries on. *)
Definition xhtml_entries (env : PrintIndexEnv) (entries : list IndexEntry)
  : option (list XMLItem) :=
  let tocattr := "class='index " +:+ defaultCSSClass env +:+ "'" in
  let xs0 := [StartTag "div" tocattr;
              StartTag (htmltag env) (htmlattr env);
              Text (index_title env);
              EndTag (htmltag env);
              StartTag "ul" "class='main'"] in
  let? st := xhtml_loop (mkLoopState xs0 1 IndexEntry_default (-1)) entries in
  Some (xs st ++ close_levels (Z.to_nat (level st)) ++ [EndTag "div"; CR]).

(** Lines 950-955: the entries of the items that are output. *)
Fixpoint collect_entries (toc : list TocItem) : option (list IndexEntry) :=
  match toc with
  | [] => Some []
  | it :: rest =>
      if isOutput it then
        let? e := IndexEntry_make (str it) (toc_dit it) in
        let? es := collect_entries rest in
        Some (e :: es)
      else collect_entries rest
  end.

(** [InsetPrintIndex::xhtml]: what is written to the deferred stream; the
    empty [docstring()] is the empty list. *)
Definition xhtml (env : PrintIndexEnv) (toc : list TocItem)
  : option (list XMLItem) :=
  if use_indices env && negb (String.eqb (type_param env) "idx") then Some []
  else if Nat.eqb (List.length toc) 0 then Some []
  else
    let? entries := collect_entries toc in
    if Nat.eqb (List.length entries) 0 then Some []
    else xhtml_entries env (stable_sort entries).


(** ** Notions the statements use *)

(** [c] is one of the characters of [s]. *)
Fixpoint occurs (c : ascii) (s : string) : bool :=
  match s with
  | EmptyString => false
  | String c' s' => Ascii.eqb c c' || occurs c s'
  end.

Fixpoint ends_with_space (s : string) : bool :=
  match s with
  | EmptyString => false
  | String c EmptyString => is_space c
  | String _ s' => ends_with_space s'
  end.

(** No blank at either end. *)
Definition trimmed (s : string) : bool :=
  negb (is_space (front0 s)) && negb (ends_with_space s).

(** Splitting at the first occurrence of [sep], in the words of the
    specification: what is before it and what is after it. *)
Fixpoint split_first (sep s : string) : option (string * string) :=
  if is_prefix sep s then Some ("", sdrop (String.length sep) s)
  else match s with
       | EmptyString => None
       | String c s' =>
           match split_first sep s' with
           | Some (a, b) => Some (String c a, b)
           | None => None
           end
       end.

(** The specification's split of an entry: at most two splits at the
    first [" ! "], the segments trimmed; an entry without the delimiter is
    its own main field. *)
Definition split_entry (entry : docstring) : docstring * docstring * docstring :=
  match split_first " ! " entry with
  | None => (entry, "", "")
  | Some (a, r) =>
      match split_first " ! " r with
      | None => (trim a, trim r, "")
      | Some (b, c) => (trim a, trim b, trim c)
      end
  end.

(** What [handle_see] returns for a command that begins with [see], from
    the bracketed content [lst] and the rest [rest] of the command. *)
Definition see_result (latexString command lst rest : docstring)
  : docstring * list docstring * list XMLItem * docstring :=
  if is_prefix "seealso" command
  then ("", getVectorFromString lst "," false, [], rest)
  else (lst, [],
        if occurs "," lst
        then [output_error (several_see_error latexString)] else [],
        rest).

(** [latex] holds the end-of-range marker, the start-of-range marker. *)
Definition hasEndRange (latex : docstring) : bool :=
  negb (find (trim latex) "|)" 0 =? npos).

Definition hasStartRange (latex : docstring) : bool :=
  negb (find (trim latex) "|(" 0 =? npos).

(** A run of [docbook] over the insets of one scope, in order, threading
    the thread-local data. *)
Fixpoint docbook_run (cleanID : docstring -> docstring) (use_indices : bool)
    (index : docstring) (st : RangeState) (inputs : list docstring)
  : option (list (list XMLItem) * RangeState) :=
  match inputs with
  | [] => Some ([], st)
  | latex :: rest =>
      let? (out, st1) := docbook cleanID use_indices index st latex in
      let? (outs, st2) := docbook_run cleanID use_indices index st1 rest in
      Some (out :: outs, st2)
  end.

Definition startofrange_attrs (indexType id : docstring) : docstring :=
  indexType +:+ " class=" +:+ dq +:+ "startofrange" +:+ dq
    +:+ " xml:id=" +:+ dq +:+ id +:+ dq.

Definition endofrange_attrs (id : docstring) : docstring :=
  " class=" +:+ dq +:+ "endofrange" +:+ dq
    +:+ " startref=" +:+ dq +:+ id +:+ dq.

(** The [type] attribute of lines 225-228. *)
Definition indexType_attr (use_indices : bool) (index : docstring)
  : docstring :=
  if use_indices then " type=" +:+ dq +:+ index +:+ dq else "".

(** An item of the table of contents for an index inset that is output and
    whose paragraph is the plain text [s]. *)
Definition plain_item (s : docstring) (label : string) : TocItem :=
  mkTocItem s true (mkParagraph label s).

(** The anchor with the ordinal [n] written after an entry. *)
Definition index_link (first : bool) (label : string) (n : Z)
  : list XMLItem :=
  [Text (if first then ":" else ","); Text " ";
   StartTag "a" ("href='#" +:+ label +:+ "'"); Num n; EndTag "a"].

(** The open elements after the items [xs], starting from the open
    elements [stack] (innermost first); [None] when an end tag does not
    close the innermost open element. *)
Fixpoint tag_stack (stack : list string) (xs : list XMLItem)
  : option (list string) :=
  match xs with
  | [] => Some stack
  | StartTag t _ :: r => tag_stack (t :: stack) r
  | EndTag t :: r =>
      match stack with
      | top :: stack' => if String.eqb top t then tag_stack stack' r else None
      | [] => None
      end
  | _ :: r => tag_stack stack r
  end.

(** Every end tag closes the innermost open element and nothing is left
    open: the start and end tags balance at every depth. *)
Definition wellnested (xs : list XMLItem) : bool :=
  match tag_stack [] xs with
  | Some [] => true
  | _ => false
  end.

(** The number of start tags [<tag attr>]. *)
Fixpoint count_start (tag attr : string) (xs : list XMLItem) : nat :=
  match xs with
  | [] => O
  | StartTag t a :: r =>
      ((if String.eqb t tag && String.eqb a attr then 1 else 0)
       + count_start tag attr r)%nat
  | _ :: r => count_start tag attr r
  end.

(** What [xhtml_entries] writes after the wrapper and the heading. *)
Definition index_list (out : list XMLItem) : list XMLItem := skipn 4 out.

(** The number of entries of [es] that are new in the sense [P] with
    respect to the entry before them ([last] before the first). *)
Fixpoint count_new (P : IndexEntry -> IndexEntry -> bool)
    (last : IndexEntry) (es : list IndexEntry) : nat :=
  match es with
  | [] => O
  | e :: r => ((if P e last then 1 else 0) + count_new P e r)%nat
  end.

(** An entry starts a run of entries with its main field, with its main
    and sub fields, with its three fields; it starts the sub-entries of
    its main field, the sub-sub-entries of its sub field. *)
Definition new_main (e last : IndexEntry) : bool := negb (same_main e last).

Definition new_sub (e last : IndexEntry) : bool :=
  negb (empty (sub e)) && negb (same_sub e last).

Definition new_subsub (e last : IndexEntry) : bool :=
  negb (empty (subsub e)) && negb (equal e last).

Definition new_sublist (e last : IndexEntry) : bool :=
  negb (empty (sub e)) && (negb (same_main e last) || empty (sub last)).

Definition new_subsublist (e last : IndexEntry) : bool :=
  negb (empty (subsub e)) && (negb (same_sub e last) || empty (subsub last)).

(** The paragraph of the entry shows a sub-entry, a sub-sub-entry exactly
    when the entry has one. *)
Definition shown_as_parsed (e : IndexEntry) : bool :=
  match parseEntry (simpleLyXHTMLOnePar (dit e)) true with
  | Some (_, sub', subsub') =>
      Bool.eqb (empty sub') (empty (sub e))
      && Bool.eqb (empty subsub') (empty (subsub e))
  | None => false
  end.

(** The main field is not empty, there is no sub-sub-entry without a
    sub-entry, and the paragraph shows what the entry has. *)
Definition well_formed (e : IndexEntry) : bool :=
  negb (empty (main e))
  && implb (empty (sub e)) (empty (subsub e))
  && shown_as_parsed e.

(** No entry compares less than the one before it. *)
Fixpoint sorted_from (last : IndexEntry) (es : list IndexEntry) : bool :=
  match es with
  | [] => true
  | e :: r => negb (IndexEntry_lt e last) && sorted_from e r
  end.

Definition sorted_entries (es : list IndexEntry) : bool :=
  match es with
  | [] => true
  | e :: r => sorted_from e r
  end.

(** The level the loop is at after an entry, and the elements then open. *)
Definition depth (e : IndexEntry) : Z :=
  if empty (sub e) then 1 else if empty (subsub e) then 2 else 3.

Definition open_stack (level : Z) : list string :=
  if level =? 1 then ["li"; "ul"; "div"]
  else if level =? 2 then ["li"; "ul"; "li"; "ul"; "div"]
  else ["li"; "ul"; "li"; "ul"; "li"; "ul"; "div"].

(** The numbers of main items, sub-entry items, sub-sub-entry items,
    sub-entry lists and sub-sub-entry lists that [xs] opens. *)
Definition opened (xs : list XMLItem) : list nat :=
  [count_start "li" "class='main'" xs;
   count_start "li" "class='subentry'" xs;
   count_start "li" "class='subsubentry'" xs;
   count_start "ul" "class='subentry'" xs;
   count_start "ul" "class='subsubentry'" xs].

(** The numbers of runs of entries with one main field, with one main and
    one non-empty sub field, with one triple whose sub-sub field is not
    empty; of main runs that have sub-entries and of sub runs that have
    sub-sub-entries. *)
Definition runs (last : IndexEntry) (es : list IndexEntry) : list nat :=
  [count_new new_main last es;
   count_new new_sub last es;
   count_new new_subsub last es;
   count_new new_sublist last es;
   count_new new_subsublist last es].

Definition add_counts (a b : list nat) : list nat :=
  map (fun p => (fst p + snd p)%nat) (combine a b).

(** The state of the loop after an entry: the level is the depth of the
    entry and the open elements are those of that level. *)
Definition loop_invariant (st : LoopState) : Prop :=
  0 <= entry_number st
  /\ level st = depth (last st)
  /\ tag_stack [] (xs st) = Some (open_stack (level st)).


(** ** More helpers of [support/lstrings] *)

(** Modelled from the spec: [subst(a, oldstr, newstr)] of
    [support/lstrings], which is not among the sources: every occurrence
    of [oldstr], from left to right and without looking again at what was
    put in, is replaced by [newstr].  Each round passes at least one
    character, so [S (length a)] rounds are enough. *)
Fixpoint subst_loop (fuel : nat) (oldstr newstr a : string) : string :=
  match fuel with
  | O => a
  | S fuel' =>
      match find_nat oldstr a with
      | None => a
      | Some i =>
          stake i a +:+ newstr
            +:+ subst_loop fuel' oldstr newstr
                  (sdrop (i + String.length oldstr) a)
      end
  end.

Definition subst (a oldstr newstr : string) : string :=
  subst_loop (S (String.length a)) oldstr newstr a.

(** Modelled from the spec: [contains(a, b)] and [suffixIs(a, c)] of
    [support/lstrings]: [a] holds the string [b]; [a] ends with the
    character [c]. *)
Definition contains (a b : string) : bool :=
  match find_nat b a with
  | Some _ => true
  | None => false
  end.

Fixpoint suffixIs (a : string) (c : ascii) : bool :=
  match a with
  | EmptyString => false
  | String x EmptyString => Ascii.eqb x c
  | String _ a' => suffixIs a' c
  end.

(** ** [InsetIndex::latex] and [InsetIndex::validate] *)

(** What [latex] leaves behind: the text sent to the stream, the text
    added to [post_macro], and the entries for which the sorting warning
    is shown (messages to the log are not modelled). *)
Record LatexOutput : Type := mkLatexOutput {
  ios : docstring;
  post_macro : docstring;
  warnings : list docstring
}.

Section Latex.

(** [escape] of [support/lstrings] and [Encoding::latexString] are not
    among the sources; the second returns the text in the encoding and
    the characters it could not encode. *)
Variable escape : docstring -> docstring.
Variable latexString : docstring -> bool -> docstring * docstring.

(** Lines 138-190: the levels, with the sort key where one is made;
    [levels_plain] is what is left from [it2] on. *)
Fixpoint latex_levels (dryrun first : bool) (levels levels_plain : list docstring)
  : docstring * list docstring :=
  match levels with
  | [] => ("", [])
  | it :: rest =>
      let sep := if first then "" else "!" in
      let '(key, warn) :=
        if occurs "\" it && negb (occurs "@" it) then
          let spart :=
            match levels_plain with
            | p :: _ => if negb (empty p) then p else it
            | [] => it
            end in
          let spart_latexed := latexString spart dryrun in
          let warn :=
            if negb (String.eqb spart (fst spart_latexed)) && negb dryrun
            then [spart] else [] in
          let ppart := subst (fst spart_latexed) BS "" in
          let ppart := subst ppart dq (BS +:+ dq) in
          (ppart +:+ "@", warn)
        else ("", []) in
      let '(text, warns) :=
        latex_levels dryrun false rest (List.tl levels_plain) in
      (sep +:+ key +:+ it +:+ text, warn ++ warns)
  end.

(** Lines 73-81: the command and what opens its argument. *)
Definition latex_open (use_indices : bool) (index : docstring) : docstring :=
  if use_indices && negb (empty index) && negb (String.eqb index "idx")
  then BS +:+ "sindex[" +:+ escape index +:+ "]{"
  else BS +:+ "index" +:+ "{".

(** [InsetIndex::latex]: [ourlatex] and [ourplain] are what
    [InsetText::latex] and [InsetText::plaintext] wrote for the inset. *)
Definition latex (use_indices : bool) (index : docstring)
    (find_effective dryrun postpone_fragile_stuff : bool)
    (ourlatex ourplain : docstring) : option LatexOutput :=
  let os := latex_open use_indices index in
  if find_effective then Some (mkLatexOutput "" "" [])
  else
    let latexstr := ourlatex in
    let plainstr := ourplain in
    let pos := find latexstr "|" 0 in
    let? (cmd, latexstr, plainstr) :=
      (if negb (pos =? npos) then
         let? cmd := substr latexstr (wrap (pos + 1)) npos in
         let? latexstr := erase latexstr pos npos in
         let ppos := find plainstr "|" 0 in
         let? plainstr :=
           (if ppos <? size plainstr then erase plainstr ppos npos
            else Some plainstr) in
         Some (cmd, latexstr, plainstr)
       else Some ("", latexstr, plainstr)) in
    let levels := getVectorFromString latexstr "!" true in
    let levels_plain := getVectorFromString plainstr "!" true in
    let '(text, warns) := latex_levels dryrun true levels levels_plain in
    let os := os +:+ text in
    let os := if negb (empty cmd) then os +:+ "|" +:+ cmd else os in
    let os := os +:+ "}" in
    if postpone_fragile_stuff
    then Some (mkLatexOutput "" os warns)
    else Some (mkLatexOutput os "" warns).

End Latex.

(** [InsetIndex::validate]: the features required, before those of
    [InsetCollapsible]. *)
Definition validate (use_indices : bool) (index : docstring) : list string :=
  if use_indices && negb (empty index) && negb (String.eqb index "idx")
  then ["splitidx"] else [].

(** ** The command of [InsetPrintIndex] *)

Module InsetPrintIndex.

(** [isCompatibleCommand(s)]. *)
Definition isCompatibleCommand (s : string) : bool :=
  String.eqb s "printindex" || String.eqb s "printsubindex"
  || String.eqb s "printindex*" || String.eqb s "printsubindex*".

(** Lines 719-723 of [doDispatch]: the command name that
    [toggle-subindex] hands to [setCmdName]. *)
Definition toggle_subindex (scmd : string) : string :=
  if contains scmd "printindex"
  then subst scmd "printindex" "printsubindex"
  else subst scmd "printsubindex" "printindex".

(** Lines 728-734 of [doDispatch]: [check-printindex*] leaves a starred
    command alone ([None]); otherwise it gives the starred name and an
    empty [type]. *)
Definition check_printindex_star (scmd : string)
  : option (string * docstring) :=
  if suffixIs scmd "*" then None
  else Some (scmd +:+ "*", "").

End InsetPrintIndex.

(** ** Further notions the statements use *)

(** The part of [s] before the first character that [stop] holds for. *)
Fixpoint take_until (stop : ascii -> bool) (s : string) : string :=
  match s with
  | EmptyString => EmptyString
  | String c s' => if stop c then EmptyString else String c (take_until stop s')
  end.

(** The part of [s] after the first character [c]; [s] itself when it does
    not hold [c]. *)
Fixpoint after_first (c : ascii) (s : string) : string :=
  match s with
  | EmptyString => EmptyString
  | String c' s' => if Ascii.eqb c c' then s' else
                      if occurs c s' then after_first c s' else s
  end.

(** The attributes of the anchors of [xs], and the numbers written. *)
Fixpoint links (xs : list XMLItem) : list string :=
  match xs with
  | [] => []
  | StartTag t a :: r => if String.eqb t "a" then a :: links r else links r
  | _ :: r => links r
  end.

Fixpoint numbers (xs : list XMLItem) : list Z :=
  match xs with
  | [] => []
  | Num n :: r => n :: numbers r
  | _ :: r => numbers r
  end.

(** The ordinal of each entry among the entries equal to it that come
    directly before it; [n] is the ordinal of [last], [-1] before the
    first entry. *)
Fixpoint ordinals (last : IndexEntry) (n : Z) (es : list IndexEntry)
  : list Z :=
  match es with
  | [] => []
  | e :: r =>
      let n' := if (n =? -1) || negb (equal e last) then 1 else n + 1 in
      n' :: ordinals e n' r
  end.

(** The elements open at a level when the main item has not been opened. *)
Definition unopened_stack (level : Z) : list string :=
  if level =? 1 then ["ul"; "div"]
  else if level =? 2 then ["li"; "ul"; "ul"; "div"]
  else ["li"; "ul"; "li"; "ul"; "ul"; "div"].

(** [n] ranges over one term list, one after the other: for each, the
    attributes of the start and of the end. *)
Fixpoint range_pairs (cleanID : docstring -> docstring)
    (indexType indexTerms : docstring) (n : nat) (st : RangeState)
  : list (docstring * docstring) * RangeState :=
  match n with
  | O => ([], st)
  | S n' =>
      let '(a1, st1) := range_attrs cleanID indexType indexTerms true false st in
      let '(a2, st2) := range_attrs cleanID indexType indexTerms false true st1 in
      let '(l, st3) := range_pairs cleanID indexType indexTerms n' st2 in
      ((a1, a2) :: l, st3)
  end.

(** The attribute of the anchor written for an entry. *)
Definition href (e : IndexEntry) : string :=
  "href='#" +:+ magicLabel (dit e) +:+ "'".

(** The levels of the loop. *)
Definition is_level (level : Z) : Prop := level = 1 \/ level = 2 \/ level = 3.

(** The name of a further range over the term list [t]: the counter, [k]
    ranges after it stood at [n], appended. *)
Definition suffixed (t : docstring) (n : Z) (k : nat) : docstring :=
  t +:+ "-" +:+ to_string (n + Z.of_nat k).

(** The attributes of the start and of the end of a range with the name
    [name]. *)
Definition pair_attrs (cleanID : docstring -> docstring)
    (indexType name : docstring) : docstring * docstring :=
  (startofrange_attrs indexType (cleanID name),
   endofrange_attrs (cleanID name)).

(** What follows the first [|] of [s]; nothing when there is no [|]. *)
Definition command_of (s : docstring) : docstring :=
  if occurs "|" s then after_first "|" s else "".

(** The text [latex] writes, whether to the stream or to [post_macro]. *)
Definition written (out : LatexOutput) : docstring :=
  ios out +:+ post_macro out.


(** The sort key made from the text [s] the encoding returned: no
    backslash, and a backslash in front of every double quote. *)
Definition sort_key (s : docstring) : docstring :=
  subst (subst s BS "") dq (BS +:+ dq).


(** ** Notions of the statements about cross references and raw text *)

(** [s] without every character [a] that has the character [b] right
    after it. *)
Fixpoint drop_before (a b : ascii) (s : string) : string :=
  match s with
  | EmptyString => EmptyString
  | String c s' =>
      if Ascii.eqb c a && Ascii.eqb (front0 s') b then drop_before a b s'
      else String c (drop_before a b s')
  end.

(** The index terms of an entry: what comes before the first [|], after
    the sort key if there is one, split at [!]. *)
Definition entry_terms (latex : docstring) : list docstring :=
  let t0 := take_until (Ascii.eqb "|") (trim latex) in
  let t := match getVectorFromString t0 "@" false with
           | [_; b] => b
           | _ => t0
           end in
  getVectorFromString t "!" false.

(** The trailing command of an entry: what follows the first [|]; in an
    entry with a range marker, without the [|] in front of a further
    parenthesis and without a parenthesis at its front. *)
Definition entry_command (latex : docstring) : docstring :=
  let c := command_of (trim latex) in
  if hasStartRange latex || hasEndRange latex then
    let c := drop_before "|" ")" (drop_before "|" "(" c) in
    if Ascii.eqb (front0 c) "(" || Ascii.eqb (front0 c) ")" then sdrop 1 c
    else c
  else c.

(** A command with the backslash taken from every escaped brace. *)
Definition unescaped (c : docstring) : docstring :=
  drop_before "\" "}" (drop_before "\" "{" c).

(** The bracketed content of a command: what follows the first [{] up to
    the first [}], or up to the end when a [}] comes before the [{]; with
    no [{] at all, what comes before the first [}]. *)
Definition bracketed (c : docstring) : docstring :=
  if occurs "{" c then
    if occurs "}" (take_until (Ascii.eqb "{") c) then after_first "{" c
    else take_until (Ascii.eqb "}") (after_first "{" c)
  else take_until (Ascii.eqb "}") c.

(** The texts of the elements [<tag>text</tag>] of [xs], in order. *)
Fixpoint elements (tag : string) (xs : list XMLItem) : list docstring :=
  match xs with
  | [] => []
  | StartTag t _ :: r =>
      match r with
      | Text s :: _ =>
          if String.eqb t tag then s :: elements tag r else elements tag r
      | _ => elements tag r
      end
  | _ :: r => elements tag r
  end.

(** An item that brings no markup of its own: anything but text written
    after [ESCAPE_NONE] that holds a [<]. *)
Definition raw_plain (x : XMLItem) : bool :=
  match x with
  | Raw s => negb (occurs "<" s)
  | _ => true
  end.

(** The text [s] is a comment that ends only at its own end: no [>]
    before the one that closes it. *)
Definition comment_text (s : docstring) : Prop :=
  exists body,
    s = "<!--" +:+ body +:+ "-->" +:+ LF /\ occurs ">" body = false.

(** All that is written after [ESCAPE_NONE] is such a comment. *)
Definition raws_are_comments (xs : list XMLItem) : Prop :=
  forall s, In (Raw s) xs -> comment_text s.
(** * Properties *)

(** ** Strings *)

Lemma size_nonneg (s : string) : 0 <= size s.
Proof. unfold size. lia. Qed.

Lemma npos_pos : 0 < npos.
Proof. reflexivity. Qed.

Lemma npos_value : npos = 18446744073709551615.
Proof. reflexivity. Qed.

Lemma wrap_small (z : Z) : 0 <= z < npos -> wrap z = z.
Proof.
  intros H. unfold wrap. apply Z.mod_small.
  unfold npos in H. lia.
Qed.

Lemma sdrop_0 (s : string) : sdrop 0 s = s.
Proof. destruct s; reflexivity. Qed.

Lemma sdrop_empty (n : nat) : sdrop n "" = "".
Proof. destruct n; reflexivity. Qed.

Lemma sdrop_all (n : nat) (s : string) :
  (String.length s <= n)%nat -> sdrop n s = "".
Proof.
  revert n. induction s as [|c s IH]; intros n H.
  - apply sdrop_empty.
  - destruct n; simpl in *; [lia|]. apply IH. lia.
Qed.

Lemma stake_all (n : nat) (s : string) :
  (String.length s <= n)%nat -> stake n s = s.
Proof.
  revert n. induction s as [|c s IH]; intros n H.
  - destruct n; reflexivity.
  - destruct n; simpl in *; [lia|]. f_equal. apply IH. lia.
Qed.

Lemma length_sdrop (n : nat) (s : string) :
  String.length (sdrop n s) = (String.length s - n)%nat.
Proof.
  revert s. induction n as [|n IH]; intros s.
  - rewrite sdrop_0. lia.
  - destruct s; simpl; [reflexivity|]. apply IH.
Qed.

Lemma length_stake (n : nat) (s : string) :
  String.length (stake n s) = Nat.min n (String.length s).
Proof.
  revert s. induction n as [|n IH]; intros s.
  - reflexivity.
  - destruct s; simpl; [reflexivity|]. f_equal. apply IH.
Qed.

Lemma app_nil_l (b : string) : "" +:+ b = b.
Proof. reflexivity. Qed.

Lemma app_cons (c : ascii) (a b : string) :
  String c a +:+ b = String c (a +:+ b).
Proof. reflexivity. Qed.

Lemma length_app (a b : string) :
  String.length (a +:+ b) = (String.length a + String.length b)%nat.
Proof. induction a; rewrite ?app_nil_l, ?app_cons; simpl; congruence. Qed.

Lemma stake_sdrop (n : nat) (s : string) : stake n s +:+ sdrop n s = s.
Proof.
  revert s. induction n as [|n IH]; intros s.
  - rewrite sdrop_0. reflexivity.
  - destruct s; simpl; [reflexivity|]. rewrite app_cons. f_equal. apply IH.
Qed.

Lemma sdrop_sdrop (n m : nat) (s : string) :
  sdrop n (sdrop m s) = sdrop (m + n) s.
Proof.
  revert s. induction m as [|m IH]; intros s.
  - rewrite sdrop_0. reflexivity.
  - destruct s; simpl; [apply sdrop_empty|]. apply IH.
Qed.

Lemma sdrop_app (a b : string) : sdrop (String.length a) (a +:+ b) = b.
Proof.
  induction a; rewrite ?app_nil_l, ?app_cons; simpl; [apply sdrop_0|assumption].
Qed.

Lemma stake_app (a b : string) : stake (String.length a) (a +:+ b) = a.
Proof.
  induction a; rewrite ?app_nil_l, ?app_cons; simpl;
    [destruct b; reflexivity|]. f_equal. assumption.
Qed.

Lemma app_assoc_s (a b c : string) : (a +:+ b) +:+ c = a +:+ (b +:+ c).
Proof. induction a; rewrite ?app_nil_l, ?app_cons; congruence. Qed.

Lemma empty_true (s : string) : empty s = true <-> s = "".
Proof. destruct s; simpl; split; congruence. Qed.

Lemma prefix_app (p s : string) :
  is_prefix p s = true <-> exists r, s = p +:+ r.
Proof.
  revert s. induction p as [|c p IH]; intros s.
  - split; [intros _; exists s; reflexivity|reflexivity].
  - destruct s as [|c' s]; simpl.
    + split; [discriminate|intros [r Hr]; discriminate].
    + destruct (Ascii.eqb_spec c c') as [->|Hne]; simpl.
      * rewrite IH. split; intros [r Hr]; exists r;
          rewrite ?app_cons in *; congruence.
      * split; [discriminate|intros [r Hr]; rewrite app_cons in Hr; congruence].
Qed.

Lemma prefix_sdrop (p s : string) :
  is_prefix p s = true -> s = p +:+ sdrop (String.length p) s.
Proof.
  intros H. apply prefix_app in H as [r ->]. now rewrite sdrop_app.
Qed.

Lemma prefix_length (p s : string) :
  is_prefix p s = true -> (String.length p <= String.length s)%nat.
Proof.
  intros H. apply prefix_app in H as [r ->]. rewrite length_app. lia.
Qed.

(** [find_nat] gives an occurrence, and the first one. *)
Lemma find_nat_Some (p s : string) (i : nat) :
  find_nat p s = Some i ->
  is_prefix p (sdrop i s) = true
  /\ (i + String.length p <= String.length s)%nat
  /\ forall j, (j < i)%nat -> is_prefix p (sdrop j s) = false.
Proof.
  revert i. induction s as [|c s IH]; intros i; simpl.
  - destruct (is_prefix p "") eqn:Hp; [|discriminate].
    intros [= <-]. split; [assumption|]. split; [|lia].
    apply prefix_length in Hp. simpl in *. lia.
  - destruct (is_prefix p (String c s)) eqn:Hp.
    + intros [= <-]. split; [assumption|]. split; [|lia].
      apply prefix_length in Hp. simpl in *. lia.
    + destruct (find_nat p s) as [k|] eqn:Hk; [|discriminate].
      intros [= <-]. destruct (IH k eq_refl) as (H1 & H2 & H3).
      split; [assumption|]. split; [simpl; lia|].
      intros [|j] Hj; [assumption|]. simpl. apply H3. lia.
Qed.

Lemma find_nat_None (p s : string) :
  find_nat p s = None -> forall j, is_prefix p (sdrop j s) = false.
Proof.
  induction s as [|c s IH]; simpl.
  - destruct (is_prefix p "") eqn:Hp; [discriminate|].
    intros _ j. now rewrite sdrop_empty.
  - destruct (is_prefix p (String c s)) eqn:Hp; [discriminate|].
    destruct (find_nat p s) eqn:Hk; [discriminate|].
    intros _ [|j]; [assumption|]. simpl. now apply IH.
Qed.

Lemma find_nat_no_occurrence (p s : string) :
  find_nat p s = None -> forall a b, s <> a +:+ p +:+ b.
Proof.
  intros H a b ->. pose proof (find_nat_None _ _ H (String.length a)) as Hf.
  rewrite sdrop_app in Hf.
  assert (is_prefix p (p +:+ b) = true) by (apply prefix_app; eauto).
  congruence.
Qed.

Lemma find_0 (s pat : string) :
  find s pat 0 = match find_nat pat s with
                 | Some i => Z.of_nat i
                 | None => npos
                 end.
Proof.
  unfold find. pose proof (size_nonneg s).
  destruct (size s <? 0) eqn:E; [apply Z.ltb_lt in E; lia|].
  simpl. rewrite ?sdrop_0. destruct (find_nat pat s); reflexivity.
Qed.

Lemma prefix_occurs (c : ascii) (p s : string) :
  is_prefix p s = true -> occurs c p = true -> occurs c s = true.
Proof.
  revert s. induction p as [|c' p IH]; intros s; simpl; [discriminate|].
  destruct s as [|c2 s]; [discriminate|].
  destruct (Ascii.eqb_spec c' c2) as [->|]; [|discriminate].
  intros Hp Ho. simpl. apply orb_true_iff in Ho as [Ho|Ho].
  - rewrite Ho. reflexivity.
  - rewrite (IH _ Hp Ho). apply orb_true_r.
Qed.

Lemma find_nat_absent (c : ascii) (p s : string) :
  occurs c p = true -> occurs c s = false -> find_nat p s = None.
Proof.
  intros Hp. induction s as [|c' s IH]; simpl; intros Hs.
  - destruct (is_prefix p "") eqn:E; [|reflexivity].
    pose proof (prefix_occurs c _ _ E Hp). discriminate.
  - destruct (is_prefix p (String c' s)) eqn:E.
    + pose proof (prefix_occurs c _ _ E Hp) as H. simpl in H. congruence.
    + apply orb_false_iff in Hs as [_ Hs]. now rewrite IH.
Qed.

Lemma find_absent (c : ascii) (p s : string) :
  occurs c p = true -> occurs c s = false -> find s p 0 = npos.
Proof.
  intros Hp Hs. rewrite find_0, (find_nat_absent c); auto.
Qed.

(** ** The entry parser *)

Lemma parseItem_plain (s : docstring) (for_output : bool) :
  occurs "@" s = false -> occurs "|" s = false ->
  parseItem s for_output = Some s.
Proof.
  intros Ha Hb. unfold parseItem.
  rewrite (find_absent "@"%char) by (auto; reflexivity).
  rewrite Z.eqb_refl. simpl.
  rewrite (find_absent "|"%char) by (auto; reflexivity).
  rewrite Z.eqb_refl. reflexivity.
Qed.

Lemma parseItem_empty (for_output : bool) : parseItem "" for_output = Some "".
Proof. destruct for_output; reflexivity. Qed.

(** C5. An entry without [@], [|] and [!] parses to itself as the main
    field, with empty sub-fields, whether parsed for output or not; the
    empty entry gives three empty fields. *)
Theorem parseEntry_plain (s : docstring) :
  occurs "@" s = false -> occurs "|" s = false -> occurs "!" s = false ->
  parseEntry s true = Some (s, "", "")
  /\ parseEntry s false = Some (s, "", "")
  /\ (forall for_output, parseEntry "" for_output = Some ("", "", "")).
Proof.
  intros Ha Hb Hc.
  assert (He : extractSubentries s ("", "", "") = Some (s, "", "")).
  { unfold extractSubentries. destruct (empty s) eqn:E.
    - apply empty_true in E. now subst.
    - rewrite (find_absent "!"%char) by (auto; reflexivity).
      now rewrite Z.eqb_refl. }
  assert (Hp : forall b, parseEntry s b = Some (s, "", "")).
  { intros b. unfold parseEntry. rewrite He. cbn [bind].
    rewrite (parseItem_plain s b Ha Hb). cbn [bind].
    rewrite parseItem_empty. reflexivity. }
  split; [apply Hp|]. split; [apply Hp|].
  intros b. destruct b; reflexivity.
Qed.

Lemma parseEntry_plain_witness :
  parseEntry "banana" true = Some ("banana", "", "")
  /\ parseEntry "banana" false = Some ("banana", "", "")
  /\ (forall for_output, parseEntry "" for_output = Some ("", "", "")).
Proof. apply (parseEntry_plain "banana"); reflexivity. Defined.

(** ** Splitting an entry *)

Lemma split_first_find (sep s : string) :
  split_first sep s =
  match find_nat sep s with
  | Some i => Some (stake i s, sdrop (i + String.length sep) s)
  | None => None
  end.
Proof.
  induction s as [|c s IH]; simpl.
  - destruct (is_prefix sep ""); reflexivity.
  - destruct (is_prefix sep (String c s)); [reflexivity|].
    rewrite IH. destruct (find_nat sep s); reflexivity.
Qed.

(** [split_first] cuts at an occurrence of the separator, and no
    occurrence starts earlier. *)
Lemma split_first_Some (sep s a b : string) :
  split_first sep s = Some (a, b) ->
  s = a +:+ sep +:+ b
  /\ forall a' b', s = a' +:+ sep +:+ b' ->
                   (String.length a <= String.length a')%nat.
Proof.
  rewrite split_first_find.
  destruct (find_nat sep s) as [i|] eqn:Hf; [|discriminate].
  intros [= <- <-]. destruct (find_nat_Some _ _ _ Hf) as (Hp & Hlen & Hmin).
  split.
  - rewrite <- (stake_sdrop i s) at 1. f_equal.
    rewrite <- sdrop_sdrop. now apply prefix_sdrop.
  - intros a' b' Hs. rewrite length_stake.
    destruct (Nat.lt_ge_cases (String.length a') i) as [Hlt|Hge]; [|lia].
    specialize (Hmin _ Hlt). rewrite Hs, sdrop_app in Hmin.
    assert (is_prefix sep (sep +:+ b') = true) by (apply prefix_app; eauto).
    congruence.
Qed.

Lemma split_first_None (sep s : string) :
  split_first sep s = None <-> forall a b, s <> a +:+ sep +:+ b.
Proof.
  split.
  - rewrite split_first_find.
    destruct (find_nat sep s) eqn:Hf; [discriminate|].
    intros _. now apply find_nat_no_occurrence.
  - intros H. destruct (split_first sep s) as [[a b]|] eqn:E; [|reflexivity].
    apply split_first_Some in E as [E _]. now apply H in E.
Qed.

Lemma substr_prefix (s : string) (i : nat) :
  (i <= String.length s)%nat -> substr s 0 (Z.of_nat i) = Some (stake i s).
Proof.
  intros H. unfold substr, size.
  destruct (Z.of_nat (String.length s) <? 0) eqn:E;
    [apply Z.ltb_lt in E; lia|].
  rewrite Z.sub_0_r, Z.min_l by lia. rewrite Nat2Z.id. reflexivity.
Qed.

Lemma substr_mid (s : string) (n j : nat) :
  (n + j <= String.length s)%nat ->
  substr s (Z.of_nat n) (Z.of_nat j) = Some (stake j (sdrop n s)).
Proof.
  intros H. unfold substr, size.
  destruct (Z.of_nat (String.length s) <? Z.of_nat n) eqn:E;
    [apply Z.ltb_lt in E; lia|].
  rewrite Z.min_l by lia. rewrite !Nat2Z.id. reflexivity.
Qed.

Lemma substr_rest (s : string) (n : nat) (k : Z) :
  (n <= String.length s)%nat -> size s <= k ->
  substr s (Z.of_nat n) k = Some (sdrop n s).
Proof.
  intros H Hk. unfold substr. unfold size in *.
  destruct (Z.of_nat (String.length s) <? Z.of_nat n) eqn:E;
    [apply Z.ltb_lt in E; lia|].
  rewrite Z.min_r by lia. rewrite Nat2Z.id. f_equal.
  apply stake_all. rewrite length_sdrop. lia.
Qed.

Lemma find_from (s pat : string) (n : nat) :
  (n <= String.length s)%nat ->
  find s pat (Z.of_nat n) =
  match find_nat pat (sdrop n s) with
  | Some j => Z.of_nat (n + j)
  | None => npos
  end.
Proof.
  intros H. unfold find, size.
  destruct (Z.of_nat (String.length s) <? Z.of_nat n) eqn:E;
    [apply Z.ltb_lt in E; lia|].
  rewrite Nat2Z.id. destruct (find_nat pat (sdrop n s)); [|reflexivity].
  lia.
Qed.

Lemma extractSubentries_split_entry (entry : docstring) :
  size entry < npos ->
  extractSubentries entry ("", "", "") = Some (split_entry entry).
Proof.
  intros Hsz. unfold extractSubentries, split_entry.
  rewrite !split_first_find.
  destruct (empty entry) eqn:Ee.
  { apply empty_true in Ee. subst. reflexivity. }
  rewrite find_0. unfold size in Hsz.
  destruct (find_nat " ! " entry) as [i|] eqn:Hi;
    [|rewrite Z.eqb_refl; reflexivity].
  destruct (find_nat_Some _ _ _ Hi) as (_ & Hlen & _). simpl in Hlen.
  destruct (Z.of_nat i =? npos) eqn:E; [apply Z.eqb_eq in E; lia|].
  rewrite substr_prefix by lia. cbn [bind].
  rewrite wrap_small by lia.
  replace (Z.of_nat i + 3) with (Z.of_nat (i + 3)) by lia.
  rewrite find_from by lia. rewrite split_first_find.
  change (String.length " ! ") with 3%nat.
  destruct (find_nat " ! " (sdrop (i + 3) entry)) as [j|] eqn:Hj.
  - destruct (find_nat_Some _ _ _ Hj) as (_ & Hlen2 & _).
    rewrite length_sdrop in Hlen2. simpl in Hlen2.
    destruct (Z.of_nat (i + 3 + j) =? npos) eqn:E2;
      [apply Z.eqb_eq in E2; lia|].
    rewrite wrap_small by lia.
    replace (Z.of_nat (i + 3 + j) - Z.of_nat (i + 3)) with (Z.of_nat j)
      by lia.
    rewrite substr_mid by lia. cbn [bind].
    rewrite wrap_small by lia.
    replace (Z.of_nat (i + 3 + j) + 3) with (Z.of_nat (i + 3 + j + 3)) by lia.
    rewrite substr_rest by (unfold size; lia). cbn [bind].
    rewrite sdrop_sdrop.
    replace (i + 3 + (j + 3))%nat with (i + 3 + j + 3)%nat by lia.
    reflexivity.
  - rewrite Z.eqb_refl.
    rewrite substr_rest by (unfold size; lia). reflexivity.
Qed.

Lemma ltrim_front (s : string) : is_space (front0 (ltrim s)) = false.
Proof.
  induction s as [|c s IH]; simpl; [reflexivity|].
  destruct (is_space c) eqn:E; [assumption|]. simpl. assumption.
Qed.

Lemma rtrim_front (s : string) :
  is_space (front0 s) = false -> is_space (front0 (rtrim s)) = false.
Proof.
  destruct s as [|c s]; simpl; [reflexivity|].
  intros H. rewrite H. simpl. assumption.
Qed.

Lemma rtrim_end (s : string) : ends_with_space (rtrim s) = false.
Proof.
  induction s as [|c s IH]; simpl; [reflexivity|].
  destruct (is_space c && empty (rtrim s)) eqn:E; [reflexivity|].
  destruct (rtrim s) as [|c' r] eqn:Er.
  - simpl in *. now rewrite andb_true_r in E.
  - exact IH.
Qed.

Lemma trim_trimmed (s : string) : trimmed (trim s) = true.
Proof.
  unfold trimmed, trim.
  rewrite rtrim_front by apply ltrim_front. now rewrite rtrim_end.
Qed.

(** C6, as amended.  With three fresh strings, [extractSubentries] yields
    the specification's split: at most two cuts, each at the first
    occurrence of the three characters [" ! "]; when the delimiter is
    absent only [main] is set, to the entry as it is; when it is present
    every field is trimmed of the blanks around it. *)
Theorem extractSubentries_split (entry : docstring) :
  size entry < npos ->
  extractSubentries entry ("", "", "") = Some (split_entry entry)
  /\ ((forall a b, entry <> a +:+ " ! " +:+ b) ->
      split_entry entry = (entry, "", ""))
  /\ ((exists a b, entry = a +:+ " ! " +:+ b) ->
      let '(m, s, ss) := split_entry entry in
      trimmed m = true /\ trimmed s = true /\ trimmed ss = true).
Proof.
  intros Hsz. split; [now apply extractSubentries_split_entry|]. split.
  - intros H. apply split_first_None in H. unfold split_entry. now rewrite H.
  - intros (a & b & H). unfold split_entry.
    destruct (split_first " ! " entry) as [[a' r]|] eqn:E.
    + destruct (split_first " ! " r) as [[b' c]|];
        repeat split; auto using trim_trimmed.
    + rewrite split_first_None in E. now apply E in H.
Qed.

Lemma extractSubentries_split_witness :
  extractSubentries "a  !  b ! c ! d" ("", "", "")
  = Some (split_entry "a  !  b ! c ! d")
  /\ ((forall a b, "a  !  b ! c ! d" <> a +:+ " ! " +:+ b) ->
      split_entry "a  !  b ! c ! d" = ("a  !  b ! c ! d", "", ""))
  /\ ((exists a b, "a  !  b ! c ! d" = a +:+ " ! " +:+ b) ->
      let '(m, s, ss) := split_entry "a  !  b ! c ! d" in
      trimmed m = true /\ trimmed s = true /\ trimmed ss = true).
Proof. apply (extractSubentries_split "a  !  b ! c ! d"). reflexivity. Defined.

(** C6, as stated, fails: without the delimiter the main field is the
    entry as it is, blanks included. *)
Lemma extractSubentries_untrimmed_main :
  extractSubentries " a" ("", "", "") = Some (" a", "", "")
  /\ trimmed " a" = false.
Proof. split; reflexivity. Qed.

Example split_entry_example :
  split_entry "a  !  b ! c ! d" = ("a", "b", "c ! d").
Proof. reflexivity. Qed.

(** ** The erase loops *)

(** What [find] returns: [npos], or the index of an occurrence at or after
    the starting position. *)
Lemma find_result (s pat : string) (pos : Z) :
  0 <= pos ->
  find s pat pos = npos
  \/ exists i, find s pat pos = Z.of_nat i
               /\ pos <= Z.of_nat i
               /\ is_prefix pat (sdrop i s) = true
               /\ (i + String.length pat <= String.length s)%nat.
Proof.
  intros Hpos. unfold find, size.
  destruct (Z.of_nat (String.length s) <? pos) eqn:E; [now left|].
  apply Z.ltb_ge in E.
  destruct (find_nat pat (sdrop (Z.to_nat pos) s)) as [j|] eqn:Hj;
    [|now left].
  right. exists (Z.to_nat pos + j)%nat.
  destruct (find_nat_Some _ _ _ Hj) as (Hp & Hlen & _).
  rewrite sdrop_sdrop in Hp. rewrite length_sdrop in Hlen.
  repeat split; try assumption; lia.
Qed.

Lemma prefix_split (pat s : string) (i : nat) :
  is_prefix pat (sdrop i s) = true ->
  (i + String.length pat <= String.length s)%nat ->
  s = stake i s +:+ pat +:+ sdrop (i + String.length pat) s
  /\ String.length (stake i s) = i.
Proof.
  intros Hp Hlen. split.
  - rewrite <- (stake_sdrop i s) at 1. f_equal.
    rewrite <- sdrop_sdrop. now apply prefix_sdrop.
  - rewrite length_stake. lia.
Qed.

Lemma sdrop_app_ge (a b : string) (n : nat) :
  sdrop (String.length a + n) (a +:+ b) = sdrop n b.
Proof. now rewrite <- sdrop_sdrop, sdrop_app. Qed.

(** Erasing the first character of an occurrence of [pat]. *)
Lemma erase_at (a pat b : string) :
  (1 <= String.length pat)%nat ->
  erase (a +:+ pat +:+ b) (Z.of_nat (String.length a)) 1
  = Some (a +:+ sdrop 1 pat +:+ b).
Proof.
  intros Hpat. unfold erase, size. rewrite !length_app.
  destruct (_ <? _) eqn:E; [apply Z.ltb_lt in E; lia|].
  rewrite Z.min_l by lia.
  replace (Z.to_nat (Z.of_nat (String.length a) + 1))
    with (String.length a + 1)%nat by lia.
  rewrite Nat2Z.id, stake_app, sdrop_app_ge.
  destruct pat as [|c pat]; [simpl in Hpat; lia|].
  rewrite app_cons. simpl. now rewrite ?sdrop_0.
Qed.

(** One round of an erase loop either stops or erases the first character
    of an occurrence of the pattern. *)
Lemma erase_round (pat c : string) (index : Z) :
  0 <= index -> (1 <= String.length pat)%nat ->
  let index' := find c pat index in
  (index' =? npos) = true
  \/ exists a b, c = a +:+ pat +:+ b
                 /\ index' = Z.of_nat (String.length a)
                 /\ (index' =? npos) = false
                 /\ erase c index' 1 = Some (a +:+ sdrop 1 pat +:+ b).
Proof.
  intros Hidx Hpat. cbv zeta.
  destruct (find c pat index =? npos) eqn:E; [now left|]. right.
  destruct (find_result c pat index Hidx) as [Hn|(i & Hi & _ & Hp & Hlen)].
  { rewrite Hn, Z.eqb_refl in E. discriminate. }
  destruct (prefix_split _ _ _ Hp Hlen) as [Hc Hl].
  remember (stake i c) as a eqn:Ha.
  remember (sdrop (i + String.length pat) c) as b eqn:Hb.
  exists a, b. rewrite Hi, <- Hl.
  split; [assumption|]. split; [reflexivity|]. split; [reflexivity|].
  rewrite Hc. now apply erase_at.
Qed.

(** An erase loop ends, and what holds exactly when it holds after erasing
    the first character of an occurrence is not changed by the loop. *)
Lemma erase_each_spec (P : string -> Prop) (pat : string) :
  (1 <= String.length pat)%nat ->
  (forall a b, P (a +:+ pat +:+ b) <-> P (a +:+ sdrop 1 pat +:+ b)) ->
  forall fuel c index,
    0 <= index -> (String.length c < fuel)%nat ->
    exists r, erase_each fuel pat c index = Some r
              /\ (String.length r <= String.length c)%nat
              /\ (P c <-> P r).
Proof.
  intros Hpat HP. induction fuel as [|fuel IH]; intros c index Hidx Hfuel.
  { lia. }
  simpl. destruct (erase_round pat c index Hidx Hpat)
    as [E|(a & b & Hc & Hi & E & He)]; rewrite E.
  - exists c. split; [reflexivity|]. split; [lia|reflexivity].
  - rewrite He. cbn [bind].
    assert (Hl : String.length c
                 = S (String.length (a +:+ sdrop 1 pat +:+ b))).
    { rewrite Hc, !length_app, length_sdrop. lia. }
    destruct (IH (a +:+ sdrop 1 pat +:+ b) (find c pat index))
      as (r & Hr & Hlen & HPr); [rewrite Hi; lia|lia|].
    exists r. split; [assumption|]. split; [lia|].
    rewrite <- HPr, Hc. apply HP.
Qed.

Lemma erase_all_spec (P : string -> Prop) (pat c : string) :
  (1 <= String.length pat)%nat ->
  (forall a b, P (a +:+ pat +:+ b) <-> P (a +:+ sdrop 1 pat +:+ b)) ->
  exists r, erase_all pat c = Some r
            /\ (String.length r <= String.length c)%nat
            /\ (P c <-> P r).
Proof.
  intros Hpat HP. unfold erase_all.
  apply erase_each_spec; auto; lia.
Qed.

Lemma erase_all_total (pat c : string) :
  (1 <= String.length pat)%nat ->
  exists r, erase_all pat c = Some r
            /\ (String.length r <= String.length c)%nat.
Proof.
  intros Hpat.
  destruct (erase_all_spec (fun _ => True) pat c Hpat) as (r & Hr & Hl & _);
    [reflexivity|eauto].
Qed.

(** ** Positions after wrap-around *)

Lemma substr_total (s : string) (pos n : Z) :
  pos <= size s -> exists r, substr s pos n = Some r.
Proof.
  intros H. unfold substr.
  destruct (size s <? pos) eqn:E; [apply Z.ltb_lt in E; lia|eauto].
Qed.

Lemma erase_total (s : string) (pos n : Z) :
  pos <= size s -> exists r, erase s pos n = Some r.
Proof.
  intros H. unfold erase.
  destruct (size s <? pos) eqn:E; [apply Z.ltb_lt in E; lia|eauto].
Qed.

(** The position after the one [find] returned never lies beyond the end,
    also when [find] returned [npos] and the sum wraps to zero. *)
Lemma next_position_in_range (s pat : string) (pos : Z) :
  0 <= pos -> (1 <= String.length pat)%nat ->
  0 <= wrap (find s pat pos + 1) <= size s.
Proof.
  intros Hpos Hpat. pose proof (size_nonneg s) as Hs.
  destruct (find_result s pat pos Hpos) as [Hn|(i & Hi & _ & _ & Hlen)].
  - rewrite Hn. change (wrap (npos + 1)) with 0. lia.
  - rewrite Hi. unfold wrap, size in *.
    assert (0 < size_max) by reflexivity.
    pose proof (Z.mod_pos_bound (Z.of_nat i + 1) size_max ltac:(lia)).
    pose proof (Z.mod_le (Z.of_nat i + 1) size_max ltac:(lia) ltac:(lia)).
    lia.
Qed.

(** ** [see] and [seealso] *)

Lemma substr_0 (s : string) (n : nat) :
  substr s 0 (Z.of_nat n) = Some (stake n s).
Proof.
  unfold substr. pose proof (size_nonneg s) as Hs.
  destruct (size s <? 0) eqn:E; [apply Z.ltb_lt in E; lia|].
  simpl sdrop. f_equal. unfold size in *. rewrite Z.sub_0_r.
  destruct (Nat.le_ge_cases n (String.length s)).
  - rewrite Z.min_l by lia. now rewrite Nat2Z.id.
  - rewrite Z.min_r by lia. rewrite Nat2Z.id.
    now rewrite !stake_all by lia.
Qed.

Lemma substr_0Z (s : string) (n : Z) :
  0 <= n -> substr s 0 n = Some (stake (Z.to_nat n) s).
Proof. intros H. rewrite <- (Z2Nat.id n) at 1 by lia. apply substr_0. Qed.

Lemma stake_eqb_prefix (p s : string) :
  String.eqb (stake (String.length p) s) p = is_prefix p s.
Proof.
  revert s. induction p as [|c p IH]; intros s; simpl; [reflexivity|].
  destruct s as [|c' s]; simpl; [reflexivity|].
  rewrite IH, (Ascii.eqb_sym c' c).
  destruct (Ascii.eqb c c'); reflexivity.
Qed.

Lemma substr_length (s r : string) (pos n : Z) :
  substr s pos n = Some r -> (String.length r <= String.length s)%nat.
Proof.
  unfold substr. destruct (size s <? pos); [discriminate|].
  intros [= <-]. rewrite length_stake, length_sdrop. lia.
Qed.

(** An escape character in front of a brace does not matter for a prefix
    that holds neither. *)
Lemma prefix_escape (p a b : string) (c x : ascii) :
  occurs c p = false -> occurs x p = false ->
  is_prefix p (a +:+ String c (String x b)) = is_prefix p (a +:+ String x b).
Proof.
  revert p. induction a as [|y a IH]; intros p Hc Hx.
  - rewrite !app_nil_l. destruct p as [|q p]; [reflexivity|]. simpl in *.
    apply orb_false_iff in Hc as [Hc _]. apply orb_false_iff in Hx as [Hx _].
    rewrite (Ascii.eqb_sym q c), Hc, (Ascii.eqb_sym q x), Hx. reflexivity.
  - rewrite !app_cons. destruct p as [|q p]; [reflexivity|]. simpl in *.
    apply orb_false_iff in Hc as [_ Hc]. apply orb_false_iff in Hx as [_ Hx].
    now rewrite IH.
Qed.

Lemma erase_all_absent (c : ascii) (pat s : string) :
  occurs c pat = true -> occurs c s = false -> erase_all pat s = Some s.
Proof.
  intros Hp Hs. unfold erase_all. simpl.
  now rewrite (find_absent c), Z.eqb_refl.
Qed.

Lemma find_nat_char (c : ascii) (s : string) :
  match find_nat (String c "") s with
  | Some i => (i < String.length s)%nat /\ occurs c s = true
  | None => occurs c s = false
  end.
Proof.
  induction s as [|c' s IH]; simpl; [reflexivity|].
  destruct (Ascii.eqb c c') eqn:E; simpl; [split; [lia|reflexivity]|].
  destruct (find_nat (String c "") s); simpl; [|assumption].
  destruct IH. split; [lia|assumption].
Qed.

Lemma find_char (c : ascii) (s : string) :
  size s < npos ->
  (find s (String c "") 0 =? npos) = negb (occurs c s).
Proof.
  intros Hs. rewrite find_0. pose proof (find_nat_char c s) as H.
  destruct (find_nat (String c "") s) as [i|].
  - destruct H as [Hi ->]. unfold size in Hs. simpl. apply Z.eqb_neq. lia.
  - rewrite H. apply Z.eqb_refl.
Qed.

(** The first occurrence of a character that [a] does not hold. *)
Lemma find_nat_first (c : ascii) (a b : string) :
  occurs c a = false ->
  find_nat (String c "") (a +:+ String c "" +:+ b) = Some (String.length a).
Proof.
  rewrite app_cons, app_nil_l.
  induction a as [|y a IH]; intros H.
  - rewrite app_nil_l. simpl. now rewrite Ascii.eqb_refl.
  - rewrite app_cons. simpl in *. apply orb_false_iff in H as [Hy Ha].
    rewrite Hy. simpl. now rewrite IH.
Qed.

Lemma occurs_app (c : ascii) (a b : string) :
  occurs c (a +:+ b) = occurs c a || occurs c b.
Proof.
  induction a as [|y a IH]; rewrite ?app_nil_l, ?app_cons; simpl;
    [reflexivity|]. now rewrite IH, orb_assoc.
Qed.

Lemma handle_see_see (latexString command : docstring) :
  size command < npos ->
  is_prefix "see" command = true ->
  exists lst rest,
    handle_see latexString command
    = Some (see_result latexString command lst rest)
    /\ forall name body tail,
        command = name +:+ "{" +:+ body +:+ "}" +:+ tail ->
        occurs "{" name = false -> occurs "}" name = false ->
        occurs "}" body = false -> occurs "\" command = false ->
        lst = body /\ rest = tail.
Proof.
  intros Hsz Hsee. unfold handle_see.
  rewrite (substr_0Z command 3) by lia. cbn [bind].
  change (Z.to_nat 3) with (String.length "see").
  rewrite stake_eqb_prefix, Hsee.
  destruct (erase_all_spec (fun s => is_prefix "seealso" s = true) (BS +:+ "{") command)
    as (c1 & Hc1 & Hl1 & HP1); [simpl; lia| |].
  { intros a b. unfold BS. rewrite !app_cons, !app_nil_l. simpl sdrop.
    now rewrite app_cons, app_nil_l, (prefix_escape "seealso"). }
  destruct (erase_all_spec (fun s => is_prefix "seealso" s = true) (BS +:+ "}") c1)
    as (c2 & Hc2 & Hl2 & HP2); [simpl; lia| |].
  { intros a b. unfold BS. rewrite !app_cons, !app_nil_l. simpl sdrop.
    now rewrite app_cons, app_nil_l, (prefix_escape "seealso"). }
  rewrite Hc1. cbn [bind]. rewrite Hc2. cbn [bind].
  pose proof (next_position_in_range c2 "{" 0 ltac:(lia) ltac:(simpl; lia))
    as Ho.
  pose proof (next_position_in_range c2 "}" 0 ltac:(lia) ltac:(simpl; lia))
    as Hcl.
  destruct (substr_total c2 (wrap (find c2 "{" 0 + 1))
              (wrap (find c2 "}" 0 - find c2 "{" 0 - 1)) ltac:(lia))
    as [lst Hlist].
  destruct (substr_total c2 (wrap (find c2 "}" 0 + 1)) npos ltac:(lia))
    as [rest Hrest].
  rewrite Hlist. cbn [bind]. rewrite (substr_0Z c2 7) by lia. cbn [bind].
  change (Z.to_nat 7) with (String.length "seealso").
  rewrite stake_eqb_prefix, Hrest.
  assert (Hll : size lst < npos).
  { apply substr_length in Hlist. unfold size in *. lia. }
  exists lst, rest. split.
  - unfold see_result.
    assert (Hpre : is_prefix "seealso" c2 = is_prefix "seealso" command).
    { destruct (is_prefix "seealso" command), (is_prefix "seealso" c2);
        try reflexivity; intuition congruence. }
    rewrite Hpre. destruct (is_prefix "seealso" command); [reflexivity|].
    cbn [bind]. rewrite find_char, negb_involutive by assumption.
    reflexivity.
  - intros name body tail Hcmd Hn1 Hn2 Hb Hbs.
    assert (c1 = command) as ->.
    { rewrite (erase_all_absent "\"%char) in Hc1 by (auto; reflexivity).
      congruence. }
    assert (c2 = command) as ->.
    { rewrite (erase_all_absent "\"%char) in Hc2 by (auto; reflexivity).
      congruence. }
    assert (Hfo : find command "{" 0 = Z.of_nat (String.length name)).
    { rewrite find_0, Hcmd, (find_nat_first "{"%char name); auto. }
    assert (Hfc : find command "}" 0
                  = Z.of_nat (String.length (name +:+ "{" +:+ body))).
    { rewrite find_0, Hcmd.
      replace (name +:+ "{" +:+ body +:+ "}" +:+ tail)
        with ((name +:+ "{" +:+ body) +:+ "}" +:+ tail)
        by (now rewrite !app_assoc_s).
      rewrite (find_nat_first "}"%char); [reflexivity|].
      rewrite !occurs_app, Hn2, Hb. reflexivity. }
    assert (Hlen : String.length command
                   = (String.length name + 1 + String.length body + 1
                      + String.length tail)%nat).
    { rewrite Hcmd, !length_app. simpl. lia. }
    rewrite Hfo, Hfc in Hlist. rewrite Hfc in Hrest.
    rewrite !length_app in Hlist, Hrest.
    simpl String.length in Hlist, Hrest. unfold size in Hsz.
    rewrite wrap_small in Hlist by lia.
    rewrite wrap_small in Hlist by lia.
    rewrite wrap_small in Hrest by lia.
    replace (Z.of_nat (String.length name) + 1)
      with (Z.of_nat (String.length (name +:+ "{"))) in Hlist
      by (rewrite length_app; simpl; lia).
    replace (Z.of_nat (String.length name + (1 + String.length body))
             - Z.of_nat (String.length name) - 1)
      with (Z.of_nat (String.length body)) in Hlist by lia.
    replace (Z.of_nat (String.length name + (1 + String.length body)) + 1)
      with (Z.of_nat (String.length (name +:+ "{" +:+ body +:+ "}")))
      in Hrest by (rewrite !length_app; simpl; lia).
    rewrite substr_mid in Hlist by (rewrite length_app; simpl; lia).
    rewrite substr_rest in Hrest
      by (rewrite ?length_app; unfold size; simpl; lia).
    split.
    + injection Hlist as <-. rewrite Hcmd.
      replace (name +:+ "{" +:+ body +:+ "}" +:+ tail)
        with ((name +:+ "{") +:+ body +:+ "}" +:+ tail)
        by (now rewrite !app_assoc_s).
      now rewrite sdrop_app, stake_app.
    + injection Hrest as <-. rewrite Hcmd.
      replace (name +:+ "{" +:+ body +:+ "}" +:+ tail)
        with ((name +:+ "{" +:+ body +:+ "}") +:+ tail)
        by (now rewrite !app_assoc_s).
      now rewrite sdrop_app.
Qed.

(** ** [InsetIndex::docbook] always returns *)

Lemma is_output_error_output_error (e : docstring) :
  is_output_error (output_error e) = true.
Proof. unfold is_output_error, output_error. apply prefix_app. eauto. Qed.

Lemma handle_see_total (latexString command : docstring) :
  exists see seeAlsoes xs rest,
    handle_see latexString command = Some (see, seeAlsoes, xs, rest)
    /\ forallb is_output_error xs = true.
Proof.
  unfold handle_see. rewrite (substr_0Z command 3) by lia. cbn [bind].
  destruct (String.eqb _ "see"); [|repeat eexists; reflexivity].
  destruct (erase_all_total (BS +:+ "{") command) as (c1 & -> & _);
    [simpl; lia|].
  cbn [bind].
  destruct (erase_all_total (BS +:+ "}") c1) as (c2 & -> & _);
    [simpl; lia|].
  cbn [bind].
  pose proof (next_position_in_range c2 "{" 0 ltac:(lia) ltac:(simpl; lia)).
  pose proof (next_position_in_range c2 "}" 0 ltac:(lia) ltac:(simpl; lia)).
  destruct (substr_total c2 (wrap (find c2 "{" 0 + 1))
              (wrap (find c2 "}" 0 - find c2 "{" 0 - 1)) ltac:(lia))
    as [lst ->].
  cbn [bind].
  destruct (substr_total c2 (wrap (find c2 "}" 0 + 1)) npos ltac:(lia))
    as [rest ->].
  cbn [bind]. rewrite (substr_0Z c2 7) by lia. cbn [bind].
  destruct (String.eqb _ "seealso"); [repeat eexists; reflexivity|].
  destruct (negb (find lst "," 0 =? npos)); repeat eexists; reflexivity.
Qed.

Lemma strip_ranges_total (hasStartRange hasEndRange : bool)
    (command : docstring) :
  exists r, strip_ranges hasStartRange hasEndRange command = Some r.
Proof.
  unfold strip_ranges. destruct (hasStartRange || hasEndRange); [|eauto].
  destruct (erase_all_total "|(" command) as (c1 & -> & _); [simpl; lia|].
  cbn [bind].
  destruct (erase_all_total "|)" c1) as (c2 & -> & _); [simpl; lia|].
  cbn [bind]. destruct (_ || _); [|eauto].
  apply erase_total. apply size_nonneg.
Qed.

(** The two ways [docbook] ends: the "no index term" diagnostic, or the
    element with the attributes [range_attrs] gives; before either, only
    diagnostics. *)
Lemma docbook_cases (cleanID : docstring -> docstring) (use_indices : bool)
    (index : docstring) (st : RangeState) (latex : docstring) :
  exists diags indexTerms sortAs terms see seeAlsoes,
    forallb is_output_error diags = true
    /\ docbook cleanID use_indices index st latex
       = Some
           (if Nat.eqb (List.length terms) 0 && negb (hasEndRange latex)
            then (diags
                    ++ [output_error
                          ("No index term found! Complete entry: " +:+ dq
                             +:+ trim latex +:+ dq)], st)
            else
              let '(attrs, st') :=
                range_attrs cleanID
                  (if use_indices then " type=" +:+ dq +:+ index +:+ dq
                   else "")
                  indexTerms (hasStartRange latex) (hasEndRange latex) st in
              (diags ++ write_indexterm attrs sortAs terms
                          (hasEndRange latex) see seeAlsoes, st')).
Proof.
  unfold docbook, hasEndRange, hasStartRange.
  set (latexString := trim latex).
  destruct (substr_total latexString 0 (find latexString "|" 0)
              (size_nonneg _)) as [indexTerms0 ->].
  cbn [bind].
  assert (Hc0 : exists command0,
             (if negb (find latexString "|" 0 =? npos)
              then substr latexString (wrap (find latexString "|" 0 + 1)) npos
              else Some "") = Some command0).
  { destruct (negb _); [|eauto]. apply substr_total.
    apply next_position_in_range; simpl; lia. }
  destruct Hc0 as [command0 ->]. cbn [bind].
  match goal with
  | |- context [let '(_, _) := ?e in _] =>
      destruct e as [sortAs indexTerms]
  end.
  destruct (strip_ranges_total (negb (find latexString "|(" 0 =? npos))
              (negb (find latexString "|)" 0 =? npos)) command0)
    as [command1 ->].
  cbn [bind].
  destruct (handle_see_total latexString command1)
    as (see & seeAlsoes & xs1 & command & -> & Hxs1).
  cbn [bind].
  match goal with
  | |- context [?a ++ xs1 ++ ?b ++ _] =>
      exists (a ++ xs1 ++ b)
  end.
  exists indexTerms, sortAs, (getVectorFromString indexTerms "!" false),
    see, seeAlsoes.
  split.
  - rewrite !forallb_app, Hxs1.
    destruct (negb (find latexString _ 0 =? npos)), (negb (empty command));
      simpl; now rewrite ?is_output_error_output_error.
  - destruct (_ && _).
    + now rewrite <- !app_assoc.
    + destruct (range_attrs _ _ _ _ _ _). now rewrite <- !app_assoc.
Qed.

Lemma docbook_total (cleanID : docstring -> docstring) (use_indices : bool)
    (index : docstring) (st : RangeState) (latex : docstring) :
  exists out st', docbook cleanID use_indices index st latex = Some (out, st').
Proof.
  destruct (docbook_cases cleanID use_indices index st latex)
    as (diags & indexTerms & sortAs & terms & see & seeAlsoes & _ & ->).
  destruct (_ && _); [eauto|].
  destruct (range_attrs _ _ _ _ _ _). eauto.
Qed.

Example docbook_seealso_example (cleanID : docstring -> docstring)
    (st : RangeState) :
  docbook cleanID false "idx" st "a|seealso{x, y,z}"
  = Some ([StartTag "indexterm" "";
           StartTag "primary" ""; Text "a"; EndTag "primary";
           StartTag "seealso" ""; Text "x"; EndTag "seealso";
           StartTag "seealso" ""; Text "y"; EndTag "seealso";
           StartTag "seealso" ""; Text "z"; EndTag "seealso";
           EndTag "indexterm"], st).
Proof. reflexivity. Qed.

Example docbook_see_comma_example (cleanID : docstring -> docstring)
    (st : RangeState) :
  docbook cleanID false "idx" st "a|see{x,y}"
  = Some ([output_error (several_see_error "a|see{x,y}");
           StartTag "indexterm" "";
           StartTag "primary" ""; Text "a"; EndTag "primary";
           StartTag "see" ""; Text "x,y"; EndTag "see";
           EndTag "indexterm"], st).
Proof. reflexivity. Qed.

(** ** End of range *)

Lemma length_ltrim (s : string) :
  (String.length (ltrim s) <= String.length s)%nat.
Proof.
  induction s as [|c s IH]; simpl; [lia|].
  destruct (is_space c); simpl; lia.
Qed.

Lemma length_rtrim (s : string) :
  (String.length (rtrim s) <= String.length s)%nat.
Proof.
  induction s as [|c s IH]; simpl; [lia|].
  destruct (is_space c && empty (rtrim s)); simpl; lia.
Qed.

Lemma size_trim (s : string) : size (trim s) <= size s.
Proof.
  unfold size, trim. pose proof (length_rtrim (ltrim s)).
  pose proof (length_ltrim s). lia.
Qed.

(** [find] misses exactly the strings that do not hold the pattern. *)
Lemma find_npos (s pat : string) :
  size s < npos ->
  (find s pat 0 =? npos) = true <-> forall a b, s <> a +:+ pat +:+ b.
Proof.
  intros Hs. rewrite find_0.
  destruct (find_nat pat s) as [i|] eqn:Hf.
  - destruct (find_nat_Some _ _ _ Hf) as (Hp & Hlen & _).
    destruct (prefix_split _ _ _ Hp Hlen) as [Hsplit _].
    split.
    + intros H. apply Z.eqb_eq in H. unfold size in Hs. lia.
    + intros H. now apply H in Hsplit.
  - rewrite Z.eqb_refl. split; [|reflexivity].
    intros _. now apply find_nat_no_occurrence.
Qed.

(** C10, as amended.  An entry that holds the end-of-range marker and not
    the start-of-range marker is written as one self-closing [indexterm]
    element whose attributes are the class [endofrange] and the reference
    [startref], with no child element, whatever text comes before the
    marker; only diagnostics may come before the element. *)
Theorem docbook_endofrange (cleanID : docstring -> docstring)
    (use_indices : bool) (index : docstring) (st : RangeState)
    (latex : docstring) :
  size latex < npos ->
  (exists a b, trim latex = a +:+ "|)" +:+ b) ->
  (forall a b, trim latex <> a +:+ "|(" +:+ b) ->
  exists diags id st',
    docbook cleanID use_indices index st latex
    = Some (diags ++ [CompTag "indexterm" (endofrange_attrs id)], st')
    /\ forallb is_output_error diags = true.
Proof.
  intros Hsz (a & b & Hend) Hstart.
  pose proof (size_trim latex) as Htrim.
  assert (He : hasEndRange latex = true).
  { unfold hasEndRange.
    destruct (find (trim latex) "|)" 0 =? npos) eqn:E; [|reflexivity].
    assert (Hlt : size (trim latex) < npos) by lia.
    exfalso. exact (proj1 (find_npos _ _ Hlt) E _ _ Hend). }
  assert (Hs : hasStartRange latex = false).
  { assert (Hlt : size (trim latex) < npos) by lia.
    unfold hasStartRange. apply negb_false_iff.
    now apply (proj2 (find_npos _ _ Hlt)). }
  destruct (docbook_cases cleanID use_indices index st latex)
    as (diags & indexTerms & sortAs & terms & see & seeAlsoes & Hd & ->).
  rewrite He, Hs, andb_false_r. unfold range_attrs, write_indexterm.
  cbn [negb andb]. fold (endofrange_attrs
    (cleanID (if bool_decide (indexTerms ∈ knownTermLists st)
              then indexTerms +:+ "-" +:+ to_string (ID st)
              else indexTerms))).
  eauto.
Qed.

Lemma docbook_endofrange_witness :
  exists diags id st',
    docbook (fun s => s) false "idx" initialRangeState "Term!sub|)"
    = Some (diags ++ [CompTag "indexterm" (endofrange_attrs id)], st')
    /\ forallb is_output_error diags = true.
Proof.
  apply (docbook_endofrange (fun s => s) false "idx" initialRangeState
           "Term!sub|)").
  - reflexivity.
  - exists "Term!sub", "". reflexivity.
  - exact (proj1 (find_npos (trim "Term!sub|)") "|(" eq_refl) eq_refl).
Defined.

(** C10, as stated, fails: an entry that holds both markers is written as
    a self-closing element with the class [startofrange] and an [xml:id]. *)
Lemma docbook_both_markers :
  option_map fst
    (docbook (fun s => s) false "idx" initialRangeState "Term|(|)")
  = Some [output_error
            ("Unsupported feature: an index entry contains a | with an "
               +:+ "unsupported command, ). Complete entry: "
               +:+ dq +:+ "Term|(|)" +:+ dq);
          CompTag "indexterm" (startofrange_attrs "" "Term")]
  /\ ~ exists diags id st',
        docbook (fun s => s) false "idx" initialRangeState "Term|(|)"
        = Some (diags ++ [CompTag "indexterm" (endofrange_attrs id)], st').
Proof.
  assert (E : option_map fst
                (docbook (fun s => s) false "idx" initialRangeState
                   "Term|(|)")
              = Some [output_error
                        ("Unsupported feature: an index entry contains a | "
                           +:+ "with an unsupported command, ). "
                           +:+ "Complete entry: " +:+ dq +:+ "Term|(|)" +:+ dq);
                      CompTag "indexterm" (startofrange_attrs "" "Term")])
    by reflexivity.
  split; [exact E|].
  intros (diags & id & st' & H). rewrite H in E. simpl in E.
  injection E as E.
  change [?x; ?y] with ([x] ++ [y]) in E.
  apply app_inj_tail in E as [_ E]. vm_compute in E. discriminate.
Qed.

(** ** The sort key *)

(** C2, as amended.  For ["Smith@John Smith|see{Jones}"] the primary term
    is "John Smith" and carries the sort key as the attribute
    [sortas='Smith']; there is one [see] child, "Jones", and no
    diagnostic. *)
Theorem docbook_sort_key (cleanID : docstring -> docstring)
    (use_indices : bool) (index : docstring) (st : RangeState) :
  docbook cleanID use_indices index st "Smith@John Smith|see{Jones}"
  = Some ([StartTag "indexterm" (indexType_attr use_indices index);
           StartTag "primary" "sortas='Smith'"; Text "John Smith";
           EndTag "primary";
           StartTag "see" ""; Text "Jones"; EndTag "see";
           EndTag "indexterm"], st).
Proof. destruct use_indices; reflexivity. Qed.

(** C2, as stated, fails: the primary element is not without its sort
    attribute. *)
Lemma docbook_sort_key_present :
  exists out st',
    docbook (fun s => s) false "idx" initialRangeState
      "Smith@John Smith|see{Jones}" = Some (out, st')
    /\ In (StartTag "primary" "sortas='Smith'") out
    /\ ~ In (StartTag "primary" "") out.
Proof.
  eexists _, _. split; [reflexivity|]. split.
  - simpl. tauto.
  - simpl. intuition discriminate.
Qed.

(** ** Range identifiers *)

Lemma suffix_differs (t s : string) : t <> t +:+ "-" +:+ s.
Proof.
  intros H. apply (f_equal String.length) in H.
  rewrite !length_app in H. simpl in H. lia.
Qed.

(** The counter moves only at an end of range whose term list is known,
    and a suffix is appended only to a known term list. *)
Lemma range_attrs_counter (cleanID : docstring -> docstring)
    (indexType indexTerms : docstring) (hasStart hasEnd : bool)
    (st : RangeState) :
  let st' := snd (range_attrs cleanID indexType indexTerms hasStart hasEnd st) in
  (ID st' = ID st \/ ID st' = ID st + 1)
  /\ (ID st' <> ID st -> hasEnd = true /\ indexTerms ∈ knownTermLists st)
  /\ (indexTerms ∈ knownTermLists st' ->
      indexTerms ∈ knownTermLists st \/ hasEnd = true).
Proof.
  unfold range_attrs.
  destruct hasStart, hasEnd; cbn [negb andb snd ID knownTermLists];
    destruct (bool_decide_reflect (indexTerms ∈ knownTermLists st));
    cbn [negb andb snd ID knownTermLists]; repeat split; auto; try lia;
    intros; try contradiction; auto.
Qed.

(** C1.  Two ranges over the term list [A] with a range over another
    known term list inside the second: the counter is shared by all term
    lists and moves at the end of the inner range, so the second range
    over [A] starts with the identifier of [A-0] and its end refers to
    [A-1], an identifier that no start carries.  The first range over
    each term list carries the identifier of the term list itself. *)
Theorem range_identifiers_nested (cleanID : docstring -> docstring)
    (use_indices : bool) (index : docstring) :
  let indexType := indexType_attr use_indices index in
  let range_start id t :=
    [StartTag "indexterm" (startofrange_attrs indexType (cleanID id));
     StartTag "primary" ""; Text t; EndTag "primary"; EndTag "indexterm"] in
  let range_end id :=
    [CompTag "indexterm" (endofrange_attrs (cleanID id))] in
  option_map fst
    (docbook_run cleanID use_indices index initialRangeState
       ["A|("; "A|)"; "B|("; "B|)"; "A|("; "B|("; "B|)"; "A|)"])
  = Some [range_start "A" "A"; range_end "A";
          range_start "B" "B"; range_end "B";
          range_start "A-0" "A"; range_start "B-0" "B"; range_end "B-0";
          range_end "A-1"].
Proof.
  destruct use_indices; reflexivity.
Qed.

(** ** Parameters *)

Lemma read_line_line (n rest : string) :
  occurs (ascii_of_nat 10) n = false ->
  occurs (ascii_of_nat 13) n = false ->
  Lexer.read_line (n +:+ LF +:+ rest) = (n, true, rest).
Proof.
  induction n as [|c n IH]; intros Hlf Hcr.
  - reflexivity.
  - rewrite app_cons. cbn [occurs Lexer.read_line] in *.
    apply orb_false_iff in Hlf as [Hlf Hlf'].
    apply orb_false_iff in Hcr as [Hcr Hcr'].
    rewrite (Ascii.eqb_sym c), Hlf, (Ascii.eqb_sym c), Hcr.
    now rewrite IH.
Qed.

Lemma checkFor_index (rest : string) :
  Lexer.checkFor "index" (Lexer.setStream ("index " +:+ rest))
  = Lexer.mk rest "index" true.
Proof. reflexivity. Qed.

(** C9, as amended.  The parameters are written as the tag [index], a
    blank, the index name (["idx"] for the empty name) and a line feed.
    Read back, a name that holds no line feed and no carriage return is
    recovered; the empty name reads back as ["idx"], and so does a stream
    without a line. *)
Theorem params_roundtrip (name : docstring) :
  occurs (ascii_of_nat 10) name = false ->
  occurs (ascii_of_nat 13) name = false ->
  params2string (InsetIndexParams.mk name)
  = "index " +:+ (if empty name then "idx" else name) +:+ LF
  /\ string2params (params2string (InsetIndexParams.mk name))
     = InsetIndexParams.mk (if empty name then "idx" else name)
  /\ fst (InsetIndexParams.read (Lexer.setStream ""))
     = InsetIndexParams.mk "idx".
Proof.
  intros Hlf Hcr.
  set (n := if empty name then "idx" else name).
  assert (Hn : occurs (ascii_of_nat 10) n = false
               /\ occurs (ascii_of_nat 13) n = false).
  { subst n. destruct (empty name); auto. }
  assert (Hw : params2string (InsetIndexParams.mk name)
               = "index " +:+ n +:+ LF).
  { unfold params2string, InsetIndexParams.write. cbn [InsetIndexParams.index].
    subst n. destruct (empty name); reflexivity. }
  split; [exact Hw|]. split; [|reflexivity].
  rewrite Hw. unfold string2params.
  change (empty ("index " +:+ n +:+ LF)) with false. cbv iota.
  rewrite checkFor_index. unfold InsetIndexParams.read, Lexer.eatLine.
  cbn [Lexer.stream]. destruct Hn as [H1 H2].
  change (n +:+ LF) with (n +:+ LF +:+ "").
  rewrite (read_line_line n "" H1 H2). reflexivity.
Qed.

Lemma params_roundtrip_witness :
  params2string (InsetIndexParams.mk "words")
  = "index " +:+ (if empty "words" then "idx" else "words") +:+ LF
  /\ string2params (params2string (InsetIndexParams.mk "words"))
     = InsetIndexParams.mk (if empty "words" then "idx" else "words")
  /\ fst (InsetIndexParams.read (Lexer.setStream ""))
     = InsetIndexParams.mk "idx".
Proof. apply (params_roundtrip "words"); reflexivity. Defined.

(** C9, as stated, fails: a name that holds a line feed is cut at it. *)
Lemma params_roundtrip_line_feed :
  string2params (params2string (InsetIndexParams.mk ("a" +:+ LF +:+ "b")))
  = InsetIndexParams.mk "a"
  /\ InsetIndexParams.mk "a" <> InsetIndexParams.mk ("a" +:+ LF +:+ "b").
Proof. split; [reflexivity|discriminate]. Qed.

(** ** [InsetPrintIndex::xhtml] *)

(** C8.  When no entry is collected, [xhtml] writes nothing: no wrapper,
    no heading, no list. *)
Theorem xhtml_no_entries (env : PrintIndexEnv) (toc : list TocItem) :
  collect_entries toc = Some [] -> xhtml env toc = Some [].
Proof.
  intros H. unfold xhtml. rewrite H.
  destruct (_ && _); [reflexivity|].
  destruct (Nat.eqb _ 0); reflexivity.
Qed.

Lemma xhtml_no_entries_witness :
  xhtml (mkPrintIndexEnv false "idx" "h2" "class='tochead'" "toc" "Index")
    [mkTocItem "apple" false (mkParagraph "magicparlabel-1" "apple")]
  = Some [].
Proof. apply xhtml_no_entries. reflexivity. Defined.

Lemma collect_entries_none_output (toc : list TocItem) :
  (forall it, In it toc -> isOutput it = false) ->
  collect_entries toc = Some [].
Proof.
  induction toc as [|it toc IH]; intros H; [reflexivity|]. simpl.
  rewrite (H it) by now left. apply IH. intros it' Hin. apply H. now right.
Qed.

(** C3, as amended.  The entries [apple ! red], [apple ! red],
    [apple ! green], [banana] are sorted and written as one main item
    "apple" with a sub-list whose first item is "green" with the link
    ": 1" and whose second item is "red" with the links ": 1" and ", 2";
    the sub-list and the item are closed and the main item "banana" with
    the link ": 1" follows. *)
Theorem xhtml_apple_banana (type_param htmltag htmlattr css title : string) :
  xhtml (mkPrintIndexEnv false type_param htmltag htmlattr css title)
    [plain_item "apple ! red" "p1"; plain_item "apple ! red" "p2";
     plain_item "apple ! green" "p3"; plain_item "banana" "p4"]
  = Some ([StartTag "div" ("class='index " +:+ css +:+ "'");
           StartTag htmltag htmlattr; Text title; EndTag htmltag;
           StartTag "ul" "class='main'";
           StartTag "li" "class='main'"; Text "apple"; CR;
           StartTag "ul" "class='subentry'";
           StartTag "li" "class='subentry'"; Raw "green"]
            ++ index_link true "p3" 1
            ++ [EndTag "li"; CR;
                StartTag "li" "class='subentry'"; Raw "red"]
            ++ index_link true "p1" 1 ++ index_link false "p2" 2
            ++ [EndTag "li"; CR; EndTag "ul"; CR; EndTag "li"; CR;
                StartTag "li" "class='main'"; Text "banana"]
            ++ index_link true "p4" 1
            ++ [EndTag "li"; EndTag "ul"; CR; EndTag "div"; CR]).
Proof. reflexivity. Qed.

(** C3, as stated, fails: [!] without the blanks around it does not split
    an entry, and the entries are sorted before they are written. *)
Lemma xhtml_apple_banana_unsplit :
  exists out,
    xhtml (mkPrintIndexEnv false "idx" "h2" "class='tochead'" "toc" "Index")
      [plain_item "apple!red" "p1"; plain_item "apple!red" "p2";
       plain_item "apple!green" "p3"; plain_item "banana" "p4"]
    = Some out
    /\ In (Text "apple!green") out /\ In (Text "apple!red") out
    /\ ~ In (Text "apple") out
    /\ ~ In (StartTag "ul" "class='subentry'") out.
Proof.
  eexists. split; [reflexivity|]. simpl. intuition discriminate.
Qed.

(** The loop alone, on the four entries in the order of the list and
    already split: "red" with two links comes before "green". *)
Example xhtml_entries_given_order :
  xhtml_entries
    (mkPrintIndexEnv false "idx" "h2" "class='tochead'" "toc" "Index")
    [mkIndexEntry "apple" "red" "" (mkParagraph "p1" "apple ! red");
     mkIndexEntry "apple" "red" "" (mkParagraph "p2" "apple ! red");
     mkIndexEntry "apple" "green" "" (mkParagraph "p3" "apple ! green");
     mkIndexEntry "banana" "" "" (mkParagraph "p4" "banana")]
  = Some ([StartTag "div" "class='index toc'";
           StartTag "h2" "class='tochead'"; Text "Index"; EndTag "h2";
           StartTag "ul" "class='main'";
           StartTag "li" "class='main'"; Text "apple"; CR;
           StartTag "ul" "class='subentry'";
           StartTag "li" "class='subentry'"; Raw "red"]
            ++ index_link true "p1" 1 ++ index_link false "p2" 2
            ++ [EndTag "li"; CR;
                StartTag "li" "class='subentry'"; Raw "green"]
            ++ index_link true "p3" 1
            ++ [EndTag "li"; CR; EndTag "ul"; CR; EndTag "li"; CR;
                StartTag "li" "class='main'"; Text "banana"]
            ++ index_link true "p4" 1
            ++ [EndTag "li"; EndTag "ul"; CR; EndTag "div"; CR]).
Proof. reflexivity. Qed.

(** ** The tree builder *)

Lemma tag_stack_app (stack : list string) (xs ys : list XMLItem) :
  tag_stack stack (xs ++ ys)
  = match tag_stack stack xs with
    | Some stack' => tag_stack stack' ys
    | None => None
    end.
Proof.
  revert stack. induction xs as [|x xs IH]; intros stack; [reflexivity|].
  destruct x; simpl; auto.
  destruct stack as [|top stack]; [reflexivity|].
  destruct (String.eqb top tag); auto.
Qed.

Lemma count_start_app (tag attr : string) (xs ys : list XMLItem) :
  count_start tag attr (xs ++ ys)
  = (count_start tag attr xs + count_start tag attr ys)%nat.
Proof.
  induction xs as [|x xs IH]; [reflexivity|].
  destruct x; simpl; rewrite ?IH; lia.
Qed.

Lemma opened_app (xs ys : list XMLItem) :
  opened (xs ++ ys) = add_counts (opened xs) (opened ys).
Proof. unfold opened, add_counts. simpl. now rewrite !count_start_app. Qed.

Lemma runs_cons (last e : IndexEntry) (es : list IndexEntry) :
  runs last (e :: es) = add_counts (runs last [e]) (runs e es).
Proof.
  unfold runs, add_counts. simpl. repeat f_equal; lia.
Qed.

Lemma compare_no_case_refl (s : docstring) : compare_no_case s s = 0.
Proof.
  induction s as [|c s IH]; simpl; [reflexivity|].
  now rewrite Nat.eqb_refl.
Qed.

Lemma eqb_empty (a b : string) :
  implb (String.eqb a b) (Bool.eqb (empty a) (empty b)) = true.
Proof.
  destruct (String.eqb_spec a b) as [->|]; [|reflexivity].
  simpl. now destruct (empty b).
Qed.

(** What the order of two entries says about their empty fields. *)
Lemma lt_false_sub (e last : IndexEntry) :
  IndexEntry_lt e last = false ->
  implb (String.eqb (main e) (main last) && negb (empty (sub last)))
    (negb (empty (sub e))) = true.
Proof.
  intros H. destruct (String.eqb_spec (main e) (main last)) as [Hm|];
    [|reflexivity].
  unfold IndexEntry_lt in H. rewrite Hm, compare_no_case_refl in H.
  destruct (sub last), (sub e); try reflexivity. discriminate H.
Qed.

Lemma lt_false_subsub (e last : IndexEntry) :
  IndexEntry_lt e last = false ->
  implb (String.eqb (main e) (main last) && String.eqb (sub e) (sub last)
         && negb (empty (subsub last)))
    (negb (empty (subsub e))) = true.
Proof.
  intros H. destruct (String.eqb_spec (main e) (main last)) as [Hm|];
    [|reflexivity].
  destruct (String.eqb_spec (sub e) (sub last)) as [Hs|]; [|reflexivity].
  unfold IndexEntry_lt in H.
  rewrite Hm, Hs, !compare_no_case_refl in H.
  destruct (subsub last), (subsub e); try reflexivity. discriminate H.
Qed.

(** Closing the last entry and opening a different one: the open elements
    go from those of the last entry to those of the new one, and what is
    opened is what the new entry starts. *)
Lemma close_open (e last : IndexEntry) (main' sub' subsub' : docstring) :
  equal e last = false ->
  implb (String.eqb (sub e) (sub last))
    (Bool.eqb (empty (sub e)) (empty (sub last))) = true ->
  implb (String.eqb (subsub e) (subsub last))
    (Bool.eqb (empty (subsub e)) (empty (subsub last))) = true ->
  implb (empty (sub e)) (empty (subsub e)) = true ->
  implb (empty (sub last)) (empty (subsub last)) = true ->
  implb (String.eqb (main e) (main last) && negb (empty (sub last)))
    (negb (empty (sub e))) = true ->
  implb (String.eqb (main e) (main last) && String.eqb (sub e) (sub last)
         && negb (empty (subsub last)))
    (negb (empty (subsub e))) = true ->
  empty sub' = empty (sub e) ->
  empty subsub' = empty (subsub e) ->
  let '(xsc, l1) := close_last (depth last) e last in
  let '(xso, l2) := open_new l1 e last main' sub' subsub' in
  l2 = depth e
  /\ tag_stack (open_stack (depth last)) (xsc ++ xso)
     = Some (open_stack (depth e))
  /\ opened (xsc ++ xso) = runs last [e].
Proof.
  unfold close_last, open_new, depth, opened, runs, count_new, new_main,
    new_sub, new_subsub, new_sublist, new_subsublist, same_sub, same_main,
    equal.
  intros Hne H1 H2 H3 H4 H5 H6 -> ->.
  destruct (String.eqb (main e) (main last)),
    (String.eqb (sub e) (sub last)),
    (String.eqb (subsub e) (subsub last)),
    (empty (sub e)), (empty (subsub e)),
    (empty (sub last)), (empty (subsub last));
    cbn in *; try discriminate; repeat split; reflexivity.
Qed.

Lemma well_formed_parts (e : IndexEntry) :
  well_formed e = true ->
  empty (main e) = false
  /\ implb (empty (sub e)) (empty (subsub e)) = true
  /\ exists main' sub' subsub',
      parseEntry (simpleLyXHTMLOnePar (dit e)) true
      = Some (main', sub', subsub')
      /\ empty sub' = empty (sub e) /\ empty subsub' = empty (subsub e).
Proof.
  unfold well_formed, shown_as_parsed. intros H.
  apply andb_true_iff in H as [H Hshown]. apply andb_true_iff in H as [Hm Hl].
  split; [now apply negb_true_iff|]. split; [assumption|].
  destruct (parseEntry _ true) as [[[m s] ss]|]; [|discriminate].
  apply andb_true_iff in Hshown as [Hs Hss].
  exists m, s, ss. repeat split; now apply Bool.eqb_prop.
Qed.

Lemma link_nested (stack : list string) (first : bool) (label : string)
    (n : Z) :
  tag_stack stack (index_link first label n) = Some stack
  /\ opened (index_link first label n) = [0; 0; 0; 0; 0]%nat.
Proof. split; reflexivity. Qed.

(** A round of the loop on an entry that is the same as the last one. *)
Lemma equal_fields (e last : IndexEntry) :
  equal e last = true ->
  depth e = depth last /\ runs last [e] = [0; 0; 0; 0; 0]%nat.
Proof.
  unfold equal, depth, runs, count_new, new_main, new_sub, new_subsub,
    new_sublist, new_subsublist, same_sub, same_main, equal.
  intros H. apply andb_true_iff in H as [H H3].
  apply andb_true_iff in H as [H1 H2].
  apply String.eqb_eq in H1, H2, H3. rewrite H1, H2, H3, !String.eqb_refl.
  split; [reflexivity|].
  destruct (empty (sub last)), (empty (subsub last)); reflexivity.
Qed.

(** One round of the loop, after the first. *)
Lemma xhtml_step_invariant (st : LoopState) (e : IndexEntry) :
  loop_invariant st ->
  implb (empty (sub (last st))) (empty (subsub (last st))) = true ->
  well_formed e = true ->
  IndexEntry_lt e (last st) = false ->
  exists st' delta,
    xhtml_step st e = Some st'
    /\ loop_invariant st'
    /\ last st' = e
    /\ xs st' = xs st ++ delta
    /\ opened delta = runs (last st) [e].
Proof.
  intros (Hn & Hlev & Hstack) Hlast Hwf Hlt.
  destruct (well_formed_parts e Hwf)
    as (_ & Hleft & m' & s' & ss' & Hparse & Hs & Hss).
  unfold xhtml_step.
  assert (Hfirst : (entry_number st =? -1) = false) by (apply Z.eqb_neq; lia).
  rewrite Hfirst. cbn [orb negb].
  destruct (equal e (last st)) eqn:Heq; cbn [negb bind].
  - destruct (equal_fields _ _ Heq) as [Hd Hr].
    eexists _, _. split; [reflexivity|]. unfold loop_invariant.
    cbn [xs level last entry_number].
    split; [|split; [reflexivity|split; [reflexivity|]]].
    + split; [lia|]. split; [congruence|].
      rewrite tag_stack_app, Hstack.
      apply (link_nested _ _ (magicLabel (dit e)) (entry_number st + 1)).
    + now rewrite Hr.
  - rewrite Hparse. cbn [bind].
    pose proof (close_open e (last st) m' s' ss' Heq (eqb_empty _ _)
                  (eqb_empty _ _) Hleft Hlast (lt_false_sub _ _ Hlt)
                  (lt_false_subsub _ _ Hlt) Hs Hss) as Hco.
    rewrite Hlev.
    destruct (close_last (depth (last st)) e (last st)) as [xsc l1].
    destruct (open_new l1 e (last st) m' s' ss') as [xso l2].
    destruct Hco as (Hl2 & Hst & Hop).
    eexists _, (xsc ++ xso ++ index_link true (magicLabel (dit e)) 1).
    split; [reflexivity|]. unfold loop_invariant.
    cbn [xs level last entry_number].
    split; [|split; [reflexivity|split]].
    + split; [lia|]. split; [assumption|].
      rewrite <- !app_assoc, tag_stack_app, Hstack, Hlev.
      rewrite app_assoc, tag_stack_app, Hst, Hl2.
      reflexivity.
    + now rewrite <- !app_assoc.
    + rewrite app_assoc, opened_app, Hop.
      unfold runs, add_counts. simpl. repeat f_equal; lia.
Qed.

(** The rounds after the first. *)
Lemma xhtml_loop_invariant (es : list IndexEntry) (st : LoopState) :
  loop_invariant st ->
  implb (empty (sub (last st))) (empty (subsub (last st))) = true ->
  forallb well_formed es = true ->
  sorted_from (last st) es = true ->
  exists st' delta,
    xhtml_loop st es = Some st'
    /\ loop_invariant st'
    /\ xs st' = xs st ++ delta
    /\ opened delta = runs (last st) es.
Proof.
  revert st. induction es as [|e es IH]; intros st Hinv Hlast Hwf Hsorted.
  - exists st, []. split; [reflexivity|]. split; [assumption|].
    split; [now rewrite app_nil_r|reflexivity].
  - simpl in Hwf, Hsorted.
    apply andb_true_iff in Hwf as [Hwe Hwf].
    apply andb_true_iff in Hsorted as [Hlt Hsorted].
    apply negb_true_iff in Hlt.
    destruct (xhtml_step_invariant st e Hinv Hlast Hwe Hlt)
      as (st1 & d1 & Hstep & Hinv1 & Hl1 & Hxs1 & Hop1).
    destruct (well_formed_parts e Hwe) as (_ & Hleft & _).
    destruct (IH st1 Hinv1) as (st' & d & Hloop & Hinv' & Hxs' & Hop);
      rewrite ?Hl1; auto.
    exists st', (d1 ++ d). simpl. rewrite Hstep. cbn [bind].
    split; [assumption|]. split; [assumption|].
    split; [now rewrite Hxs', Hxs1, app_assoc|].
    rewrite opened_app, Hop1, Hop, Hl1. symmetry. apply runs_cons.
Qed.

(** The first round: the main item is opened because the main field of
    the entry is not empty. *)
Lemma xhtml_step_first (xs0 : list XMLItem) (e : IndexEntry) :
  tag_stack [] xs0 = Some ["ul"; "div"] ->
  well_formed e = true ->
  exists st' delta,
    xhtml_step (mkLoopState xs0 1 IndexEntry_default (-1)) e = Some st'
    /\ loop_invariant st'
    /\ last st' = e
    /\ xs st' = xs0 ++ delta
    /\ opened delta = runs IndexEntry_default [e].
Proof.
  intros Hstack Hwf.
  destruct (well_formed_parts e Hwf)
    as (Hmain & Hleft & m' & s' & ss' & Hparse & Hs & Hss).
  unfold xhtml_step. cbn [entry_number xs level last].
  change (-1 =? -1) with true. cbn [orb negb].
  rewrite Hparse. cbn [bind].
  assert (Hopen :
    let '(xso, l2) := open_new 1 e IndexEntry_default m' s' ss' in
    l2 = depth e
    /\ tag_stack ["ul"; "div"] xso = Some (open_stack (depth e))
    /\ opened xso = runs IndexEntry_default [e]).
  { unfold open_new, depth, opened, runs, count_new, new_main, new_sub,
      new_subsub, new_sublist, new_subsublist, same_sub, same_main, equal,
      IndexEntry_default.
    cbn [main sub subsub]. rewrite Hs, Hss.
    assert (Hm : String.eqb (main e) "" = false).
    { destruct (main e); [discriminate|reflexivity]. }
    rewrite Hm. clear Hm.
    destruct (empty (sub e)), (empty (subsub e)); cbn in *;
      try discriminate; repeat split; reflexivity. }
  destruct (open_new 1 e IndexEntry_default m' s' ss') as [xso l2].
  destruct Hopen as (Hl2 & Hst & Hop).
  eexists _, (xso ++ index_link true (magicLabel (dit e)) 1).
  split; [reflexivity|]. unfold loop_invariant.
    cbn [xs level last entry_number].
  split; [|split; [reflexivity|split]].
  - split; [lia|]. split; [assumption|].
    rewrite !tag_stack_app, Hstack. cbn [app]. rewrite Hst, Hl2.
    reflexivity.
  - cbn [app]. now rewrite <- app_assoc.
  - rewrite opened_app, Hop. unfold runs, add_counts. simpl.
    repeat f_equal; lia.
Qed.

Lemma close_levels_nested (e : IndexEntry) :
  tag_stack (open_stack (depth e))
    (close_levels (Z.to_nat (depth e)) ++ [EndTag "div"; CR]) = Some []
  /\ opened (close_levels (Z.to_nat (depth e)) ++ [EndTag "div"; CR])
     = [0; 0; 0; 0; 0]%nat.
Proof.
  unfold depth. destruct (empty (sub e)), (empty (subsub e));
    split; reflexivity.
Qed.

(** C4, as amended.  For a sorted, non-empty list of entries, each with a
    main field that is not empty, no sub-sub-entry without a sub-entry and
    a paragraph that shows what the entry has, the builder writes
    well-nested markup: every end tag closes the innermost open element
    and nothing is left open.  After the heading it opens one main item
    for each run of entries with the same main field, one sub-entry item
    for each run with the same main and (non-empty) sub field, one
    sub-sub-entry item for each run with the same three fields (the last
    not empty), and one list for the sub-entries of a main run and for the
    sub-sub-entries of a sub run. *)
Theorem xhtml_entries_nested (env : PrintIndexEnv) (es : list IndexEntry) :
  es <> [] ->
  forallb well_formed es = true ->
  sorted_entries es = true ->
  exists out,
    xhtml_entries env es = Some out
    /\ wellnested out = true
    /\ opened (index_list out) = runs IndexEntry_default es.
Proof.
  intros Hne Hwf Hsorted. destruct es as [|e es]; [contradiction|].
  simpl in Hwf, Hsorted. apply andb_true_iff in Hwf as [Hwe Hwf].
  unfold xhtml_entries.
  set (xs0 := [StartTag "div" _; StartTag (htmltag env) (htmlattr env);
               Text (index_title env); EndTag (htmltag env);
               StartTag "ul" "class='main'"]).
  assert (Hxs0 : tag_stack [] xs0 = Some ["ul"; "div"]).
  { subst xs0. simpl. now rewrite String.eqb_refl. }
  destruct (xhtml_step_first xs0 e Hxs0 Hwe)
    as (st1 & d1 & Hstep & Hinv1 & Hl1 & Hxs1 & Hop1).
  destruct (well_formed_parts e Hwe) as (_ & Hleft & _).
  destruct (xhtml_loop_invariant es st1 Hinv1)
    as (st' & d & Hloop & (Hn & Hlev & Hstack) & Hxs' & Hop);
    rewrite ?Hl1; auto.
  cbn [xhtml_loop]. rewrite Hstep. cbn [bind]. rewrite Hloop. cbn [bind].
  destruct (close_levels_nested (last st')) as [Hclose Hopc].
  eexists. split; [reflexivity|]. split.
  - unfold wellnested. rewrite tag_stack_app, Hstack, Hlev, Hclose.
    reflexivity.
  - rewrite Hxs', Hxs1, Hlev. unfold index_list. subst xs0.
    cbn [app skipn]. rewrite <- !app_assoc.
    change (StartTag "ul" "class='main'" :: ?l)
      with ([StartTag "ul" "class='main'"] ++ l).
    do 3 rewrite opened_app.
    rewrite Hop1, Hop, Hopc, Hl1, (runs_cons _ e es).
    unfold runs, add_counts. simpl. repeat f_equal; lia.
Qed.

Lemma xhtml_entries_nested_witness :
  exists out,
    xhtml_entries
      (mkPrintIndexEnv false "idx" "h2" "class='tochead'" "toc" "Index")
      [mkIndexEntry "apple" "green" "" (mkParagraph "p3" "apple ! green");
       mkIndexEntry "apple" "red" "" (mkParagraph "p1" "apple ! red");
       mkIndexEntry "apple" "red" "" (mkParagraph "p2" "apple ! red");
       mkIndexEntry "banana" "" "" (mkParagraph "p4" "banana")]
    = Some out
    /\ wellnested out = true
    /\ opened (index_list out)
       = runs IndexEntry_default
           [mkIndexEntry "apple" "green" "" (mkParagraph "p3" "apple ! green");
            mkIndexEntry "apple" "red" "" (mkParagraph "p1" "apple ! red");
            mkIndexEntry "apple" "red" "" (mkParagraph "p2" "apple ! red");
            mkIndexEntry "banana" "" "" (mkParagraph "p4" "banana")].
Proof.
  apply xhtml_entries_nested; [discriminate|reflexivity|reflexivity].
Defined.

(** C4, as stated, fails: the order ignores case and the grouping does
    not.  Three entries in order, no two the same, with the two main
    fields "a" and "A": three main items are opened. *)
Lemma xhtml_entries_case :
  let es := [mkIndexEntry "a" "x" "" (mkParagraph "p1" "a ! x");
             mkIndexEntry "A" "y" "" (mkParagraph "p2" "A ! y");
             mkIndexEntry "a" "z" "" (mkParagraph "p3" "a ! z")] in
  sorted_entries es = true
  /\ List.NoDup (map (fun e => (main e, sub e, subsub e)) es)
  /\ List.length (nodup string_dec (map main es)) = 2%nat
  /\ exists out,
      xhtml_entries
        (mkPrintIndexEnv false "idx" "h2" "class='tochead'" "toc" "Index") es
      = Some out
      /\ count_start "li" "class='main'" (index_list out) = 3%nat.
Proof.
  cbv zeta. split; [reflexivity|]. split; [|split].
  - repeat (apply List.NoDup_cons; [simpl; intuition discriminate|]).
    apply List.NoDup_nil.
  - reflexivity.
  - eexists. split; reflexivity.
Qed.

(** An entry without a main field: the main item is closed though it was
    never opened. *)
Example xhtml_empty_main :
  option_map wellnested
    (xhtml (mkPrintIndexEnv false "idx" "h2" "class='tochead'" "toc" "Index")
       [plain_item "" "p1"])
  = Some false.
Proof. reflexivity. Qed.

(** A sub-sub-entry without a sub-entry is not written, and neither is a
    sub-entry that the paragraph does not show. *)
Example xhtml_entries_skipped_fields :
  let env := mkPrintIndexEnv false "idx" "h2" "class='tochead'" "toc" "Index" in
  let e1 := mkIndexEntry "a" "" "c" (mkParagraph "p1" "a !  ! c") in
  let e2 := mkIndexEntry "a" "b" "" (mkParagraph "p1" "a ! key@") in
  option_map (fun out => opened (index_list out)) (xhtml_entries env [e1])
  = Some [1; 0; 0; 0; 0]%nat
  /\ runs IndexEntry_default [e1] = [1; 0; 1; 0; 1]%nat
  /\ option_map (fun out => opened (index_list out)) (xhtml_entries env [e2])
     = Some [1; 0; 0; 0; 0]%nat
  /\ runs IndexEntry_default [e2] = [1; 1; 0; 1; 0]%nat.
Proof. repeat split; reflexivity. Qed.

(** ** The sort *)

Lemma compare_no_case_antisym (a b : docstring) :
  compare_no_case a b = - compare_no_case b a.
Proof.
  revert b. induction a as [|c a IH]; intros [|c' b]; simpl;
    try reflexivity.
  rewrite (Nat.eqb_sym (nat_of_ascii (lowercase c'))).
  destruct (Nat.eqb_spec (nat_of_ascii (lowercase c))
              (nat_of_ascii (lowercase c'))) as [E|E]; [apply IH|].
  destruct (Nat.ltb_spec (nat_of_ascii (lowercase c))
              (nat_of_ascii (lowercase c')));
    destruct (Nat.ltb_spec (nat_of_ascii (lowercase c'))
                (nat_of_ascii (lowercase c))); try reflexivity; lia.
Qed.

Lemma IndexEntry_lt_asym (a b : IndexEntry) :
  IndexEntry_lt a b = true -> IndexEntry_lt b a = false.
Proof.
  unfold IndexEntry_lt.
  rewrite (compare_no_case_antisym (main b)),
    (compare_no_case_antisym (sub b)), (compare_no_case_antisym (subsub b)).
  generalize (compare_no_case (main a) (main b)) as x,
    (compare_no_case (sub a) (sub b)) as y,
    (compare_no_case (subsub a) (subsub b)) as z.
  intros x y z H. apply Z.ltb_ge.
  destruct (Z.eqb_spec x 0) as [->|Hx].
  - simpl in *. destruct (Z.eqb_spec y 0) as [->|Hy].
    + simpl in *. apply Z.ltb_lt in H. lia.
    + destruct (Z.eqb_spec (- y) 0); [lia|]. apply Z.ltb_lt in H. lia.
  - destruct (Z.eqb_spec (- x) 0); [lia|].
    destruct (Z.eqb_spec x 0); [lia|].
    destruct (Z.eqb_spec (- x) 0); [lia|]. apply Z.ltb_lt in H. lia.
Qed.

Lemma stable_insert_sorted (x last : IndexEntry) (l : list IndexEntry) :
  IndexEntry_lt x last = false ->
  sorted_from last l = true ->
  sorted_from last (stable_insert x l) = true.
Proof.
  revert last. induction l as [|y l IH]; intros last Hx Hl; simpl.
  - now rewrite Hx.
  - simpl in Hl. apply andb_true_iff in Hl as [Hy Hl].
    destruct (IndexEntry_lt y x) eqn:E; simpl.
    + rewrite Hy. simpl. apply IH; [now apply IndexEntry_lt_asym|assumption].
    + now rewrite Hx, E, Hl.
Qed.

(** What [xhtml] hands to the loop is sorted. *)
Lemma stable_sort_sorted (l : list IndexEntry) :
  sorted_entries (stable_sort l) = true.
Proof.
  induction l as [|x l IH]; [reflexivity|]. simpl.
  destruct (stable_sort l) as [|y s]; [reflexivity|]. simpl in *.
  destruct (IndexEntry_lt y x) eqn:E; simpl.
  - apply stable_insert_sorted; [now apply IndexEntry_lt_asym|assumption].
  - now rewrite E, IH.
Qed.

(** * Further properties *)

(** ** The parser never throws *)

Lemma app_nil_r_s (s : string) : s +:+ "" = s.
Proof. induction s; rewrite ?app_nil_l, ?app_cons; congruence. Qed.

Lemma erase_tail (s : string) (i : nat) (n : Z) :
  (i <= String.length s)%nat -> size s <= n ->
  erase s (Z.of_nat i) n = Some (stake i s).
Proof.
  intros Hi Hn. unfold erase, size in *.
  destruct (_ <? _) eqn:E; [apply Z.ltb_lt in E; lia|].
  rewrite Z.min_r by lia.
  replace (Z.to_nat (Z.of_nat i + (Z.of_nat (String.length s) - Z.of_nat i)))
    with (String.length s) by lia.
  rewrite Nat2Z.id, sdrop_all by lia. now rewrite app_nil_r_s.
Qed.

Lemma erase_head (s : string) (i : nat) :
  (i <= String.length s)%nat ->
  erase s 0 (Z.of_nat i) = Some (sdrop i s).
Proof.
  intros Hi. unfold erase, size.
  destruct (_ <? _) eqn:E; [apply Z.ltb_lt in E; lia|].
  rewrite Z.min_l by lia. simpl stake. rewrite app_nil_l.
  now rewrite Z.add_0_l, Nat2Z.id.
Qed.

Lemma parseItem_total (s : docstring) (for_output : bool) :
  exists r, parseItem s for_output = Some r.
Proof.
  unfold parseItem.
  assert (H1 : exists s1,
             (if negb (find s "@" 0 =? npos)
              then if for_output then erase s 0 (wrap (find s "@" 0 + 1))
                   else erase s (find s "@" 0) npos
              else Some s) = Some s1).
  { destruct (find s "@" 0 =? npos) eqn:E; [simpl; eauto|]. simpl.
    destruct for_output.
    - apply erase_total, size_nonneg.
    - destruct (find_result s "@" 0 ltac:(lia)) as [Hn|(i & Hi & _ & _ & Hl)].
      + rewrite Hn, Z.eqb_refl in E. discriminate.
      + rewrite Hi. apply erase_total. unfold size. lia. }
  destruct H1 as [s1 ->]. cbn [bind].
  destruct (find s1 "|" 0 =? npos) eqn:E; [simpl; eauto|]. simpl.
  destruct (find_result s1 "|" 0 ltac:(lia)) as [Hn|(i & Hi & _ & _ & Hl)].
  - rewrite Hn, Z.eqb_refl in E. discriminate.
  - rewrite Hi. apply erase_total. unfold size. lia.
Qed.

Lemma wrap_le (z : Z) : 0 <= z -> 0 <= wrap z <= z.
Proof.
  intros H. unfold wrap. assert (0 < size_max) by reflexivity.
  pose proof (Z.mod_pos_bound z size_max ltac:(lia)).
  pose proof (Z.mod_le z size_max ltac:(lia) ltac:(lia)). lia.
Qed.

Lemma extractSubentries_total (entry : docstring)
    (out : docstring * docstring * docstring) :
  exists r, extractSubentries entry out = Some r.
Proof.
  destruct out as [[m s1] s2]. unfold extractSubentries.
  destruct (empty entry); [eauto|].
  destruct (find entry " ! " 0 =? npos) eqn:E; [eauto|].
  destruct (find_result entry " ! " 0 ltac:(lia))
    as [Hn|(i & Hi & _ & _ & Hl)].
  { rewrite Hn, Z.eqb_refl in E. discriminate. }
  simpl in Hl.
  destruct (substr_total entry 0 (find entry " ! " 0) (size_nonneg _))
    as [a ->].
  cbn [bind]. rewrite Hi.
  pose proof (wrap_le (Z.of_nat i + 3) ltac:(lia)) as Hw.
  destruct (find entry " ! " (wrap (Z.of_nat i + 3)) =? npos) eqn:E2.
  - destruct (substr_total entry (wrap (Z.of_nat i + 3)) npos) as [b ->];
      [unfold size; lia|]. cbn [bind]. eauto.
  - destruct (find_result entry " ! " (wrap (Z.of_nat i + 3)) ltac:(lia))
      as [Hn|(j & Hj & Hge & _ & Hl2)].
    { rewrite Hn, Z.eqb_refl in E2. discriminate. }
    simpl in Hl2. rewrite Hj.
    destruct (substr_total entry (wrap (Z.of_nat i + 3))
                (wrap (Z.of_nat j - wrap (Z.of_nat i + 3)))) as [b ->];
      [unfold size; lia|]. cbn [bind].
    pose proof (wrap_le (Z.of_nat j + 3) ltac:(lia)).
    destruct (substr_total entry (wrap (Z.of_nat j + 3)) npos) as [c ->];
      [unfold size; lia|]. cbn [bind]. eauto.
Qed.

(** X1.  Parsing an entry never throws: whatever the string and the mode,
    no position handed to [substr] or [erase] lies beyond the end. *)
Theorem parseEntry_total (s : docstring) (for_output : bool) :
  exists main' sub' subsub',
    parseEntry s for_output = Some (main', sub', subsub').
Proof.
  unfold parseEntry.
  destruct (extractSubentries_total s ("", "", "")) as [[[m s1] s2] ->].
  cbn [bind].
  destruct (parseItem_total m for_output) as [m' ->]. cbn [bind].
  destruct (parseItem_total s1 for_output) as [s1' ->]. cbn [bind].
  destruct (parseItem_total s2 for_output) as [s2' ->]. cbn [bind].
  eauto.
Qed.

(** ** What [parseItem] keeps *)

Lemma take_until_find (c : ascii) (s : string) :
  take_until (Ascii.eqb c) s
  = match find_nat (String c "") s with
    | Some i => stake i s
    | None => s
    end.
Proof.
  induction s as [|c' s IH]; simpl; [reflexivity|].
  destruct (Ascii.eqb c c'); simpl; [reflexivity|].
  rewrite IH. destruct (find_nat (String c "") s); reflexivity.
Qed.

Lemma after_first_find (c : ascii) (s : string) :
  after_first c s
  = match find_nat (String c "") s with
    | Some i => sdrop (S i) s
    | None => s
    end.
Proof.
  induction s as [|c' s IH]; simpl; [reflexivity|].
  destruct (Ascii.eqb c c'); simpl; [now rewrite ?sdrop_0|].
  pose proof (find_nat_char c s) as H.
  destruct (find_nat (String c "") s) as [i|]; simpl.
  - destruct H as [_ ->]. exact IH.
  - now rewrite H.
Qed.

Lemma take_until_twice (p q : ascii -> bool) (s : string) :
  take_until q (take_until p s) = take_until (fun c => p c || q c) s.
Proof.
  induction s as [|c s IH]; simpl; [reflexivity|].
  destruct (p c); simpl; [reflexivity|].
  destruct (q c); [reflexivity|]. now rewrite IH.
Qed.

Lemma length_take_until (p : ascii -> bool) (s : string) :
  (String.length (take_until p s) <= String.length s)%nat.
Proof.
  induction s as [|c s IH]; simpl; [lia|]. destruct (p c); simpl; lia.
Qed.

Lemma length_after_first (c : ascii) (s : string) :
  (String.length (after_first c s) <= String.length s)%nat.
Proof.
  rewrite after_first_find. destruct (find_nat _ s); [|lia].
  rewrite length_sdrop. lia.
Qed.

Lemma take_until_none (p : ascii -> bool) (c : ascii) (s : string) :
  p c = true -> occurs c (take_until p s) = false.
Proof.
  intros Hp. induction s as [|c' s IH]; simpl; [reflexivity|].
  destruct (p c') eqn:E; simpl; [reflexivity|].
  rewrite IH, orb_false_r. apply Ascii.eqb_neq. intros ->. congruence.
Qed.

(** Cutting [s] at the first [c], as [parseItem] does with [find] and
    [erase]. *)
Lemma erase_from_char (c : ascii) (s : string) :
  size s < npos ->
  (if negb (find s (String c "") 0 =? npos)
   then erase s (find s (String c "") 0) npos else Some s)
  = Some (take_until (Ascii.eqb c) s).
Proof.
  intros Hs. rewrite take_until_find, find_0.
  pose proof (find_nat_char c s) as H.
  destruct (find_nat (String c "") s) as [i|].
  - destruct H as [Hi _]. unfold size in Hs.
    destruct (Z.of_nat i =? npos) eqn:E; [apply Z.eqb_eq in E; lia|].
    simpl. apply erase_tail; unfold size; lia.
  - now rewrite Z.eqb_refl.
Qed.

(** X2.  [parseItem] does what its comment and the two [erase] calls say:
    for output it keeps what follows the first [@], otherwise what comes
    before it, and in both cases only up to the first [|].  No [|] is
    left, and outside output mode no [@] either. *)
Theorem parseItem_keeps (s : docstring) (for_output : bool) :
  size s < npos ->
  exists r,
    parseItem s for_output = Some r
    /\ r = take_until (Ascii.eqb "|")
             (if for_output then after_first "@" s
              else take_until (Ascii.eqb "@") s)
    /\ occurs "|" r = false
    /\ (for_output = false -> occurs "@" r = false).
Proof.
  intros Hs.
  assert (H1 : (if negb (find s "@" 0 =? npos)
                then if for_output then erase s 0 (wrap (find s "@" 0 + 1))
                     else erase s (find s "@" 0) npos
                else Some s)
               = Some (if for_output then after_first "@" s
                       else take_until (Ascii.eqb "@") s)).
  { destruct for_output; [|now apply erase_from_char].
    rewrite after_first_find, find_0.
    pose proof (find_nat_char "@" s) as H.
    destruct (find_nat "@" s) as [i|]; [|now rewrite Z.eqb_refl].
    destruct H as [Hi _]. unfold size in Hs.
    destruct (Z.of_nat i =? npos) eqn:E; [apply Z.eqb_eq in E; lia|].
    simpl. rewrite wrap_small by lia.
    replace (Z.of_nat i + 1) with (Z.of_nat (S i)) by lia.
    apply erase_head. lia. }
  eexists. split; [|split; [reflexivity|split]].
  - unfold parseItem. rewrite H1. cbn [bind].
    apply erase_from_char.
    destruct for_output.
    + pose proof (length_after_first "@" s). unfold size in *. lia.
    + pose proof (length_take_until (Ascii.eqb "@") s). unfold size in *. lia.
  - apply take_until_none, Ascii.eqb_refl.
  - intros ->. rewrite take_until_twice. apply take_until_none. reflexivity.
Qed.

Lemma parseItem_keeps_witness :
  exists r,
    parseItem "Smith@John Smith|see{Jones}" true = Some r
    /\ r = take_until (Ascii.eqb "|")
             (if true then after_first "@" "Smith@John Smith|see{Jones}"
              else take_until (Ascii.eqb "@") "Smith@John Smith|see{Jones}")
    /\ occurs "|" r = false
    /\ (true = false -> occurs "@" r = false).
Proof.
  apply (parseItem_keeps "Smith@John Smith|see{Jones}" true). reflexivity.
Defined.

(** ** Joining and splitting *)

Lemma ltrim_trimmed (s : string) :
  is_space (front0 s) = false -> ltrim s = s.
Proof. destruct s as [|c s]; simpl; [reflexivity|]. now intros ->. Qed.

Lemma rtrim_trimmed (s : string) :
  ends_with_space s = false -> rtrim s = s.
Proof.
  induction s as [|c s IH]; simpl; [reflexivity|].
  destruct s as [|c' s].
  - intros ->. reflexivity.
  - intros H. rewrite (IH H). now rewrite andb_false_r.
Qed.

Lemma trim_trimmed_id (s : string) : trimmed s = true -> trim s = s.
Proof.
  unfold trimmed, trim. intros H. apply andb_true_iff in H as [H1 H2].
  apply negb_true_iff in H1, H2. now rewrite ltrim_trimmed, rtrim_trimmed.
Qed.

Lemma split_first_join (a r : string) :
  occurs "!" a = false ->
  split_first " ! " (a +:+ " ! " +:+ r) = Some (a, r).
Proof.
  induction a as [|x a IH]; intros H.
  - reflexivity.
  - rewrite app_cons. cbn [occurs] in H.
    apply orb_false_iff in H as [Hx Ha].
    assert (Hp : is_prefix " ! " (String x (a +:+ " ! " +:+ r)) = false).
    { cbn [is_prefix]. destruct (Ascii.eqb " " x); [|reflexivity].
      destruct a as [|y a].
      - reflexivity.
      - rewrite app_cons. cbn [occurs] in Ha.
        apply orb_false_iff in Ha as [Hy _]. cbn [is_prefix].
        now rewrite Hy. }
    cbn [split_first]. rewrite Hp, (IH Ha). reflexivity.
Qed.

Lemma split_first_plain (r : string) :
  occurs "!" r = false -> split_first " ! " r = None.
Proof.
  intros H. rewrite split_first_find.
  now rewrite (find_nat_absent "!"%char) by (auto; reflexivity).
Qed.

(** X3.  Joining and splitting are inverse: three trimmed texts, the first
    two without [!], joined by [" ! "], are what [extractSubentries] gives
    back; with two texts the third field stays empty. *)
Theorem extractSubentries_join (a b c : docstring) :
  occurs "!" a = false -> occurs "!" b = false ->
  trimmed a = true -> trimmed b = true -> trimmed c = true ->
  size (a +:+ " ! " +:+ b +:+ " ! " +:+ c) < npos ->
  extractSubentries (a +:+ " ! " +:+ b +:+ " ! " +:+ c) ("", "", "")
  = Some (a, b, c)
  /\ extractSubentries (a +:+ " ! " +:+ b) ("", "", "") = Some (a, b, "").
Proof.
  intros Ha Hb Hta Htb Htc Hsz. split.
  - rewrite extractSubentries_split_entry by assumption.
    unfold split_entry. rewrite (split_first_join a _ Ha).
    rewrite (split_first_join b _ Hb).
    now rewrite !trim_trimmed_id.
  - rewrite extractSubentries_split_entry.
    + unfold split_entry. rewrite (split_first_join a _ Ha).
      rewrite (split_first_plain b Hb). now rewrite !trim_trimmed_id.
    + unfold size in *. rewrite !length_app in *. lia.
Qed.

Lemma extractSubentries_join_witness :
  extractSubentries ("apple" +:+ " ! " +:+ "red" +:+ " ! " +:+ "dark ! light")
    ("", "", "")
  = Some ("apple", "red", "dark ! light")
  /\ extractSubentries ("apple" +:+ " ! " +:+ "red") ("", "", "")
     = Some ("apple", "red", "").
Proof.
  apply (extractSubentries_join "apple" "red" "dark ! light"); reflexivity.
Defined.

(** ** The order of the entries *)

Lemma compare_no_case_trans (a b c : docstring) :
  compare_no_case a b <= 0 -> compare_no_case b c <= 0 ->
  compare_no_case a c <= 0
  /\ (compare_no_case a b < 0 \/ compare_no_case b c < 0 ->
      compare_no_case a c < 0).
Proof.
  revert b c. induction a as [|x a IH]; intros [|y b] [|z c];
    cbn [compare_no_case]; try lia.
  set (lx := nat_of_ascii (lowercase x)).
  set (ly := nat_of_ascii (lowercase y)).
  set (lz := nat_of_ascii (lowercase z)).
  destruct (Nat.eqb_spec lx ly), (Nat.eqb_spec ly lz), (Nat.eqb_spec lx lz);
    try lia;
    destruct (Nat.ltb_spec lx ly), (Nat.ltb_spec ly lz),
      (Nat.ltb_spec lx lz); try lia.
  all: apply IH.
Qed.

Lemma compare_no_case_eq_trans (a b c : docstring) :
  compare_no_case a b = 0 -> compare_no_case b c = 0 ->
  compare_no_case a c = 0.
Proof.
  intros H1 H2.
  destruct (compare_no_case_trans a b c) as [H3 _]; [lia|lia|].
  pose proof (compare_no_case_antisym c b) as A1.
  pose proof (compare_no_case_antisym b a) as A2.
  pose proof (compare_no_case_antisym c a) as A3.
  destruct (compare_no_case_trans c b a) as [A4 _]; lia.
Qed.

(** X4.  [operator<] is the strict order that [stable_sort] needs: it is
    transitive, no entry is less than itself, and of two entries at most
    one is less than the other. *)
Theorem IndexEntry_lt_strict (a b c : IndexEntry) :
  IndexEntry_lt a b = true -> IndexEntry_lt b c = true ->
  IndexEntry_lt a c = true
  /\ IndexEntry_lt b a = false
  /\ IndexEntry_lt a a = false.
Proof.
  intros Hab Hbc. split; [|split].
  - unfold IndexEntry_lt in *.
    pose proof (compare_no_case_trans (main a) (main b) (main c)) as Tm.
    pose proof (compare_no_case_trans (sub a) (sub b) (sub c)) as Ts.
    pose proof (compare_no_case_trans (subsub a) (subsub b) (subsub c)) as Tss.
    pose proof (compare_no_case_eq_trans (main a) (main b) (main c)) as Em.
    pose proof (compare_no_case_eq_trans (sub a) (sub b) (sub c)) as Es.
    revert Hab Hbc Tm Ts Tss Em Es.
    generalize (compare_no_case (main a) (main b)) as x1,
      (compare_no_case (main b) (main c)) as x2,
      (compare_no_case (main a) (main c)) as x3,
      (compare_no_case (sub a) (sub b)) as y1,
      (compare_no_case (sub b) (sub c)) as y2,
      (compare_no_case (sub a) (sub c)) as y3,
      (compare_no_case (subsub a) (subsub b)) as z1,
      (compare_no_case (subsub b) (subsub c)) as z2,
      (compare_no_case (subsub a) (subsub c)) as z3.
    intros x1 x2 x3 y1 y2 y3 z1 z2 z3.
    rewrite !Z.ltb_lt.
    repeat match goal with
           | |- context [?x =? 0] =>
               is_var x; destruct (Z.eqb_spec x 0); cbv beta iota
           end; lia.
  - now apply IndexEntry_lt_asym.
  - unfold IndexEntry_lt. now rewrite !compare_no_case_refl.
Qed.

Lemma IndexEntry_lt_strict_witness :
  IndexEntry_lt (mkIndexEntry "Apple" "" "" (mkParagraph "p" ""))
    (mkIndexEntry "banana" "" "" (mkParagraph "p" "")) = true
  /\ IndexEntry_lt (mkIndexEntry "apple" "green" "" (mkParagraph "p" ""))
       (mkIndexEntry "Apple" "" "" (mkParagraph "p" "")) = false
  /\ IndexEntry_lt (mkIndexEntry "Apple" "" "" (mkParagraph "p" ""))
       (mkIndexEntry "Apple" "" "" (mkParagraph "p" "")) = false.
Proof.
  apply (IndexEntry_lt_strict
           (mkIndexEntry "Apple" "" "" (mkParagraph "p" ""))
           (mkIndexEntry "apple" "green" "" (mkParagraph "p" ""))
           (mkIndexEntry "banana" "" "" (mkParagraph "p" ""))); reflexivity.
Defined.

(** ** The tree builder on any list of entries *)

Lemma links_app (xs ys : list XMLItem) :
  links (xs ++ ys) = links xs ++ links ys.
Proof.
  induction xs as [|x xs IH]; [reflexivity|].
  destruct x; simpl; auto. destruct (String.eqb tag "a"); simpl; congruence.
Qed.

Lemma numbers_app (xs ys : list XMLItem) :
  numbers (xs ++ ys) = numbers xs ++ numbers ys.
Proof.
  induction xs as [|x xs IH]; [reflexivity|].
  destruct x; simpl; congruence.
Qed.

(** Closing and opening at any level: the open elements follow the level,
    no anchor and no number is written, and a main item that was never
    opened is closed as soon as the main field changes. *)
Lemma close_open_any (level : Z) (e last : IndexEntry)
    (main' sub' subsub' : docstring) :
  is_level level ->
  let '(xsc, l1) := close_last level e last in
  let '(xso, l2) := open_new l1 e last main' sub' subsub' in
  is_level l2
  /\ tag_stack (open_stack level) (xsc ++ xso) = Some (open_stack l2)
  /\ tag_stack (unopened_stack level) (xsc ++ xso)
     = (if same_main e last then Some (unopened_stack l2) else None)
  /\ links (xsc ++ xso) = []
  /\ numbers (xsc ++ xso) = [].
Proof.
  unfold is_level, close_last, open_new, same_sub, same_main.
  intros [-> | [-> | ->]];
    destruct (String.eqb (main e) (main last)),
      (String.eqb (sub e) (sub last)), (empty sub'), (empty subsub');
    cbn; repeat split; auto.
Qed.

(** One round of the loop, after the first. *)
Lemma xhtml_step_any (st : LoopState) (e : IndexEntry) :
  0 <= entry_number st -> is_level (level st) ->
  exists st' delta,
    xhtml_step st e = Some st'
    /\ 0 <= entry_number st' /\ is_level (level st') /\ last st' = e
    /\ xs st' = xs st ++ delta
    /\ tag_stack (open_stack (level st)) delta
       = Some (open_stack (level st'))
    /\ tag_stack (unopened_stack (level st)) delta
       = (if same_main e (last st) then Some (unopened_stack (level st'))
          else None)
    /\ links delta = [href e]
    /\ numbers delta = [entry_number st']
    /\ entry_number st'
       = (if (entry_number st =? -1) || negb (equal e (last st)) then 1
          else entry_number st + 1).
Proof.
  intros Hn Hlev. unfold xhtml_step.
  assert (Hfirst : (entry_number st =? -1) = false) by (apply Z.eqb_neq; lia).
  rewrite Hfirst. cbn [orb negb].
  destruct (equal e (last st)) eqn:Heq; cbn [negb bind].
  - assert (Hsm : same_main e (last st) = true).
    { unfold equal in Heq. unfold same_main.
      apply andb_true_iff in Heq as [Heq _].
      now apply andb_true_iff in Heq as [Heq _]. }
    eexists _, _. split; [reflexivity|]. cbn [xs level last entry_number].
    rewrite Hsm.
    repeat split; try reflexivity; try assumption; try lia.
  - destruct (parseEntry_total (simpleLyXHTMLOnePar (dit e)) true)
      as (m' & s' & ss' & ->).
    cbn [bind].
    pose proof (close_open_any (level st) e (last st) m' s' ss' Hlev) as Hco.
    destruct (close_last (level st) e (last st)) as [xsc l1].
    destruct (open_new l1 e (last st) m' s' ss') as [xso l2].
    destruct Hco as (Hl2 & Hst & Hun & Hlk & Hnum).
    eexists _, (xsc ++ xso ++ index_link true (magicLabel (dit e)) 1).
    split; [reflexivity|]. cbn [xs level last entry_number].
    split; [lia|]. split; [assumption|]. split; [reflexivity|].
    split; [now rewrite <- !app_assoc|].
    rewrite !app_assoc.
    rewrite (tag_stack_app (open_stack (level st)) (xsc ++ xso)),
      (tag_stack_app (unopened_stack (level st)) (xsc ++ xso)), Hst, Hun,
      (links_app (xsc ++ xso)), (numbers_app (xsc ++ xso)), Hlk, Hnum.
    destruct (same_main e (last st));
      repeat split; try reflexivity;
      destruct Hl2 as [-> | [-> | ->]]; reflexivity.
Qed.

(** The rounds after the first. *)
Lemma xhtml_loop_any (es : list IndexEntry) (st : LoopState) :
  0 <= entry_number st -> is_level (level st) ->
  exists st' delta,
    xhtml_loop st es = Some st'
    /\ is_level (level st')
    /\ xs st' = xs st ++ delta
    /\ tag_stack (open_stack (level st)) delta
       = Some (open_stack (level st'))
    /\ (tag_stack (unopened_stack (level st)) delta = None
        \/ tag_stack (unopened_stack (level st)) delta
           = Some (unopened_stack (level st')))
    /\ links delta = map href es
    /\ numbers delta = ordinals (last st) (entry_number st) es.
Proof.
  revert st. induction es as [|e es IH]; intros st Hn Hlev.
  - exists st, []. rewrite app_nil_r. repeat split; auto.
  - destruct (xhtml_step_any st e Hn Hlev)
      as (st1 & d1 & Hstep & Hn1 & Hlev1 & Hl1 & Hxs1 & Hst1 & Hun1 & Hlk1
          & Hnum1 & He1).
    destruct (IH st1 Hn1 Hlev1)
      as (st' & d & Hloop & Hlev' & Hxs' & Hst' & Hun' & Hlk' & Hnum').
    exists st', (d1 ++ d). cbn [xhtml_loop]. rewrite Hstep. cbn [bind].
    split; [assumption|]. split; [assumption|].
    split; [now rewrite Hxs', Hxs1, app_assoc|].
    rewrite (tag_stack_app (open_stack (level st)) d1),
      (tag_stack_app (unopened_stack (level st)) d1), Hst1, Hun1,
      (links_app d1), (numbers_app d1), Hlk1, Hlk', Hnum1, Hnum', Hl1.
    split; [assumption|]. split.
    + destruct (same_main e (last st)); [assumption|now left].
    + cbn [map ordinals]. rewrite <- He1. split; reflexivity.
Qed.

(** The whole loop and what follows it, for a list that is not empty. *)
Lemma xhtml_entries_shape (env : PrintIndexEnv) (e : IndexEntry)
    (es : list IndexEntry) :
  exists out,
    xhtml_entries env (e :: es) = Some out
    /\ tag_stack [] out = (if empty (main e) then None else Some [])
    /\ links (index_list out) = map href (e :: es)
    /\ numbers (index_list out) = ordinals IndexEntry_default (-1) (e :: es).
Proof.
  unfold xhtml_entries.
  set (xs0 := [StartTag "div" _; StartTag (htmltag env) (htmlattr env);
               Text (index_title env); EndTag (htmltag env);
               StartTag "ul" "class='main'"]).
  cbn [xhtml_loop]. unfold xhtml_step at 1.
  cbn [entry_number xs level last]. change (-1 =? -1) with true.
  cbn [orb negb].
  destruct (parseEntry_total (simpleLyXHTMLOnePar (dit e)) true)
    as (m' & s' & ss' & ->).
  cbn [bind].
  assert (Hopen :
    let '(xso, l2) := open_new 1 e IndexEntry_default m' s' ss' in
    is_level l2
    /\ tag_stack ["ul"; "div"] xso
       = Some (if empty (main e) then unopened_stack l2 else open_stack l2)
    /\ links xso = [] /\ numbers xso = []).
  { unfold open_new, is_level, IndexEntry_default. cbn [main sub subsub].
    assert (Hm : String.eqb (main e) "" = empty (main e))
      by (destruct (main e); reflexivity).
    rewrite Hm. change (1 =? 3) with false. change (1 =? 2) with false.
    cbv iota.
    destruct (empty (main e)), (empty s'), (empty ss'); cbn;
      repeat split; auto. }
  destruct (open_new 1 e IndexEntry_default m' s' ss') as [xso l2].
  destruct Hopen as (Hl2 & Hst & Hlk & Hnum). cbn [bind].
  set (st1 := mkLoopState _ l2 e (0 + 1)).
  destruct (xhtml_loop_any es st1 ltac:(simpl; lia) Hl2)
    as (st' & d & Hloop & Hlev' & Hxs' & Hst' & Hun' & Hlk' & Hnum').
  rewrite Hloop. cbn [bind]. eexists. split; [reflexivity|].
  rewrite Hxs'. subst st1. cbn [xs level last entry_number] in *.
  set (lk := index_link true (magicLabel (dit e)) 1).
  set (R := xso ++ lk ++ d ++ close_levels (Z.to_nat (level st'))
              ++ [EndTag "div"; CR]).
  assert (Hxs0 : tag_stack [] xs0 = Some ["ul"; "div"]).
  { subst xs0. simpl. now rewrite String.eqb_refl. }
  match goal with
  | |- tag_stack [] ?o = _ /\ _ =>
      assert (Hout : o = xs0 ++ R)
        by (subst R lk; rewrite <- !app_assoc; reflexivity);
      rewrite Hout
  end.
  change (index_list (xs0 ++ R)) with ([StartTag "ul" "class='main'"] ++ R).
  subst R. split; [|split].
  - rewrite tag_stack_app, Hxs0, (tag_stack_app _ xso), Hst.
    destruct (empty (main e)); cbv beta iota.
    + rewrite (tag_stack_app _ lk). subst lk.
      rewrite (proj1 (link_nested _ _ _ _)).
      rewrite (tag_stack_app _ d).
      destruct Hun' as [-> | ->]; [reflexivity|].
      destruct Hlev' as [-> | [-> | ->]]; reflexivity.
    + rewrite (tag_stack_app _ lk). subst lk.
      rewrite (proj1 (link_nested _ _ _ _)).
      rewrite (tag_stack_app _ d), Hst'.
      destruct Hlev' as [-> | [-> | ->]]; reflexivity.
  - rewrite (links_app [_]), (links_app xso), (links_app lk), (links_app d),
      Hlk, Hlk'.
    subst lk. unfold href.
    destruct Hlev' as [-> | [-> | ->]]; cbn; now rewrite app_nil_r.
  - rewrite (numbers_app [_]), (numbers_app xso), (numbers_app lk),
      (numbers_app d), Hnum, Hnum'.
    subst lk.
    destruct Hlev' as [-> | [-> | ->]]; cbn; now rewrite app_nil_r.
Qed.

Lemma xhtml_entries_anchors (env : PrintIndexEnv) (es : list IndexEntry) :
  exists out,
    xhtml_entries env es = Some out
    /\ links (index_list out) = map href es
    /\ numbers (index_list out) = ordinals IndexEntry_default (-1) es.
Proof.
  destruct es as [|e es].
  - eexists. split; [reflexivity|]. split; reflexivity.
  - destruct (xhtml_entries_shape env e es) as (out & Hout & _ & Hl & Hn).
    eauto.
Qed.

(** X6.  Every entry gets one anchor, in the order of the list, that
    refers to its own paragraph; the number in it is 1 for an entry that
    differs from the one before it and one more than the number before
    for a repeated entry.  No other anchor and no other number is
    written. *)
Theorem xhtml_entries_links (env : PrintIndexEnv) (es : list IndexEntry) :
  exists out,
    xhtml_entries env es = Some out
    /\ links (index_list out) = map href es
    /\ numbers (index_list out) = ordinals IndexEntry_default (-1) es.
Proof. exact (xhtml_entries_anchors env es). Qed.

Lemma IndexEntry_make_total (s : docstring) (d : Paragraph) :
  exists e, IndexEntry_make s d = Some e.
Proof.
  unfold IndexEntry_make.
  destruct (parseEntry_total s false) as (m & s1 & s2 & ->). cbn [bind].
  eauto.
Qed.

Lemma collect_entries_total (toc : list TocItem) :
  exists entries,
    collect_entries toc = Some entries
    /\ List.length entries = List.length (List.filter isOutput toc).
Proof.
  induction toc as [|it toc (entries & IH & Hlen)]; [now exists []|].
  cbn [collect_entries List.filter]. destruct (isOutput it); [|eauto].
  destruct (IndexEntry_make_total (str it) (toc_dit it)) as [e ->].
  cbn [bind]. rewrite IH. cbn [bind]. exists (e :: entries).
  split; [reflexivity|]. simpl. now rewrite Hlen.
Qed.

Lemma length_stable_insert (x : IndexEntry) (l : list IndexEntry) :
  List.length (stable_insert x l) = S (List.length l).
Proof.
  induction l as [|y l IH]; [reflexivity|]. simpl.
  destruct (IndexEntry_lt y x); simpl; now rewrite ?IH.
Qed.

Lemma length_stable_sort (l : list IndexEntry) :
  List.length (stable_sort l) = List.length l.
Proof.
  induction l as [|x l IH]; [reflexivity|]. simpl.
  now rewrite length_stable_insert, IH.
Qed.

(** X7.  [InsetPrintIndex::xhtml] returns for every table of contents: no
    entry string makes the parser throw.  Unless the index is refused
    (another type than [idx] with several indices in use), it writes as
    many anchors as there are items of the table that are output. *)
Theorem xhtml_total (env : PrintIndexEnv) (toc : list TocItem) :
  exists out,
    xhtml env toc = Some out
    /\ List.length (links (index_list out))
       = if use_indices env && negb (String.eqb (type_param env) "idx")
         then O else List.length (List.filter isOutput toc).
Proof.
  unfold xhtml. destruct (_ && _); [now exists []|].
  destruct toc as [|it toc]; [now exists []|].
  change (Nat.eqb (List.length (it :: toc)) 0) with false. cbv iota.
  destruct (collect_entries_total (it :: toc)) as (entries & -> & Hlen).
  cbn [bind]. rewrite <- Hlen.
  destruct entries as [|e entries]; [now exists []|].
  change (Nat.eqb (List.length (e :: entries)) 0) with false. cbv iota.
  destruct (xhtml_entries_anchors env (stable_sort (e :: entries)))
    as (out & Hout & Hl & _).
  exists out. split; [assumption|].
  now rewrite Hl, length_map, length_stable_sort.
Qed.

(** ** [InsetIndex::docbook] on every entry *)

Lemma diagnostics_nested (stack : list string) (xs : list XMLItem) :
  forallb is_output_error xs = true -> tag_stack stack xs = Some stack.
Proof.
  induction xs as [|x xs IH]; [reflexivity|]. simpl.
  intros H. apply andb_true_iff in H as [Hx Hxs].
  destruct x; try discriminate. now apply IH.
Qed.

Lemma seealso_nested (stack : list string) (seeAlsoes : list docstring)
    (rest : list XMLItem) :
  tag_stack stack
    (flat_map (fun entry =>
                 [StartTag "seealso" ""; Text entry; EndTag "seealso"])
       seeAlsoes ++ rest)
  = tag_stack stack rest.
Proof. induction seeAlsoes as [|s l IH]; [reflexivity|]. exact IH. Qed.

Lemma write_indexterm_nested (stack : list string) (attrs sortAs : docstring)
    (terms : list docstring) (hasEnd : bool) (see : docstring)
    (seeAlsoes : list docstring) :
  tag_stack stack (write_indexterm attrs sortAs terms hasEnd see seeAlsoes)
  = Some stack.
Proof.
  unfold write_indexterm. destruct hasEnd; [reflexivity|].
  cbn [app tag_stack].
  destruct (negb (Nat.eqb (List.length terms) 0)),
    (Nat.ltb 1 (List.length terms)), (Nat.ltb 2 (List.length terms)),
    (negb (empty see)); cbn [app tag_stack String.eqb Ascii.eqb Bool.eqb];
    now rewrite seealso_nested.
Qed.

(** The tags of what [docbook] writes are balanced, whatever the entry:
    the element, when there is one, closes everything it opens. *)
Lemma docbook_tags_nested (cleanID : docstring -> docstring)
    (use_indices : bool) (index : docstring) (st : RangeState)
    (latex : docstring) :
  exists out st',
    docbook cleanID use_indices index st latex = Some (out, st')
    /\ wellnested out = true.
Proof.
  destruct (docbook_cases cleanID use_indices index st latex)
    as (diags & indexTerms & sortAs & terms & see & seeAlsoes & Hd & ->).
  unfold wellnested. destruct (_ && _).
  - eexists _, _. split; [reflexivity|].
    now rewrite tag_stack_app, (diagnostics_nested _ _ Hd).
  - destruct (range_attrs _ _ _ _ _ _) as [attrs st'].
    eexists _, _. split; [reflexivity|].
    now rewrite tag_stack_app, (diagnostics_nested _ _ Hd),
      write_indexterm_nested.
Qed.

Lemma range_attrs_state (cleanID : docstring -> docstring)
    (indexType indexTerms : docstring) (hasStart hasEnd : bool)
    (st : RangeState) :
  let st' := snd (range_attrs cleanID indexType indexTerms hasStart hasEnd st) in
  ID st <= ID st' <= ID st + 1
  /\ knownTermLists st ⊆ knownTermLists st'
  /\ (hasEnd = true \/ st' = st).
Proof.
  unfold range_attrs. destruct st as [known n].
  destruct hasStart, hasEnd; cbn [negb andb snd ID knownTermLists];
    destruct (bool_decide (indexTerms ∈ known));
    cbn [negb andb snd ID knownTermLists];
    repeat split; auto; try lia; set_solver.
Qed.

(** X9.  The thread-local data only grow: an entry moves the counter up by
    one at most and never takes a term list out of the set, and only an
    entry with the end-of-range marker changes them at all. *)
Theorem docbook_state (cleanID : docstring -> docstring)
    (use_indices : bool) (index : docstring) (st : RangeState)
    (latex : docstring) :
  exists out st',
    docbook cleanID use_indices index st latex = Some (out, st')
    /\ ID st <= ID st' <= ID st + 1
    /\ knownTermLists st ⊆ knownTermLists st'
    /\ (hasEndRange latex = true \/ st' = st).
Proof.
  destruct (docbook_cases cleanID use_indices index st latex)
    as (diags & indexTerms & sortAs & terms & see & seeAlsoes & Hd & ->).
  destruct (_ && _).
  - eexists _, _. split; [reflexivity|]. repeat split; auto; lia.
  - pose proof (range_attrs_state cleanID
                  (if use_indices then " type=" +:+ dq +:+ index +:+ dq
                   else "")
                  indexTerms (hasStartRange latex) (hasEndRange latex) st)
      as H.
    destruct (range_attrs _ _ _ _ _ _) as [attrs st'].
    eexists _, _. split; [reflexivity|]. exact H.
Qed.

(** ** Any number of ranges over one term list *)

Lemma to_string_inj (a b : Z) : to_string a = to_string b -> a = b.
Proof.
  unfold to_string. intros H.
  assert (E : Some (Z.to_int a) = Some (Z.to_int b)).
  { rewrite <- !NilEmpty.isi. now rewrite H. }
  injection E as E. rewrite <- (DecimalZ.of_to a), <- (DecimalZ.of_to b).
  now rewrite E.
Qed.

Lemma app_inv_head_s (a b c : string) : a +:+ b = a +:+ c -> b = c.
Proof.
  induction a as [|x a IH]; rewrite ?app_nil_l, ?app_cons; [auto|].
  intros [= H]. auto.
Qed.

Lemma NoDup_map_inj {A B : Type} (f : A -> B) (l : list A) :
  (forall x y, f x = f y -> x = y) -> List.NoDup l -> List.NoDup (map f l).
Proof.
  intros Hf. induction 1 as [|x l Hx Hl IH]; simpl; constructor; auto.
  intros Hin. apply in_map_iff in Hin as (y & Hy & Hin).
  apply Hf in Hy. now subst.
Qed.

Lemma range_attrs_known (cleanID : docstring -> docstring)
    (indexType t : docstring) (known : gset docstring) (i : Z) :
  t ∈ known ->
  range_attrs cleanID indexType t true false (mkRangeState known i)
  = (startofrange_attrs indexType (cleanID (t +:+ "-" +:+ to_string i)),
     mkRangeState known i)
  /\ range_attrs cleanID indexType t false true (mkRangeState known i)
     = (endofrange_attrs (cleanID (t +:+ "-" +:+ to_string i)),
        mkRangeState known (i + 1)).
Proof.
  intros Hk. unfold range_attrs. cbn [negb andb knownTermLists ID].
  rewrite (bool_decide_eq_true_2 _ Hk). split; reflexivity.
Qed.

Lemma range_attrs_new (cleanID : docstring -> docstring)
    (indexType t : docstring) (known : gset docstring) (i : Z) :
  t ∉ known ->
  range_attrs cleanID indexType t true false (mkRangeState known i)
  = (startofrange_attrs indexType (cleanID t), mkRangeState known i)
  /\ range_attrs cleanID indexType t false true (mkRangeState known i)
     = (endofrange_attrs (cleanID t), mkRangeState ({[ t ]} ∪ known) i).
Proof.
  intros Hk. unfold range_attrs. cbn [negb andb knownTermLists ID].
  rewrite (bool_decide_eq_false_2 _ Hk). split; reflexivity.
Qed.

Lemma range_pairs_known (cleanID : docstring -> docstring)
    (indexType t : docstring) (n : nat) (st : RangeState) :
  t ∈ knownTermLists st ->
  range_pairs cleanID indexType t n st
  = (map (fun k => pair_attrs cleanID indexType (suffixed t (ID st) k))
       (seq 0 n),
     mkRangeState (knownTermLists st) (ID st + Z.of_nat n)).
Proof.
  revert st. induction n as [|n IH]; intros [known i] Hk;
    cbn [knownTermLists ID] in *.
  - cbn [range_pairs seq map]. now rewrite Z.add_0_r.
  - destruct (range_attrs_known cleanID indexType t known i Hk) as [E1 E2].
    cbn [range_pairs]. rewrite E1, E2.
    rewrite (IH (mkRangeState known (i + 1)) Hk).
    cbn [knownTermLists ID seq map]. f_equal.
    + f_equal.
      * unfold pair_attrs, suffixed, startofrange_attrs, endofrange_attrs.
        now rewrite Z.add_0_r.
      * rewrite <- seq_shift, map_map. apply map_ext. intros k.
        unfold suffixed. do 4 f_equal. lia.
    + f_equal. lia.
Qed.

(** X10.  Any number of ranges over one term list, one after the other in
    a scope that has not seen it: the first carries the identifier of the
    term list, the next ones the term list with the counter appended, the
    counter going up by one from range to range; each end refers to its
    own start, and no two ranges share an identifier, as [cleanID] keeps
    different names apart. *)
Theorem range_pairs_distinct (cleanID : docstring -> docstring)
    (indexType t : docstring) (n : nat) (st : RangeState) :
  t ∉ knownTermLists st ->
  (forall a b, cleanID a = cleanID b -> a = b) ->
  let names := t :: map (suffixed t (ID st)) (seq 0 n) in
  fst (range_pairs cleanID indexType t (S n) st)
  = map (pair_attrs cleanID indexType) names
  /\ ID (snd (range_pairs cleanID indexType t (S n) st)) = ID st + Z.of_nat n
  /\ List.NoDup (map cleanID names).
Proof.
  intros Hnew Hinj names. destruct st as [known i].
  cbn [knownTermLists ID] in *.
  assert (Hrun : range_pairs cleanID indexType t (S n) (mkRangeState known i)
                 = (map (pair_attrs cleanID indexType) names,
                    mkRangeState ({[ t ]} ∪ known) (i + Z.of_nat n))).
  { destruct (range_attrs_new cleanID indexType t known i Hnew) as [E1 E2].
    cbn [range_pairs]. rewrite E1, E2.
    rewrite (range_pairs_known cleanID indexType t n
               (mkRangeState ({[ t ]} ∪ known) i)) by set_solver.
    cbn [knownTermLists ID]. subst names. cbn [map].
    now rewrite map_map. }
  rewrite Hrun. split; [reflexivity|]. split; [reflexivity|].
  apply NoDup_map_inj; [assumption|]. subst names. constructor.
  - intros Hin. apply in_map_iff in Hin as (k & Hk & _).
    symmetry in Hk. revert Hk. apply suffix_differs.
  - apply NoDup_map_inj; [|apply seq_NoDup].
    intros x y H. unfold suffixed in H.
    apply app_inv_head_s, app_inv_head_s, to_string_inj in H. lia.
Qed.

Lemma range_pairs_distinct_witness :
  let names := "Term" :: map (suffixed "Term" (ID initialRangeState)) (seq 0 3) in
  fst (range_pairs (fun s => s) "" "Term" 4 initialRangeState)
  = map (pair_attrs (fun s => s) "") names
  /\ ID (snd (range_pairs (fun s => s) "" "Term" 4 initialRangeState))
     = ID initialRangeState + Z.of_nat 3
  /\ List.NoDup (map (fun s : docstring => s) names).
Proof.
  apply (range_pairs_distinct (fun s => s) "" "Term" 3 initialRangeState).
  - apply not_elem_of_empty.
  - intros a b H. exact H.
Defined.

(** ** A plain term *)

Lemma getVector_plain (c : ascii) (t : docstring) :
  empty t = false -> trimmed t = true -> occurs c t = false ->
  getVectorFromString t (String c "") false = [t].
Proof.
  intros He Ht Hc. unfold getVectorFromString. rewrite He.
  unfold trimmed in Ht. apply andb_true_iff in Ht as [H1 H2].
  apply negb_true_iff in H1, H2.
  rewrite rtrim_trimmed by assumption. cbn [getVector_loop].
  rewrite (find_nat_absent c) by (auto; simpl; now rewrite Ascii.eqb_refl).
  now rewrite ltrim_trimmed.
Qed.

(** X11.  A plain term, with no blank around it and none of the
    characters [|], [@] and [!], is written as an [indexterm] element
    with the term as its primary and nothing else: no diagnostic, no
    attribute but the type, and the thread-local data untouched. *)
Theorem docbook_plain_term (cleanID : docstring -> docstring)
    (use_indices : bool) (index : docstring) (st : RangeState)
    (t : docstring) :
  size t < npos -> empty t = false -> trimmed t = true ->
  occurs "|" t = false -> occurs "@" t = false -> occurs "!" t = false ->
  docbook cleanID use_indices index st t
  = Some ([StartTag "indexterm" (indexType_attr use_indices index);
           StartTag "primary" ""; Text t; EndTag "primary";
           EndTag "indexterm"], st).
Proof.
  intros Hsz He Ht Hbar Hat Hbang. unfold docbook.
  rewrite (trim_trimmed_id t Ht).
  rewrite (find_absent "@"%char ("@" +:+ BS) t) by (auto; reflexivity).
  rewrite !(find_absent "|"%char _ t) by (auto; reflexivity).
  rewrite Z.eqb_refl. cbn [negb].
  rewrite substr_0Z by (pose proof npos_pos; lia).
  rewrite stake_all by (unfold size in Hsz; lia). cbn [bind].
  rewrite (getVector_plain "@" t He Ht Hat).
  rewrite (getVector_plain "!" t He Ht Hbang).
  cbn [strip_ranges orb bind]. unfold handle_see.
  rewrite (substr_0Z "" 3) by lia. cbn [bind].
  change (String.eqb (stake (Z.to_nat 3) "") "see") with false. cbv iota.
  cbn [bind empty negb]. cbn [List.length Nat.eqb andb].
  unfold range_attrs. cbn [negb andb]. unfold write_indexterm.
  cbn [List.length Nat.eqb Nat.ltb Nat.leb negb empty nth flat_map app].
  reflexivity.
Qed.

Lemma docbook_plain_term_witness :
  docbook (fun s => s) true "idx" initialRangeState "index entry"
  = Some ([StartTag "indexterm" (indexType_attr true "idx");
           StartTag "primary" ""; Text "index entry"; EndTag "primary";
           EndTag "indexterm"], initialRangeState).
Proof.
  apply (docbook_plain_term (fun s => s) true "idx" initialRangeState
           "index entry"); reflexivity.
Defined.

(** ** The command of the print-index inset *)

Lemma compatible_cases (s : string) :
  InsetPrintIndex.isCompatibleCommand s = true ->
  s = "printindex" \/ s = "printsubindex"
  \/ s = "printindex*" \/ s = "printsubindex*".
Proof.
  unfold InsetPrintIndex.isCompatibleCommand.
  rewrite !orb_true_iff, !String.eqb_eq. tauto.
Qed.

(** X12.  On a compatible command name, [toggle-subindex] gives a
    compatible name again, keeps the star, and undoes itself when used
    twice. *)
Theorem toggle_subindex_involution (s : string) :
  InsetPrintIndex.isCompatibleCommand s = true ->
  InsetPrintIndex.isCompatibleCommand (InsetPrintIndex.toggle_subindex s)
  = true
  /\ InsetPrintIndex.toggle_subindex (InsetPrintIndex.toggle_subindex s) = s
  /\ suffixIs (InsetPrintIndex.toggle_subindex s) "*" = suffixIs s "*"
  /\ contains (InsetPrintIndex.toggle_subindex s) "printsubindex"
     = negb (contains s "printsubindex").
Proof.
  intros H.
  destruct (compatible_cases s H) as [-> | [-> | [-> | ->]]];
    repeat split; reflexivity.
Qed.

Lemma toggle_subindex_involution_witness :
  InsetPrintIndex.isCompatibleCommand
    (InsetPrintIndex.toggle_subindex "printindex*") = true
  /\ InsetPrintIndex.toggle_subindex
       (InsetPrintIndex.toggle_subindex "printindex*") = "printindex*"
  /\ suffixIs (InsetPrintIndex.toggle_subindex "printindex*") "*"
     = suffixIs "printindex*" "*"
  /\ contains (InsetPrintIndex.toggle_subindex "printindex*") "printsubindex"
     = negb (contains "printindex*" "printsubindex").
Proof. apply (toggle_subindex_involution "printindex*"). reflexivity. Defined.

(** X13.  On a compatible command name, [check-printindex*] either finds
    the star and changes nothing, or gives a compatible starred name with
    an empty type, on which it changes nothing any more; it keeps the
    choice between index and sub-index. *)
Theorem check_printindex_star_once (s : string) :
  InsetPrintIndex.isCompatibleCommand s = true ->
  match InsetPrintIndex.check_printindex_star s with
  | None => suffixIs s "*" = true
  | Some (s', type) =>
      InsetPrintIndex.isCompatibleCommand s' = true
      /\ type = ""
      /\ InsetPrintIndex.check_printindex_star s' = None
      /\ contains s' "printsubindex" = contains s "printsubindex"
  end.
Proof.
  intros H.
  destruct (compatible_cases s H) as [-> | [-> | [-> | ->]]];
    cbv; repeat split; reflexivity.
Qed.

Lemma check_printindex_star_once_witness :
  match InsetPrintIndex.check_printindex_star "printsubindex" with
  | None => suffixIs "printsubindex" "*" = true
  | Some (s', type) =>
      InsetPrintIndex.isCompatibleCommand s' = true
      /\ type = ""
      /\ InsetPrintIndex.check_printindex_star s' = None
      /\ contains s' "printsubindex" = contains "printsubindex" "printsubindex"
  end.
Proof. apply (check_printindex_star_once "printsubindex"). reflexivity. Defined.

(** ** [InsetIndex::latex] *)

Lemma suffixIs_app (a : string) (c : ascii) :
  suffixIs (a +:+ String c "") c = true.
Proof.
  induction a as [|x a IH]; rewrite ?app_nil_l, ?app_cons; simpl.
  - apply Ascii.eqb_refl.
  - destruct (a +:+ String c "") eqn:E; [|exact IH].
    destruct a; discriminate.
Qed.

Lemma latex_bar_total (latexstr plainstr : docstring) :
  exists cmd latexstr' plainstr',
    (if negb (find latexstr "|" 0 =? npos) then
       let? cmd := substr latexstr (wrap (find latexstr "|" 0 + 1)) npos in
       let? latexstr := erase latexstr (find latexstr "|" 0) npos in
       let? plainstr :=
         (if find plainstr "|" 0 <? size plainstr
          then erase plainstr (find plainstr "|" 0) npos
          else Some plainstr) in
       Some (cmd, latexstr, plainstr)
     else Some ("", latexstr, plainstr))
    = Some (cmd, latexstr', plainstr').
Proof.
  destruct (find latexstr "|" 0 =? npos) eqn:E; [simpl; eauto|]. simpl.
  destruct (substr_total latexstr (wrap (find latexstr "|" 0 + 1)) npos)
    as [cmd ->].
  { apply next_position_in_range; simpl; lia. }
  cbn [bind].
  destruct (find_result latexstr "|" 0 ltac:(lia))
    as [Hn|(i & Hi & _ & _ & Hl)].
  { rewrite Hn, Z.eqb_refl in E. discriminate. }
  destruct (erase_total latexstr (find latexstr "|" 0) npos) as [l' ->].
  { rewrite Hi. unfold size. lia. }
  cbn [bind].
  destruct (find plainstr "|" 0 <? size plainstr) eqn:Ep; [|simpl; eauto].
  apply Z.ltb_lt in Ep.
  destruct (erase_total plainstr (find plainstr "|" 0) npos) as [p' ->];
    [lia|]. cbn [bind]. eauto.
Qed.

(** The text and the warnings of [latex] outside pattern search. *)
Lemma latex_shape (escape : docstring -> docstring)
    (latexString : docstring -> bool -> docstring * docstring)
    (use_indices : bool) (index : docstring) (dryrun postpone : bool)
    (ourlatex ourplain : docstring) :
  exists cmd levels levels_plain,
    latex escape latexString use_indices index false dryrun postpone
      ourlatex ourplain
    = Some
        (let text :=
           latex_open escape use_indices index
             +:+ fst (latex_levels latexString dryrun true levels levels_plain)
             +:+ (if negb (empty cmd) then "|" +:+ cmd else "") +:+ "}" in
         let warns :=
           snd (latex_levels latexString dryrun true levels levels_plain) in
         if postpone then mkLatexOutput "" text warns
         else mkLatexOutput text "" warns).
Proof.
  unfold latex. cbv zeta.
  destruct (latex_bar_total ourlatex ourplain) as (cmd & l' & p' & ->).
  cbn [bind].
  exists cmd, (getVectorFromString l' "!" true),
    (getVectorFromString p' "!" true).
  destruct (latex_levels latexString dryrun true _ _) as [text warns].
  cbn [fst snd].
  destruct (negb (empty cmd)), postpone;
    now rewrite ?app_assoc_s, ?app_nil_l.
Qed.

Lemma latex_levels_dryrun
    (latexString : docstring -> bool -> docstring * docstring)
    (first : bool) (levels levels_plain : list docstring) :
  snd (latex_levels latexString true first levels levels_plain) = [].
Proof.
  revert first levels_plain.
  induction levels as [|it rest IH]; intros first levels_plain;
    [reflexivity|].
  cbn [latex_levels]. specialize (IH false (List.tl levels_plain)).
  destruct (latex_levels latexString true false rest (List.tl levels_plain)).
  cbn [snd] in IH. subst.
  destruct (occurs "\" it && negb (occurs "@" it)); cbn [snd];
    now rewrite ?andb_false_r.
Qed.

(** X14.  Outside pattern search [latex] writes one text, to the stream
    or to [post_macro] and never to both; the text ends with the closing
    brace, and it begins with [\sindex[] exactly when [validate] requires
    the package [splitidx], and with [\index{] otherwise. *)
Theorem latex_validate (escape : docstring -> docstring)
    (latexString : docstring -> bool -> docstring * docstring)
    (use_indices : bool) (index : docstring) (dryrun postpone : bool)
    (ourlatex ourplain : docstring) :
  exists out,
    latex escape latexString use_indices index false dryrun postpone
      ourlatex ourplain = Some out
    /\ (if postpone then ios out = "" else post_macro out = "")
    /\ suffixIs (written out) "}" = true
    /\ (validate use_indices index = ["splitidx"]
        /\ is_prefix (BS +:+ "sindex[") (written out) = true
        \/ validate use_indices index = []
           /\ is_prefix (BS +:+ "index{") (written out) = true).
Proof.
  destruct (latex_shape escape latexString use_indices index dryrun postpone
              ourlatex ourplain) as (cmd & levels & plain & ->).
  eexists. split; [reflexivity|]. cbv zeta.
  set (body := fst (latex_levels latexString dryrun true levels plain)
                 +:+ (if negb (empty cmd) then "|" +:+ cmd else "") +:+ "}").
  assert (Hw : written
                 (if postpone
                  then mkLatexOutput ""
                         (latex_open escape use_indices index +:+ body)
                         (snd (latex_levels latexString dryrun true levels
                                 plain))
                  else mkLatexOutput
                         (latex_open escape use_indices index +:+ body) ""
                         (snd (latex_levels latexString dryrun true levels
                                 plain)))
               = latex_open escape use_indices index +:+ body).
  { unfold written. destruct postpone; cbn [ios post_macro];
      now rewrite ?app_nil_r_s, ?app_nil_l. }
  rewrite Hw. split; [now destruct postpone|]. split.
  - subst body. rewrite <- !app_assoc_s. apply suffixIs_app.
  - unfold validate, latex_open.
    destruct (use_indices && negb (empty index)
              && negb (String.eqb index "idx")); [left|right];
      (split; [reflexivity|]); apply prefix_app;
      rewrite !app_assoc_s; eauto.
Qed.

(** X15.  A dry run shows no warning about the sorting, whatever the
    encoding makes of the sort keys; and in pattern search nothing is
    written at all: what is collected in the local stream is dropped. *)
Theorem latex_quiet (escape : docstring -> docstring)
    (latexString : docstring -> bool -> docstring * docstring)
    (use_indices : bool) (index : docstring)
    (find_effective dryrun postpone : bool) (ourlatex ourplain : docstring) :
  (exists out,
      latex escape latexString use_indices index find_effective true postpone
        ourlatex ourplain = Some out
      /\ warnings out = [])
  /\ latex escape latexString use_indices index true dryrun postpone
       ourlatex ourplain = Some (mkLatexOutput "" "" []).
Proof.
  split; [|reflexivity]. destruct find_effective.
  - eexists. split; reflexivity.
  - destruct (latex_shape escape latexString use_indices index true postpone
                ourlatex ourplain) as (cmd & levels & plain & ->).
    eexists. split; [reflexivity|]. cbv zeta.
    rewrite latex_levels_dryrun. now destruct postpone.
Qed.

Lemma occurs_stake (c : ascii) (n : nat) (s : string) :
  occurs c s = false -> occurs c (stake n s) = false.
Proof.
  revert n. induction s as [|x s IH]; intros [|n] H; try reflexivity.
  simpl in *. apply orb_false_iff in H as [-> H]. now rewrite IH.
Qed.

Lemma occurs_sdrop (c : ascii) (n : nat) (s : string) :
  occurs c s = false -> occurs c (sdrop n s) = false.
Proof.
  revert n. induction s as [|x s IH]; intros [|n] H; try assumption;
    try reflexivity.
  simpl in *. apply orb_false_iff in H as [_ H]. now apply IH.
Qed.

Lemma occurs_ltrim (c : ascii) (s : string) :
  occurs c s = false -> occurs c (ltrim s) = false.
Proof.
  induction s as [|x s IH]; intros H; [reflexivity|]. simpl.
  destruct (is_space x); [|assumption].
  simpl in H. apply orb_false_iff in H as [_ H]. now apply IH.
Qed.

Lemma occurs_rtrim (c : ascii) (s : string) :
  occurs c s = false -> occurs c (rtrim s) = false.
Proof.
  induction s as [|x s IH]; intros H; [reflexivity|]. simpl.
  simpl in H. apply orb_false_iff in H as [Hx H].
  destruct (is_space x && empty (rtrim s)); [reflexivity|].
  simpl. now rewrite Hx, IH.
Qed.






Lemma getVector_single (c : ascii) (t : docstring) (keepempty : bool) :
  empty t = false -> trimmed t = true -> occurs c t = false ->
  getVectorFromString t (String c "") keepempty = [t].
Proof.
  intros He Ht Hc. unfold getVectorFromString. rewrite He.
  unfold trimmed in Ht. apply andb_true_iff in Ht as [H1 H2].
  apply negb_true_iff in H1, H2.
  rewrite rtrim_trimmed by assumption. cbn [getVector_loop].
  rewrite (find_nat_absent c) by (auto; simpl; now rewrite Ascii.eqb_refl).
  now rewrite ltrim_trimmed.
Qed.

(** The split at the first [|], lines 111-123, in closed form. *)
Lemma latex_bar_exact (latexstr plainstr : docstring) :
  size latexstr < npos -> size plainstr < npos ->
  (if negb (find latexstr "|" 0 =? npos) then
     let? cmd := substr latexstr (wrap (find latexstr "|" 0 + 1)) npos in
     let? latexstr := erase latexstr (find latexstr "|" 0) npos in
     let? plainstr :=
       (if find plainstr "|" 0 <? size plainstr
        then erase plainstr (find plainstr "|" 0) npos
        else Some plainstr) in
     Some (cmd, latexstr, plainstr)
   else Some ("", latexstr, plainstr))
  = Some (command_of latexstr, take_until (Ascii.eqb "|") latexstr,
          if occurs "|" latexstr
          then take_until (Ascii.eqb "|") plainstr else plainstr).
Proof.
  intros Hs Hp. unfold command_of.
  rewrite !take_until_find, after_first_find, !find_0.
  pose proof (find_nat_char "|" latexstr) as H.
  pose proof (find_nat_char "|" plainstr) as H'.
  destruct (find_nat "|" latexstr) as [i|].
  - destruct H as [Hi ->]. unfold size in Hs, Hp.
    destruct (Z.of_nat i =? npos) eqn:E; [apply Z.eqb_eq in E; lia|].
    cbn [negb]. rewrite wrap_small by lia.
    replace (Z.of_nat i + 1) with (Z.of_nat (S i)) by lia.
    rewrite substr_rest by (unfold size; lia). cbn [bind].
    rewrite erase_tail by (unfold size; lia). cbn [bind].
    destruct (find_nat "|" plainstr) as [j|].
    + destruct H' as [Hj _].
      destruct (Z.of_nat j <? size plainstr) eqn:Ej;
        [|apply Z.ltb_ge in Ej; unfold size in Ej; lia].
      rewrite erase_tail by (unfold size; lia). reflexivity.
    + destruct (npos <? size plainstr) eqn:Ej;
        [apply Z.ltb_lt in Ej; unfold size in Ej; lia|].
      reflexivity.
  - rewrite H, Z.eqb_refl. reflexivity.
Qed.

(** X17.  The reason for the procedure, outside pattern search.  Take an
    entry of one level: the LaTeX before the first [|] is not empty, has no
    blank at its ends and no [!]; it holds a backslash and no [@]; and the
    plain text before the [|] (the whole plain text when the LaTeX has no
    [|]) has no blank at its ends and no [!] either, or is empty.  Then
    [latex] writes, to the stream or to [post_macro], the command, the
    sort key, [@], the level, the [|] and what follows it if anything
    does, and the closing brace, as in [\index{LyX@\LyX}].  The sort key is
    made from the plain text, or from the LaTeX when the plain text is
    empty: what the encoding returns for it, without backslashes and with
    the double quotes escaped.  The warning is shown exactly when the
    encoding changed the text and the run is not dry. *)
Theorem latex_sort_key (escape : docstring -> docstring)
    (latexString : docstring -> bool -> docstring * docstring)
    (use_indices : bool) (index : docstring) (dryrun postpone : bool)
    (ourlatex ourplain : docstring) :
  let t := take_until (Ascii.eqb "|") ourlatex in
  let p := if occurs "|" ourlatex
           then take_until (Ascii.eqb "|") ourplain else ourplain in
  let spart := if empty p then t else p in
  let key := fst (latexString spart dryrun) in
  size ourlatex < npos -> size ourplain < npos ->
  empty t = false -> trimmed t = true -> occurs "!" t = false ->
  occurs "\" t = true -> occurs "@" t = false ->
  trimmed p = true -> occurs "!" p = false ->
  exists out,
    latex escape latexString use_indices index false dryrun postpone
      ourlatex ourplain = Some out
    /\ (if postpone then ios out = "" else post_macro out = "")
    /\ written out
       = latex_open escape use_indices index
           +:+ sort_key key +:+ "@" +:+ t
           +:+ (if empty (command_of ourlatex) then ""
                else "|" +:+ command_of ourlatex)
           +:+ "}"
    /\ warnings out
       = (if negb (String.eqb spart key) && negb dryrun then [spart]
          else []).
Proof.
  intros t p spart key Hs Hps He Ht Hbang Hbs Hat Hpt Hpbang.
  unfold latex. cbv zeta. rewrite latex_bar_exact by assumption.
  cbn [bind].
  change (take_until (Ascii.eqb "|") ourlatex) with t.
  change (if occurs "|" ourlatex
          then take_until (Ascii.eqb "|") ourplain else ourplain) with p.
  subst key spart. clearbody t p.
  rewrite (getVector_single "!" t true He Ht Hbang).
  assert (Hlev : latex_levels latexString dryrun true [t]
                   (getVectorFromString p "!" true)
                 = (sort_key
                      (fst (latexString (if empty p then t else p) dryrun))
                      +:+ "@" +:+ t,
                    if negb (String.eqb (if empty p then t else p)
                               (fst (latexString (if empty p then t else p)
                                       dryrun)))
                       && negb dryrun
                    then [if empty p then t else p] else [])).
  { destruct (empty p) eqn:Hpe.
    - destruct p; [|discriminate].
      change (getVectorFromString "" "!" true) with (@nil docstring).
      cbn [latex_levels List.tl]. rewrite Hbs, Hat. cbn [andb negb].
      unfold sort_key.
      now rewrite ?app_assoc_s, ?app_nil_l, ?app_nil_r, ?app_nil_r_s.
    - rewrite (getVector_single "!" p true Hpe Hpt Hpbang).
      cbn [latex_levels List.tl]. rewrite Hbs, Hat, Hpe. cbn [andb negb].
      unfold sort_key.
      now rewrite ?app_assoc_s, ?app_nil_l, ?app_nil_r, ?app_nil_r_s. }
  unfold docstring in *.
  destruct postpone; (eexists; rewrite Hlev; split; [reflexivity|]);
    (split; [reflexivity|]); (split; [|reflexivity]);
    unfold written; destruct (empty (command_of ourlatex));
    cbn [negb ios post_macro];
    now rewrite ?app_assoc_s, ?app_nil_l, ?app_nil_r_s.
Qed.

Lemma latex_sort_key_witness :
  exists out,
    latex (fun s => s) (fun s _ => (s, "")) false "idx" false false true
      "\LyX|textbf" "LyX|textbf" = Some out
    /\ ios out = ""
    /\ written out
       = latex_open (fun s => s) false "idx"
           +:+ sort_key "LyX" +:+ "@" +:+ "\LyX"
           +:+ (if empty (command_of "\LyX|textbf") then ""
                else "|" +:+ command_of "\LyX|textbf")
           +:+ "}"
    /\ warnings out = [].
Proof.
  apply (latex_sort_key (fun s => s) (fun s _ => (s, "")) false "idx" false
           true "\LyX|textbf" "LyX|textbf"); reflexivity.
Defined.

Example latex_LyX :
  latex (fun s => s) (fun s _ => (s, "")) false "idx" false false false
    "\LyX" "LyX"
  = Some (mkLatexOutput "\index{LyX@\LyX}" "" []).
Proof. reflexivity. Qed.

Example latex_LyX_textbf :
  latex (fun s => s) (fun s _ => (s, "")) false "idx" false false true
    "\LyX|textbf" "LyX|textbf"
  = Some (mkLatexOutput "" "\index{LyX@\LyX|textbf}" []).
Proof. reflexivity. Qed.

(** ** The erase loops, in closed form *)

Lemma length_drop_before (a b : ascii) (s : string) :
  (String.length (drop_before a b s) <= String.length s)%nat.
Proof.
  induction s as [|c s IH]; simpl; [lia|].
  destruct (Ascii.eqb c a && Ascii.eqb (front0 s) b); simpl; lia.
Qed.

(** The first occurrence of a pattern of two characters is the first
    character that [drop_before] takes out. *)
Lemma drop_before_find (a b : ascii) (s : string) :
  Ascii.eqb Ascii.zero b = false ->
  match find_nat (String a (String b "")) s with
  | None => drop_before a b s = s
  | Some j =>
      drop_before a b s = stake j s +:+ drop_before a b (sdrop (S j) s)
      /\ (j < String.length s)%nat
  end.
Proof.
  intros Hb. induction s as [|c s IH]; [reflexivity|].
  cbn [find_nat drop_before].
  assert (E : is_prefix (String a (String b "")) (String c s)
              = Ascii.eqb c a && Ascii.eqb (front0 s) b).
  { cbn [is_prefix]. rewrite (Ascii.eqb_sym a c). f_equal.
    destruct s as [|d s]; cbn [is_prefix front0].
    - now rewrite Hb.
    - now rewrite andb_true_r, Ascii.eqb_sym. }
  rewrite E. destruct (Ascii.eqb c a && Ascii.eqb (front0 s) b).
  - cbn [stake sdrop]. rewrite app_nil_l. split; [reflexivity|simpl; lia].
  - destruct (find_nat (String a (String b "")) s) as [j|]; cbn [option_map].
    + destruct IH as [IH Hj]. cbn [stake sdrop]. rewrite app_cons.
      split; [now f_equal|simpl; lia].
    + now f_equal.
Qed.

Lemma erase_one (c : string) (i : nat) :
  (i < String.length c)%nat ->
  erase c (Z.of_nat i) 1 = Some (stake i c +:+ sdrop (S i) c).
Proof.
  intros Hi. unfold erase, size.
  destruct (Z.of_nat (String.length c) <? Z.of_nat i) eqn:E;
    [apply Z.ltb_lt in E; lia|].
  cbv zeta. rewrite Z.min_l by lia. rewrite Nat2Z.id.
  now replace (Z.to_nat (Z.of_nat i + 1)) with (S i) by lia.
Qed.

Lemma stake_stake_sdrop (n j : nat) (s : string) :
  stake (n + j) s = stake n s +:+ stake j (sdrop n s).
Proof.
  revert s. induction n as [|n IH]; intros s.
  - now rewrite app_nil_l.
  - destruct s as [|c s]; cbn [Nat.add stake sdrop].
    + destruct j; reflexivity.
    + now rewrite app_cons, IH.
Qed.

(** An erase loop over a pattern of two characters takes out the first
    character of every occurrence it meets from [index] on. *)
Lemma erase_each_drop (a b : ascii) (fuel : nat) :
  Ascii.eqb Ascii.zero b = false ->
  forall (c : string) (n : nat),
    size c < npos -> (n <= String.length c)%nat ->
    (String.length c < fuel)%nat ->
    erase_each fuel (String a (String b "")) c (Z.of_nat n)
    = Some (stake n c +:+ drop_before a b (sdrop n c)).
Proof.
  intros Hb. induction fuel as [|fuel IH]; intros c n Hsz Hn Hf; [lia|].
  cbn [erase_each]. cbv zeta. rewrite find_from by assumption.
  pose proof (drop_before_find a b (sdrop n c) Hb) as Hd.
  pose proof (length_sdrop n c) as Hl.
  destruct (find_nat (String a (String b "")) (sdrop n c)) as [j|].
  - destruct Hd as [Hd Hj]. unfold size in Hsz.
    destruct (Z.of_nat (n + j) =? npos) eqn:E; [apply Z.eqb_eq in E; lia|].
    rewrite erase_one by lia. cbn [bind].
    assert (Hlen : String.length (stake (n + j) c) = (n + j)%nat).
    { rewrite length_stake. lia. }
    rewrite IH.
    + f_equal. rewrite <- Hlen at 1. rewrite stake_app.
      rewrite <- Hlen at 2. rewrite sdrop_app.
      rewrite Hd, sdrop_sdrop, stake_stake_sdrop, app_assoc_s.
      now replace (n + S j)%nat with (S (n + j)) by lia.
    + unfold size. rewrite length_app, Hlen, length_sdrop. lia.
    + rewrite length_app, Hlen. lia.
    + rewrite length_app, Hlen, length_sdrop. lia.
  - rewrite Z.eqb_refl, Hd. now rewrite stake_sdrop.
Qed.

Lemma erase_all_drop (a b : ascii) (c : string) :
  Ascii.eqb Ascii.zero b = false -> size c < npos ->
  erase_all (String a (String b "")) c = Some (drop_before a b c).
Proof.
  intros Hb Hsz. unfold erase_all.
  change 0 with (Z.of_nat 0). rewrite erase_each_drop by (auto; lia).
  now rewrite app_nil_l.
Qed.

(** ** The bracketed content *)

Lemma wrap_neg (z : Z) : - size_max <= z < 0 -> wrap z = z + size_max.
Proof.
  intros H. unfold wrap. symmetry.
  apply (Z.mod_unique _ _ (-1)); [left|]; unfold size_max in *; lia.
Qed.

Lemma substr_from (s : string) (n : nat) (k : Z) :
  (n <= String.length s)%nat -> size s - Z.of_nat n <= k ->
  substr s (Z.of_nat n) k = Some (sdrop n s).
Proof.
  intros Hn Hk. unfold substr, size in *.
  destruct (Z.of_nat (String.length s) <? Z.of_nat n) eqn:E;
    [apply Z.ltb_lt in E; lia|].
  rewrite Z.min_r by lia. rewrite Nat2Z.id. f_equal.
  apply stake_all. rewrite length_sdrop. lia.
Qed.

Lemma occurs_stake_before (c : ascii) (s : string) (i j : nat) :
  find_nat (String c "") s = Some j ->
  occurs c (stake i s) = (j <? i)%nat.
Proof.
  revert i j. induction s as [|x s IH]; intros i j; [discriminate|].
  cbn [find_nat is_prefix]. rewrite andb_true_r.
  destruct i as [|i]; cbn [stake occurs].
  - intros _. symmetry. apply Nat.ltb_ge. lia.
  - destruct (Ascii.eqb c x).
    + intros [= <-]. reflexivity.
    + destruct (find_nat (String c "") s) as [k|]; [|discriminate].
      intros [= <-]. cbn [orb]. now rewrite (IH i k).
Qed.

Lemma find_nat_sdrop (c : ascii) (s : string) (m j : nat) :
  find_nat (String c "") s = Some j -> (m <= j)%nat ->
  find_nat (String c "") (sdrop m s) = Some (j - m)%nat.
Proof.
  revert m j. induction s as [|x s IH]; intros m j; [discriminate|].
  destruct m as [|m]; [intros H _; now rewrite Nat.sub_0_r|].
  cbn [find_nat is_prefix sdrop]. rewrite andb_true_r.
  destruct (Ascii.eqb c x); [intros [= <-]; lia|].
  destruct (find_nat (String c "") s) as [k|] eqn:E; [|discriminate].
  intros [= <-] Hm. cbn [Nat.sub]. apply IH; [reflexivity|lia].
Qed.

Lemma take_until_absent (c : ascii) (s : string) :
  occurs c s = false -> take_until (Ascii.eqb c) s = s.
Proof.
  intros H. rewrite take_until_find.
  now rewrite (find_nat_absent c) by (auto; simpl; now rewrite Ascii.eqb_refl).
Qed.

(** What [docbook] takes for the list between the brackets, with the
    positions wrapping around when a bracket is missing or the closing
    one comes first. *)
Lemma bracketed_substr (c : string) :
  size c < npos ->
  substr c (wrap (find c "{" 0 + 1)) (wrap (find c "}" 0 - find c "{" 0 - 1))
  = Some (bracketed c).
Proof.
  intros Hsz. unfold bracketed. rewrite !find_0.
  pose proof (find_nat_char "{" c) as Ho.
  pose proof (find_nat_char "}" c) as Hc.
  pose proof npos_value as Hn. unfold size in Hsz.
  assert (Hm : size_max = npos + 1) by reflexivity.
  rewrite (take_until_find "{"), (after_first_find "{").
  destruct (find_nat "{" c) as [i|] eqn:Ei.
  - destruct Ho as [Hi ->]. rewrite wrap_small by lia.
    replace (Z.of_nat i + 1) with (Z.of_nat (S i)) by lia.
    destruct (find_nat "}" c) as [j|] eqn:Ej.
    + destruct Hc as [Hj _]. rewrite (occurs_stake_before _ _ i j Ej).
      destruct (Nat.ltb_spec j i) as [Hlt|Hge].
      * rewrite wrap_neg by lia. apply substr_from; unfold size; lia.
      * assert (Hne : j <> i).
        { intros ->. apply find_nat_Some in Ei as [Ei _].
          apply find_nat_Some in Ej as [Ej _].
          destruct (sdrop i c) as [|x r]; [discriminate|].
          cbn [is_prefix] in Ei, Ej. rewrite andb_true_r in Ei, Ej.
          apply Ascii.eqb_eq in Ei, Ej. congruence. }
        rewrite wrap_small by lia.
        rewrite take_until_find, (find_nat_sdrop _ _ (S i) j Ej) by lia.
        replace (Z.of_nat j - Z.of_nat i - 1)
          with (Z.of_nat (j - S i)) by lia.
        apply substr_mid. lia.
    + rewrite occurs_stake by assumption.
      rewrite take_until_absent by now apply occurs_sdrop.
      rewrite wrap_small by lia. apply substr_from; unfold size; lia.
  - rewrite Ho.
    replace (wrap (npos + 1)) with 0 by reflexivity.
    rewrite take_until_find.
    destruct (find_nat "}" c) as [j|] eqn:Ej.
    + destruct Hc as [Hj _].
      replace (wrap (Z.of_nat j - npos - 1)) with (Z.of_nat j)
        by (rewrite wrap_neg by lia; lia).
      apply substr_0.
    + replace (wrap (npos - npos - 1)) with npos by reflexivity.
      change 0 with (Z.of_nat 0). rewrite substr_from; [reflexivity|lia|].
      unfold size. lia.
Qed.

(** ** [see] and [seealso] in what [docbook] writes *)

(** Lines 266-300 on a command that begins with [see]. *)
Lemma handle_see_bracketed (latexString command : docstring) :
  size command < npos ->
  is_prefix "see" command = true ->
  exists rest,
    handle_see latexString command
    = Some (see_result latexString command
              (bracketed (unescaped command)) rest).
Proof.
  intros Hsz Hsee. unfold handle_see.
  rewrite (substr_0Z command 3) by lia. cbn [bind].
  change (Z.to_nat 3) with (String.length "see").
  rewrite stake_eqb_prefix, Hsee.
  pose proof (length_drop_before "\" "{" command) as Hl1.
  pose proof (length_drop_before "\" "}" (drop_before "\" "{" command))
    as Hl2.
  assert (Hpre : is_prefix "seealso" (unescaped command)
                 = is_prefix "seealso" command).
  { destruct (erase_all_spec (fun s => is_prefix "seealso" s = true)
                (BS +:+ "{") command) as (c1 & Hc1 & _ & HP1);
      [simpl; lia| |].
    { intros a b. unfold BS. rewrite !app_cons, !app_nil_l. simpl sdrop.
      now rewrite app_cons, app_nil_l, (prefix_escape "seealso"). }
    destruct (erase_all_spec (fun s => is_prefix "seealso" s = true)
                (BS +:+ "}") c1) as (c2 & Hc2 & _ & HP2);
      [simpl; lia| |].
    { intros a b. unfold BS. rewrite !app_cons, !app_nil_l. simpl sdrop.
      now rewrite app_cons, app_nil_l, (prefix_escape "seealso"). }
    change (BS +:+ "{") with (String "\" (String "{" "")) in Hc1.
    change (BS +:+ "}") with (String "\" (String "}" "")) in Hc2.
    rewrite erase_all_drop in Hc1 by (auto; reflexivity).
    injection Hc1 as <-.
    rewrite erase_all_drop in Hc2 by (unfold size in *; auto; lia).
    injection Hc2 as <-. fold (unescaped command) in HP2.
    destruct (is_prefix "seealso" command),
      (is_prefix "seealso" (unescaped command));
      try reflexivity; intuition congruence. }
  change (BS +:+ "{") with (String "\" (String "{" "")).
  change (BS +:+ "}") with (String "\" (String "}" "")).
  rewrite erase_all_drop by (auto; reflexivity). cbn [bind].
  rewrite erase_all_drop by (unfold size in *; auto; lia). cbn [bind].
  fold (unescaped command).
  assert (Hu : size (unescaped command) < npos).
  { unfold unescaped, size in *. lia. }
  rewrite bracketed_substr by assumption. cbn [bind].
  rewrite (substr_0Z _ 7) by lia. cbn [bind].
  change (Z.to_nat 7) with (String.length "seealso").
  rewrite stake_eqb_prefix, Hpre.
  pose proof (next_position_in_range (unescaped command) "}" 0
                ltac:(lia) ltac:(simpl; lia)) as Hcl.
  destruct (substr_total (unescaped command)
              (wrap (find (unescaped command) "}" 0 + 1)) npos ltac:(lia))
    as [rest ->].
  exists rest. unfold see_result.
  destruct (is_prefix "seealso" command); [reflexivity|].
  cbn [bind]. rewrite find_char, negb_involutive; [reflexivity|].
  pose proof (substr_length _ _ _ _ (bracketed_substr _ Hu)).
  unfold size in *. lia.
Qed.

(** Lines 252-264 in closed form. *)
Lemma strip_ranges_drop (hasStart hasEnd : bool) (c : docstring) :
  size c < npos ->
  strip_ranges hasStart hasEnd c
  = Some (if hasStart || hasEnd then
            let c' := drop_before "|" ")" (drop_before "|" "(" c) in
            if Ascii.eqb (front0 c') "(" || Ascii.eqb (front0 c') ")"
            then sdrop 1 c' else c'
          else c).
Proof.
  intros Hsz. unfold strip_ranges.
  destruct (hasStart || hasEnd); [|reflexivity].
  pose proof (length_drop_before "|" "(" c) as Hl1.
  change "|(" with (String "|" (String "(" "")).
  change "|)" with (String "|" (String ")" "")).
  rewrite erase_all_drop by (auto; reflexivity). cbn [bind].
  rewrite erase_all_drop by (unfold size in *; auto; lia). cbn [bind].
  cbv zeta.
  destruct (drop_before "|" ")" (drop_before "|" "(" c)) as [|x r];
    [reflexivity|].
  cbn [front0]. destruct (Ascii.eqb x "(" || Ascii.eqb x ")"); [|reflexivity].
  change 1 with (Z.of_nat 1). rewrite erase_head by (simpl; lia).
  reflexivity.
Qed.

(** Lines 230-236: the split at the first vertical bar. *)
Lemma split_at_bar (s : docstring) :
  size s < npos ->
  substr s 0 (find s "|" 0) = Some (take_until (Ascii.eqb "|") s)
  /\ (if negb (find s "|" 0 =? npos)
      then substr s (wrap (find s "|" 0 + 1)) npos else Some "")
     = Some (command_of s).
Proof.
  intros Hsz. unfold command_of.
  rewrite take_until_find, after_first_find, find_0.
  pose proof (find_nat_char "|" s) as H. unfold size in Hsz.
  destruct (find_nat "|" s) as [i|].
  - destruct H as [Hi ->]. split; [apply substr_0|].
    destruct (Z.of_nat i =? npos) eqn:E; [apply Z.eqb_eq in E; lia|].
    cbn [negb]. rewrite wrap_small by lia.
    replace (Z.of_nat i + 1) with (Z.of_nat (S i)) by lia.
    apply substr_rest; unfold size; lia.
  - rewrite H, Z.eqb_refl. split; [|reflexivity].
    change 0 with (Z.of_nat 0). rewrite substr_from; [reflexivity|lia|].
    unfold size. lia.
Qed.

Lemma length_entry_command (latex : docstring) :
  (String.length (entry_command latex) <= String.length (trim latex))%nat.
Proof.
  unfold entry_command, command_of, docstring. cbv zeta.
  set (c := if occurs "|" (trim latex) then after_first "|" (trim latex)
            else "").
  assert (Hc : (String.length c <= String.length (trim latex))%nat).
  { subst c. destruct (occurs "|" (trim latex)); [|simpl; lia].
    apply length_after_first. }
  pose proof (length_drop_before "|" "(" c).
  pose proof (length_drop_before "|" ")" (drop_before "|" "(" c)).
  destruct (hasStartRange latex || hasEndRange latex); [|assumption].
  destruct (Ascii.eqb _ _ || Ascii.eqb _ _); [rewrite length_sdrop|]; lia.
Qed.

(** [docbook] with the positions worked out: the terms are what comes
    before the first bar, the command is [entry_command]. *)
Lemma docbook_unfold (cleanID : docstring -> docstring) (use_indices : bool)
    (index : docstring) (st : RangeState) (latex : docstring) :
  size latex < npos ->
  docbook cleanID use_indices index st latex
  = let latexString := trim latex in
    let xs0 :=
      if negb (find latexString ("@" +:+ BS) 0 =? npos) then
        [output_error ("Unsupported feature: an index entry contains an @"
                         +:+ BS +:+ ". Complete entry: " +:+ dq
                         +:+ latexString +:+ dq)]
      else [] in
    let indexTerms0 := take_until (Ascii.eqb "|") latexString in
    let '(sortAs, indexTerms) :=
      match getVectorFromString indexTerms0 "@" false with
      | [a; b] => (a, b)
      | _ => ("", indexTerms0)
      end in
    let terms := getVectorFromString indexTerms "!" false in
    let? (see, seeAlsoes, xs1, command) :=
      handle_see latexString (entry_command latex) in
    let xs2 :=
      if negb (empty command) then
        [output_error
           ("Unsupported feature: an index entry contains a | with an "
              +:+ "unsupported command, " +:+ command +:+ ". "
              +:+ "Complete entry: " +:+ dq +:+ latexString +:+ dq)]
      else [] in
    if Nat.eqb (List.length terms) 0 && negb (hasEndRange latex) then
      Some (xs0 ++ xs1 ++ xs2
              ++ [output_error ("No index term found! Complete entry: "
                                  +:+ dq +:+ latexString +:+ dq)],
            st)
    else
      let '(attrs, st') :=
        range_attrs cleanID (indexType_attr use_indices index) indexTerms
          (hasStartRange latex) (hasEndRange latex) st in
      Some (xs0 ++ xs1 ++ xs2
              ++ write_indexterm attrs sortAs terms (hasEndRange latex)
                   see seeAlsoes,
            st').
Proof.
  intros Hsz. pose proof (size_trim latex) as Ht.
  assert (Hls : size (trim latex) < npos) by lia.
  destruct (split_at_bar (trim latex) Hls) as [E1 E2].
  unfold docbook. cbv zeta. rewrite E1. cbn [bind]. rewrite E2. cbn [bind].
  rewrite strip_ranges_drop.
  - reflexivity.
  - unfold command_of. destruct (occurs "|" (trim latex)); [|reflexivity].
    pose proof (length_after_first "|" (trim latex)). unfold size in *. lia.
Qed.

Lemma elements_seealso_items (l : list docstring) :
  elements "seealso"
    (flat_map (fun entry =>
                 [StartTag "seealso" ""; Text entry; EndTag "seealso"]) l
     ++ [EndTag "indexterm"]) = l
  /\ elements "see"
       (flat_map (fun entry =>
                    [StartTag "seealso" ""; Text entry; EndTag "seealso"]) l
        ++ [EndTag "indexterm"]) = [].
Proof.
  induction l as [|x l [IH1 IH2]]; [split; reflexivity|].
  cbn [flat_map]. rewrite <- !app_assoc. cbn [List.app elements].
  change (String.eqb "seealso" "seealso") with true.
  change (String.eqb "seealso" "see") with false.
  cbv iota. now rewrite IH1, IH2.
Qed.

(** The cross references of the element [docbook] writes for an entry
    that has a term and is no end of range. *)
Lemma elements_write_indexterm (attrs sortAs : docstring)
    (terms : list docstring) (see : docstring) (seeAlsoes : list docstring) :
  terms <> [] ->
  elements "see" (write_indexterm attrs sortAs terms false see seeAlsoes)
  = (if empty see then [] else [see])
  /\ elements "seealso"
       (write_indexterm attrs sortAs terms false see seeAlsoes)
     = seeAlsoes.
Proof.
  intros Hterms. destruct (elements_seealso_items seeAlsoes) as [E1 E2].
  unfold write_indexterm.
  destruct terms as [|t1 [|t2 [|t3 terms]]]; [contradiction| | |];
    destruct (empty see); cbn; rewrite ?E1, ?E2; split; reflexivity.
Qed.

Lemma write_indexterm_no_raw (attrs sortAs : docstring)
    (terms : list docstring) (hasEnd : bool) (see : docstring)
    (seeAlsoes : list docstring) (s : docstring) :
  ~ In (Raw s) (write_indexterm attrs sortAs terms hasEnd see seeAlsoes).
Proof.
  unfold write_indexterm. destruct hasEnd.
  - simpl. intuition discriminate.
  - rewrite !in_app_iff, in_flat_map.
    destruct (negb (Nat.eqb (List.length terms) 0)),
      (Nat.ltb 1 (List.length terms)), (Nat.ltb 2 (List.length terms)),
      (negb (empty see)); simpl;
      intros H; decompose [or ex and] H; try discriminate; contradiction.
Qed.

Lemma several_not_unsupported (latexString e : docstring) :
  output_error (several_see_error latexString)
  <> output_error ("Unsupported" +:+ e).
Proof.
  unfold output_error, several_see_error. intros H.
  discriminate H.
Qed.

Lemma several_not_no_term (latexString e : docstring) :
  output_error (several_see_error latexString)
  <> output_error ("No index term" +:+ e).
Proof.
  unfold output_error, several_see_error. intros H.
  discriminate H.
Qed.

Lemma elements_diagnostic (tag : string) (e : docstring)
    (r : list XMLItem) :
  elements tag (output_error e :: r) = elements tag r.
Proof. reflexivity. Qed.

(** C7, as amended.  When the trailing command begins with [see],
    [docbook] returns; and for an entry that has an index term and is no
    end of range: with the seven characters [seealso] in front, the
    bracketed list split on commas gives the [seealso] elements, and there
    is no [see] element and no diagnostic about several targets;
    otherwise the bracketed content, when it is not empty, is the text of
    the single [see] element, there is no [seealso] element, and that
    diagnostic is written exactly when the content holds a comma. *)
Theorem see_and_seealso (cleanID : docstring -> docstring)
    (use_indices : bool) (index : docstring) (st : RangeState)
    (latex : docstring) :
  size latex < npos ->
  is_prefix "see" (entry_command latex) = true ->
  exists out st',
    docbook cleanID use_indices index st latex = Some (out, st')
    /\ (hasEndRange latex = false -> entry_terms latex <> [] ->
        let lst := bracketed (unescaped (entry_command latex)) in
        let several := output_error (several_see_error (trim latex)) in
        if is_prefix "seealso" (entry_command latex)
        then elements "seealso" out = getVectorFromString lst "," false
             /\ elements "see" out = []
             /\ ~ In several out
        else elements "see" out = (if empty lst then [] else [lst])
             /\ elements "seealso" out = []
             /\ (In several out <-> occurs "," lst = true)).
Proof.
  intros Hsz Hsee.
  pose proof (size_trim latex) as Htrim.
  pose proof (length_entry_command latex) as Hlen.
  destruct (handle_see_bracketed (trim latex) (entry_command latex))
    as [rest Hh]; [unfold size in *; lia|assumption|].
  rewrite docbook_unfold by assumption. cbv zeta. rewrite Hh.
  unfold entry_terms. cbv zeta.
  set (lst := bracketed (unescaped (entry_command latex))).
  set (gv := getVectorFromString (take_until (Ascii.eqb "|") (trim latex))
               "@" false).
  set (pair := match gv with
               | [a; b] => (a, b)
               | _ => ("", take_until (Ascii.eqb "|") (trim latex))
               end).
  assert (Hpair : match gv with
                  | [_; b] => b
                  | _ => take_until (Ascii.eqb "|") (trim latex)
                  end = snd pair).
  { subst pair. now destruct gv as [|a [|b [|c gv']]]. }
  rewrite Hpair. destruct pair as [sortAs indexTerms]. cbn [snd].
  set (terms := getVectorFromString indexTerms "!" false).
  unfold see_result. cbn [bind].
  set (xs0 := if negb (find (trim latex) ("@" +:+ BS) 0 =? npos)
              then _ else []).
  assert (H0 : forall x, In x xs0 ->
                 exists e, x = output_error ("Unsupported" +:+ e)).
  { subst xs0. destruct (negb _); [|contradiction].
    intros x [<-|[]]. eexists. reflexivity. }
  assert (E0 : forall tag r, elements tag (xs0 ++ r) = elements tag r).
  { intros tag r. subst xs0. now destruct (negb _). }
  assert (Hnil : Nat.eqb (List.length terms) 0 && negb (hasEndRange latex)
                 = true ->
                 hasEndRange latex = false -> terms <> [] -> False).
  { intros Ec He Hterms. rewrite He, andb_true_r in Ec.
    apply Nat.eqb_eq in Ec. now destruct terms. }
  destruct (is_prefix "seealso" (entry_command latex)); cbv beta iota;
    set (xs2 := if negb (empty rest) then _ else _);
    (assert (H2 : forall x, In x xs2 ->
                    exists e, x = output_error ("Unsupported" +:+ e))
      by (intros x Hx; subst xs2; destruct (negb (empty rest));
          [destruct Hx as [<-|[]]; eexists; reflexivity|destruct Hx]));
    (assert (E2 : forall tag r, elements tag (xs2 ++ r) = elements tag r)
      by (intros tag r; subst xs2; now destruct (negb (empty rest))));
    (destruct (Nat.eqb (List.length terms) 0 && negb (hasEndRange latex))
       eqn:Ec;
     [eexists _, _; split; [reflexivity|]; intros He Hterms;
      destruct (Hnil eq_refl He Hterms)|]);
    destruct (range_attrs cleanID (indexType_attr use_indices index)
                indexTerms (hasStartRange latex) (hasEndRange latex) st)
      as [attrs st'];
    (eexists _, _; split; [reflexivity|]); intros He Hterms; rewrite He.
  - destruct (elements_write_indexterm attrs sortAs terms ""
                (getVectorFromString lst "," false) Hterms) as [Es Ea].
    rewrite !E0. cbn [List.app]. rewrite !E2, Es, Ea.
    split; [reflexivity|split; [reflexivity|]].
    rewrite !in_app_iff. intros [H|[H|H]].
    + destruct (H0 _ H) as [e He']. exact (several_not_unsupported _ _ He').
    + destruct (H2 _ H) as [e He']. exact (several_not_unsupported _ _ He').
    + exact (write_indexterm_no_raw _ _ _ _ _ _ _ H).
  - destruct (elements_write_indexterm attrs sortAs terms lst [] Hterms)
      as [Es Ea].
    rewrite !E0.
    assert (E1 : forall tag r,
               elements tag
                 ((if occurs "," lst
                   then [output_error (several_see_error (trim latex))]
                   else []) ++ r) = elements tag r).
    { intros tag r. now destruct (occurs "," lst). }
    rewrite !E1, !E2, Es, Ea.
    split; [reflexivity|split; [reflexivity|]].
    rewrite !in_app_iff. split.
    + intros [H|[H|[H|H]]].
      * destruct (H0 _ H) as [e He'].
        destruct (several_not_unsupported _ _ He').
      * destruct (occurs "," lst); [reflexivity|contradiction].
      * destruct (H2 _ H) as [e He'].
        destruct (several_not_unsupported _ _ He').
      * destruct (write_indexterm_no_raw _ _ _ _ _ _ _ H).
    + intros ->. right. left. left. reflexivity.
Qed.

Lemma see_and_seealso_witness :
  exists out st',
    docbook (fun s => s) false "idx" initialRangeState "a|see{x,y}"
    = Some (out, st')
    /\ elements "see" out = ["x,y"]
    /\ elements "seealso" out = []
    /\ (In (output_error (several_see_error "a|see{x,y}")) out
        <-> occurs "," "x,y" = true).
Proof.
  destruct (see_and_seealso (fun s => s) false "idx" initialRangeState
              "a|see{x,y}" eq_refl eq_refl) as (out & st' & H & K).
  exists out, st'. split; [exact H|].
  apply K; [reflexivity|discriminate].
Defined.

(** C7, as stated, fails: the command of an end of range begins with
    [seealso] and no [seealso] element is written, the element being
    empty; an entry without index term gets the diagnostic only; and an
    empty bracket gives no [see] element. *)
Lemma see_and_seealso_endofrange :
  is_prefix "seealso" (entry_command "Term|)seealso{x,y}") = true
  /\ (exists st',
        docbook (fun s => s) false "idx" initialRangeState
          "Term|)seealso{x,y}"
        = Some ([CompTag "indexterm" (endofrange_attrs "Term")], st'))
  /\ elements "seealso" [CompTag "indexterm" (endofrange_attrs "Term")] = []
  /\ is_prefix "seealso" (entry_command "|seealso{x,y}") = true
  /\ docbook (fun s => s) false "idx" initialRangeState "|seealso{x,y}"
     = Some ([output_error ("No index term found! Complete entry: "
                              +:+ dq +:+ "|seealso{x,y}" +:+ dq)],
             initialRangeState)
  /\ docbook (fun s => s) false "idx" initialRangeState "a|see{}"
     = Some ([StartTag "indexterm" "";
              StartTag "primary" ""; Text "a"; EndTag "primary";
              EndTag "indexterm"], initialRangeState).
Proof.
  split; [reflexivity|]. split; [eexists; reflexivity|].
  repeat split; reflexivity.
Qed.

Example docbook_start_of_range_see (cleanID : docstring -> docstring) :
  entry_command "Term|(see{a\{b\}}" = "see{a\{b\}}"
  /\ bracketed (unescaped "see{a\{b\}}") = "a{b"
  /\ option_map fst
       (docbook cleanID false "idx" initialRangeState "Term|(see{a\{b\}}")
     = Some [output_error
               ("Unsupported feature: an index entry contains a | with an "
                  +:+ "unsupported command, }. Complete entry: "
                  +:+ dq +:+ "Term|(see{a\{b\}}" +:+ dq);
             StartTag "indexterm" (startofrange_attrs "" (cleanID "Term"));
             StartTag "primary" ""; Text "Term"; EndTag "primary";
             StartTag "see" ""; Text "a{b"; EndTag "see";
             EndTag "indexterm"].
Proof.
  repeat split; reflexivity.
Qed.

(** ** Text written after [ESCAPE_NONE] *)

Lemma occurs_drop_before (c a b : ascii) (s : string) :
  occurs c s = false -> occurs c (drop_before a b s) = false.
Proof.
  induction s as [|x s IH]; [reflexivity|]. cbn [occurs drop_before].
  intros H. apply orb_false_iff in H as [Hx Hs].
  destruct (Ascii.eqb x a && Ascii.eqb (front0 s) b); [now apply IH|].
  cbn [occurs]. now rewrite Hx, IH.
Qed.

Lemma occurs_after_first (c a : ascii) (s : string) :
  occurs c s = false -> occurs c (after_first a s) = false.
Proof.
  intros H. rewrite after_first_find.
  destruct (find_nat (String a "") s); [now apply occurs_sdrop|assumption].
Qed.

Lemma occurs_take_until (c : ascii) (p : ascii -> bool) (s : string) :
  occurs c s = false -> occurs c (take_until p s) = false.
Proof.
  induction s as [|x s IH]; [reflexivity|]. cbn [occurs take_until].
  intros H. apply orb_false_iff in H as [Hx Hs].
  destruct (p x); [reflexivity|]. cbn [occurs]. now rewrite Hx, IH.
Qed.

Lemma occurs_trim (c : ascii) (s : string) :
  occurs c s = false -> occurs c (trim s) = false.
Proof. intros H. now apply occurs_rtrim, occurs_ltrim. Qed.

Lemma occurs_substr (c : ascii) (s r : string) (pos n : Z) :
  substr s pos n = Some r -> occurs c s = false -> occurs c r = false.
Proof.
  unfold substr. destruct (size s <? pos); [discriminate|].
  intros [= <-] H. now apply occurs_stake, occurs_sdrop.
Qed.

Lemma occurs_erase (c : ascii) (s r : string) (pos n : Z) :
  erase s pos n = Some r -> occurs c s = false -> occurs c r = false.
Proof.
  unfold erase. destruct (size s <? pos); [discriminate|].
  intros [= <-] H. rewrite occurs_app.
  now rewrite occurs_stake, occurs_sdrop.
Qed.

Lemma occurs_entry_command (c : ascii) (latex : docstring) :
  occurs c latex = false -> occurs c (entry_command latex) = false.
Proof.
  intros H. apply occurs_trim in H. unfold entry_command, command_of.
  cbv zeta.
  assert (Hc : occurs c (if occurs "|" (trim latex)
                         then after_first "|" (trim latex) else "") = false).
  { destruct (occurs "|" (trim latex)); [|reflexivity].
    now apply occurs_after_first. }
  destruct (hasStartRange latex || hasEndRange latex); [|assumption].
  destruct (Ascii.eqb _ _ || Ascii.eqb _ _);
    [apply occurs_sdrop|]; now do 2 apply occurs_drop_before.
Qed.

(** What is left of the command after [see] or [seealso] holds no
    character that the command does not hold, and the only diagnostic is
    the one about several targets. *)
Lemma handle_see_keeps (c : ascii) (latexString command : docstring)
    (see : docstring) (seeAlsoes : list docstring) (xs1 : list XMLItem)
    (rest : docstring) :
  size command < npos ->
  handle_see latexString command = Some (see, seeAlsoes, xs1, rest) ->
  occurs c command = false ->
  occurs c rest = false
  /\ (xs1 = [] \/ xs1 = [output_error (several_see_error latexString)]).
Proof.
  intros Hsz Hh Hc. unfold handle_see in Hh.
  destruct (substr command 0 3) as [head3|]; [|discriminate].
  cbn [bind] in Hh. destruct (String.eqb head3 "see").
  - pose proof (length_drop_before "\" "{" command) as Hl1.
    change (BS +:+ "{") with (String "\" (String "{" "")) in Hh.
    change (BS +:+ "}") with (String "\" (String "}" "")) in Hh.
    rewrite erase_all_drop in Hh by (auto; reflexivity). cbn [bind] in Hh.
    rewrite erase_all_drop in Hh by (unfold size in *; auto; lia).
    cbn [bind] in Hh. fold (unescaped command) in Hh.
    destruct (substr (unescaped command) _ _) as [lst|]; [|discriminate].
    cbn [bind] in Hh.
    destruct (substr (unescaped command) 0 7) as [head7|]; [|discriminate].
    cbn [bind] in Hh.
    destruct (substr (unescaped command) _ npos) as [r|] eqn:Er;
      [|destruct (String.eqb head7 "seealso"); discriminate].
    assert (Hr : occurs c r = false).
    { apply (occurs_substr _ _ _ _ _ Er). unfold unescaped.
      now do 2 apply occurs_drop_before. }
    destruct (String.eqb head7 "seealso"); cbn [bind] in Hh.
    + injection Hh as <- <- <- <-. auto.
    + injection Hh as <- <- <- <-. split; [assumption|].
      destruct (negb _); auto.
  - injection Hh as <- <- <- <-. auto.
Qed.

Lemma output_error_comment (e : docstring) :
  occurs ">" e = false ->
  comment_text ("<!-- Output Error: " +:+ e +:+ " -->" +:+ LF).
Proof.
  intros H. exists (" Output Error: " +:+ e +:+ " "). split.
  - now rewrite !app_assoc_s.
  - now rewrite !occurs_app, H.
Qed.

(** X8.  For an entry text without [>], [docbook] returns, the tags it
    writes are balanced, and all it writes after [ESCAPE_NONE] are
    diagnostics in comments that end only at their own end. *)
Theorem docbook_wellnested (cleanID : docstring -> docstring)
    (use_indices : bool) (index : docstring) (st : RangeState)
    (latex : docstring) :
  size latex < npos ->
  occurs ">" latex = false ->
  exists out st',
    docbook cleanID use_indices index st latex = Some (out, st')
    /\ wellnested out = true
    /\ raws_are_comments out.
Proof.
  intros Hsz Hgt.
  destruct (docbook_tags_nested cleanID use_indices index st latex)
    as (out & st' & Hout & Hnest).
  exists out, st'. split; [assumption|]. split; [assumption|].
  rewrite docbook_unfold in Hout by assumption. cbv zeta in Hout.
  pose proof (occurs_trim _ _ Hgt) as Hls.
  pose proof (occurs_entry_command _ _ Hgt) as Hcmd.
  pose proof (size_trim latex) as Htrim.
  pose proof (length_entry_command latex) as Hlen.
  set (pair := match getVectorFromString
                       (take_until (Ascii.eqb "|") (trim latex)) "@" false
               with
               | [a; b] => (a, b)
               | _ => ("", take_until (Ascii.eqb "|") (trim latex))
               end) in Hout.
  destruct pair as [sortAs indexTerms].
  destruct (handle_see (trim latex) (entry_command latex))
    as [[[[see seeAlsoes] xs1] rest]|] eqn:Hh; [|discriminate].
  cbn [bind] in Hout.
  assert (Hcsz : size (entry_command latex) < npos)
    by (unfold size in *; lia).
  destruct (handle_see_keeps ">" _ _ _ _ _ _ Hcsz Hh Hcmd) as [Hrest Hxs1].
  assert (H0 : forall s,
             In (Raw s)
               (if negb (find (trim latex) ("@" +:+ BS) 0 =? npos) then
                  [output_error
                     ("Unsupported feature: an index entry contains an @"
                        +:+ BS +:+ ". Complete entry: " +:+ dq
                        +:+ trim latex +:+ dq)]
                else []) -> comment_text s).
  { intros s. destruct (negb (find (trim latex) ("@" +:+ BS) 0 =? npos));
      [|contradiction].
    intros [[= <-]|[]]. apply output_error_comment.
    now rewrite !occurs_app, Hls. }
  assert (H1 : forall s, In (Raw s) xs1 -> comment_text s).
  { intros s. destruct Hxs1 as [->| ->]; [contradiction|].
    intros [[= <-]|[]]. apply output_error_comment.
    unfold several_see_error. now rewrite !occurs_app, Hls. }
  assert (H2 : forall s,
             In (Raw s)
               (if negb (empty rest) then
                  [output_error
                     ("Unsupported feature: an index entry contains a | "
                        +:+ "with an unsupported command, " +:+ rest
                        +:+ ". " +:+ "Complete entry: " +:+ dq
                        +:+ trim latex +:+ dq)]
                else []) -> comment_text s).
  { intros s. destruct (negb (empty rest)); [|contradiction].
    intros [[= <-]|[]]. apply output_error_comment.
    now rewrite !occurs_app, Hls, Hrest. }
  intros s Hs.
  destruct (Nat.eqb (List.length (getVectorFromString indexTerms "!" false))
              0 && negb (hasEndRange latex)).
  - injection Hout as <- _. rewrite !in_app_iff in Hs.
    destruct Hs as [Hs|[Hs|[Hs|Hs]]]; auto.
    destruct Hs as [[= <-]|[]]. apply output_error_comment.
    now rewrite !occurs_app, Hls.
  - destruct (range_attrs _ _ _ _ _ _) as [attrs st2].
    injection Hout as <- _. rewrite !in_app_iff in Hs.
    destruct Hs as [Hs|[Hs|[Hs|Hs]]]; auto.
    destruct (write_indexterm_no_raw _ _ _ _ _ _ _ Hs).
Qed.

Lemma docbook_wellnested_witness :
  exists out st',
    docbook (fun s => s) false "idx" initialRangeState "a@\b|see{x,y}z"
    = Some (out, st')
    /\ wellnested out = true
    /\ raws_are_comments out.
Proof.
  apply (docbook_wellnested (fun s => s) false "idx" initialRangeState
           "a@\b|see{x,y}z"); reflexivity.
Defined.

(** ** Paragraphs without markup of their own *)

Lemma occurs_parseItem (c : ascii) (s r : docstring) (for_output : bool) :
  parseItem s for_output = Some r -> occurs c s = false ->
  occurs c r = false.
Proof.
  unfold parseItem. cbv zeta. intros H Hs.
  destruct (if negb (find s "@" 0 =? npos)
            then if for_output then erase s 0 (wrap (find s "@" 0 + 1))
                 else erase s (find s "@" 0) npos
            else Some s) as [s1|] eqn:E1; [|discriminate].
  cbn [bind] in H.
  assert (H1 : occurs c s1 = false).
  { destruct (negb (find s "@" 0 =? npos)); [|now injection E1 as <-].
    destruct for_output; exact (occurs_erase _ _ _ _ _ E1 Hs). }
  destruct (negb (find s1 "|" 0 =? npos)); [|now injection H as <-].
  exact (occurs_erase _ _ _ _ _ H H1).
Qed.

Lemma occurs_extractSubentries (c : ascii) (entry m s1 s2 : docstring) :
  extractSubentries entry ("", "", "") = Some (m, s1, s2) ->
  occurs c entry = false ->
  occurs c m = false /\ occurs c s1 = false /\ occurs c s2 = false.
Proof.
  unfold extractSubentries. cbv zeta. intros H He.
  destruct (empty entry); [injection H as <- <- <-; auto|].
  destruct (find entry " ! " 0 =? npos); [injection H as <- <- <-; auto|].
  destruct (substr entry 0 _) as [a|] eqn:Ea; [|discriminate].
  cbn [bind] in H. apply occurs_substr with (c := c) in Ea; [|assumption].
  destruct (find entry " ! " (wrap (find entry " ! " 0 + 3)) =? npos).
  - destruct (substr entry _ npos) as [b|] eqn:Eb; [|discriminate].
    apply occurs_substr with (c := c) in Eb; [|assumption].
    injection H as <- <- <-. repeat split; auto using occurs_trim.
  - destruct (substr entry _ (wrap _)) as [b|] eqn:Eb; [|discriminate].
    apply occurs_substr with (c := c) in Eb; [|assumption].
    cbn [bind] in H.
    destruct (substr entry _ npos) as [d|] eqn:Ed; [|discriminate].
    apply occurs_substr with (c := c) in Ed; [|assumption].
    injection H as <- <- <-. repeat split; auto using occurs_trim.
Qed.

Lemma occurs_parseEntry (c : ascii) (s m s1 s2 : docstring)
    (for_output : bool) :
  parseEntry s for_output = Some (m, s1, s2) ->
  occurs c s = false ->
  occurs c m = false /\ occurs c s1 = false /\ occurs c s2 = false.
Proof.
  unfold parseEntry. intros H Hs.
  destruct (extractSubentries s ("", "", "")) as [[[a b] d]|] eqn:E;
    [|discriminate].
  destruct (occurs_extractSubentries c _ _ _ _ E Hs) as (Ha & Hb & Hd).
  cbn [bind] in H.
  destruct (parseItem a for_output) as [a'|] eqn:Ea'; [|discriminate].
  cbn [bind] in H.
  destruct (parseItem b for_output) as [b'|] eqn:Eb'; [|discriminate].
  cbn [bind] in H.
  destruct (parseItem d for_output) as [d'|] eqn:Ed'; [|discriminate].
  injection H as <- <- <-.
  repeat split; eapply occurs_parseItem; eassumption.
Qed.

Lemma close_last_plain (level : Z) (eit last : IndexEntry) :
  forallb raw_plain (fst (close_last level eit last)) = true.
Proof.
  unfold close_last.
  destruct (level =? 3), (same_sub eit last), (same_main eit last); cbn;
    repeat match goal with
           | |- context [if ?b then _ else _] => destruct b; cbn
           end; reflexivity.
Qed.

Lemma open_new_plain (level : Z) (eit last : IndexEntry)
    (main' sub' subsub' : docstring) :
  occurs "<" sub' = false -> occurs "<" subsub' = false ->
  forallb raw_plain (fst (open_new level eit last main' sub' subsub')) = true.
Proof.
  intros Hs Hss. unfold open_new.
  destruct (level =? 3), (level =? 2),
    (negb (String.eqb (sub eit) (sub last))),
    (negb (String.eqb (main eit) (main last))),
    (negb (empty sub')), (negb (empty subsub'));
    cbn [fst forallb raw_plain List.app andb]; now rewrite ?Hs, ?Hss.
Qed.

Lemma xhtml_step_plain (st st' : LoopState) (e : IndexEntry) :
  forallb raw_plain (xs st) = true ->
  occurs "<" (simpleLyXHTMLOnePar (dit e)) = false ->
  xhtml_step st e = Some st' ->
  forallb raw_plain (xs st') = true.
Proof.
  intros Hxs Hpar. unfold xhtml_step. cbv zeta.
  destruct ((entry_number st =? -1) || negb (equal e (last st))).
  - destruct (parseEntry (simpleLyXHTMLOnePar (dit e)) true)
      as [[[m' s'] ss']|] eqn:Ep;
      [|destruct (if negb (entry_number st =? -1) then _ else _);
        discriminate].
    destruct (occurs_parseEntry "<" _ _ _ _ _ Ep Hpar) as (_ & Hs & Hss).
    pose proof (close_last_plain (level st) e (last st)) as Hc.
    destruct (if negb (entry_number st =? -1)
              then close_last (level st) e (last st)
              else ([], level st)) as [xsc lvl] eqn:Ec.
    assert (Hxsc : forallb raw_plain xsc = true).
    { destruct (negb (entry_number st =? -1)).
      - rewrite Ec in Hc. exact Hc.
      - now injection Ec as <- _. }
    cbn [bind].
    pose proof (open_new_plain lvl e (last st) m' s' ss' Hs Hss) as Ho.
    destruct (open_new lvl e (last st) m' s' ss') as [xso lvl'].
    cbn [bind fst] in *. intros [= <-]. cbn [xs].
    now rewrite !forallb_app, Hxs, Hxsc, Ho.
  - cbn [bind]. intros [= <-]. cbn [xs].
    now rewrite forallb_app, Hxs.
Qed.

Lemma xhtml_loop_plain (es : list IndexEntry) (st st' : LoopState) :
  forallb raw_plain (xs st) = true ->
  Forall (fun x => occurs "<" (simpleLyXHTMLOnePar (dit x)) = false) es ->
  xhtml_loop st es = Some st' ->
  forallb raw_plain (xs st') = true.
Proof.
  revert st. induction es as [|e es IH]; intros st Hxs Hes.
  - now intros [= <-].
  - cbn [xhtml_loop]. inversion Hes as [|? ? He Hes']; subst.
    destruct (xhtml_step st e) as [st1|] eqn:E1; [|discriminate].
    cbn [bind]. apply IH; [|assumption].
    exact (xhtml_step_plain _ _ _ Hxs He E1).
Qed.

Lemma close_levels_plain (n : nat) :
  forallb raw_plain (close_levels n) = true.
Proof. induction n as [|n IH]; [reflexivity|exact IH]. Qed.

(** X5.  When no paragraph brings markup of its own (its XHTML holds no
    [<]), nothing [xhtml] writes for the entries after [ESCAPE_NONE] does
    either, and the tags it writes are balanced exactly when the first
    entry has a main field that is not empty, whatever the order of the
    entries: an empty main field at the front leaves the main item
    unopened, and it is closed all the same. *)
Theorem xhtml_entries_nested_iff (env : PrintIndexEnv) (e : IndexEntry)
    (es : list IndexEntry) :
  Forall (fun x => occurs "<" (simpleLyXHTMLOnePar (dit x)) = false)
    (e :: es) ->
  exists out,
    xhtml_entries env (e :: es) = Some out
    /\ forallb raw_plain out = true
    /\ wellnested out = negb (empty (main e)).
Proof.
  intros Hes.
  destruct (xhtml_entries_shape env e es) as (out & Hout & Hst & _).
  exists out. split; [assumption|]. split.
  - unfold xhtml_entries in Hout. cbv zeta in Hout.
    destruct (xhtml_loop _ (e :: es)) as [st'|] eqn:El; [|discriminate].
    cbn [bind] in Hout. injection Hout as <-.
    rewrite !forallb_app, close_levels_plain.
    rewrite (fun H => xhtml_loop_plain _ _ _ H Hes El); reflexivity.
  - unfold wellnested. rewrite Hst. now destruct (empty (main e)).
Qed.

Lemma xhtml_entries_nested_iff_witness :
  exists out,
    xhtml_entries (mkPrintIndexEnv false "idx" "h2" "" "index" "Index")
      [mkIndexEntry "" "b" "" (mkParagraph "p1" " ! b");
       mkIndexEntry "c" "" "" (mkParagraph "p2" "c &amp; d")] = Some out
    /\ forallb raw_plain out = true
    /\ wellnested out = negb (empty "").
Proof.
  apply (xhtml_entries_nested_iff
           (mkPrintIndexEnv false "idx" "h2" "" "index" "Index")
           (mkIndexEntry "" "b" "" (mkParagraph "p1" " ! b"))
           [mkIndexEntry "c" "" "" (mkParagraph "p2" "c &amp; d")]).
  repeat constructor.
Defined.
